(** * The chat console of the dashboard (src/pages/Chat/index.tsx)

    A shallow embedding of the [Main] component of the chat page: its data
    model, the asynchronous functions it defines (token refresh, config
    loading, the fetches with and without retry, sending) and the event loop
    that drives them, followed by the properties of the component. *)

From stdpp Require Import gmap strings list fin_maps pretty sorting.

Open Scope string_scope.

(** ** Strings

    Identifiers, tokens, URLs and email addresses are only compared and
    concatenated: they are [string]s.  The text of a message is inspected by
    [String.prototype.trim], so it is kept as JavaScript has it, a sequence of
    UTF-16 code units. *)

Definition jsstring := list N.

(** ECMAScript [WhiteSpace] and [LineTerminator] code points, the characters
    that [trim] strips. *)
Definition isWhiteSpace (c : N) : bool :=
  ((c =? 0x9) || (c =? 0xA) || (c =? 0xB) || (c =? 0xC) || (c =? 0xD)
   || (c =? 0x20) || (c =? 0xA0) || (c =? 0x1680)
   || ((0x2000 <=? c) && (c <=? 0x200A))
   || (c =? 0x2028) || (c =? 0x2029) || (c =? 0x202F) || (c =? 0x205F)
   || (c =? 0x3000) || (c =? 0xFEFF))%N.

Fixpoint trimStart (s : jsstring) : jsstring :=
  match s with
  | c :: s' => if isWhiteSpace c then trimStart s' else s
  | [] => []
  end.

Definition trimEnd (s : jsstring) : jsstring := rev (trimStart (rev s)).

Definition trim (s : jsstring) : jsstring := trimEnd (trimStart s).

(** The code units of an ASCII literal. *)
Definition js (s : string) : jsstring :=
  map Ascii.N_of_ascii (String.list_ascii_of_string s).

(** Truthiness of the values the component tests with [!]. *)
Definition truthy_text (s : jsstring) : bool :=
  match s with [] => false | _ => true end.

Definition truthy_id (i : option string) : bool :=
  match i with
  | Some s => negb (String.eqb s "")
  | None => false
  end.

(** [`${x}`] for a value that may be [undefined]. *)
Definition show (o : option string) : string := default "undefined" o.

(** ** Data model (the interfaces [Chat] and [Message]) *)

(** The value of [text.body].  The interface says a string; a listed message
    is typed [any], so the value is whatever the gateway sent.  Of a value
    that is neither a string nor [undefined] or [null] the component reads
    whether it is truthy and its [length]: [len] is that length when it is an
    integer, as for an array, and [None] when it converts to no number. *)
Inductive JsBody :=
| BodyString (s : jsstring)
| BodyNullish                                  (* undefined, null *)
| BodyOther (truthy : bool) (len : option Z).

Record Text := { body : JsBody }.

Record Image := { link : option string; caption : option jsstring }.

Record Message := {
  msg_id : option string;
  text : option Text;
  from_me : option bool;
  createdAt : option Z;
  type : option string;
  image : option Image
}.

Record Chat := {
  chat_id : option string;
  name : option string;
  last_message : option Message
}.

(** A message as the gateway lists it:
    [{ id, text?: {body}, from_me, timestamp, type, image?: {link, caption} }].
    [r_text] is [None] when [message.text] is falsy; a text without a body,
    or a text that is no object, has the body [BodyNullish]. *)
Record RemoteMessage := {
  r_id : string;
  r_text : option Text;
  r_from_me : bool;
  r_timestamp : Z;
  r_type : string;
  r_image : option Image
}.

(** Bodies of the responses the component reads. *)
Inductive Data :=
| ChatsData (chats : list Chat)
| MessagesData (messages : list RemoteMessage)
| SentData (messageId : string)
| TokenData (access_token refresh_token : string)
| OtherData.

(** A Firestore document: field name to value. *)
Abbreviation Doc := (gmap string string).

Inductive Error :=
| JsError (message : string)      (* new Error(message) *)
| TypeError (message : string)    (* raised by the runtime *)
| SyntaxError (message : string)  (* raised by response.json() *)
| Rejection (reason : string).    (* a promise rejected by the environment *)

(** ** Requests and their replies *)

Inductive Body :=
| NoBody
| JsonBody (chatId : string) (txt : jsstring)
| ForwardBody (chatId messageId : option string)
| FormBody (params : list (string * string))
| QueryParams (params : list (string * string)).

Inductive Request :=
| Http (method url : string) (headers : list (string * string)) (payload : Body)
| GetDoc (collection docId : string)
| SetDoc (collection docId : string) (fields : list (string * string)) (merge : bool)
| Timeout (ms : nat).

(** How a promise settles.  The [data] of a response is [None] for a body
    that is empty or that [response.json()] cannot read. *)
Inductive Reply :=
| Rejected (e : Error)
| Response (ok : bool) (data : option Data)
| Snapshot (d : option Doc)       (* getDoc *)
| Resolved.                       (* setDoc, a timer *)

(** ** State *)

(** The [useState] cells of [Main]. *)
Record UI := {
  chats : list Chat;
  selectedChatId : option string;
  messages : list Message;
  newMessage : jsstring;
  isLoading : bool;
  selectedIcon : option string;
  selectedMessage : option Message
}.

Record GhlConfig := {
  ghl_id : option string;
  ghl_secret : option string;
  refresh_token : option string
}.

(** The [let] bindings of [Main] that its functions assign.  Every render
    binds them anew, to the initial values; the functions defined in a render
    read and assign the bindings of that render. *)
Record Vars := {
  WHAPI_ACCESS_TOKEN : option string;
  companyId : string;
  ghlConfig : GhlConfig
}.

Inductive Effect :=
| SetChats (cs : list Chat)
| SetSelectedChatId (i : option string)
| SetMessages (ms : list Message)
| SetNewMessage (s : jsstring)
| SetLoading (b : bool)
| SetSelectedIcon (i : option string)
| SetSelectedMessage (m : option Message)
| AssignCompanyId (i : string)
| AssignGhlConfig (g : GhlConfig)
| AssignToken (t : option string)
| ConsoleLog (what : string)
| ConsoleError (what : string) (e : option Error).

Inductive Event :=
| Eff (e : Effect)
| Req (rq : Request).

(** [vars] holds the bindings of the first render, those that [ghlToken],
    called by the effect of that render, and the functions it calls assign
    and read.  [rerendered] tells whether a state cell has changed since, so
    that the functions in use are those of a later render. *)
Record World := {
  ui : UI;
  vars : Vars;
  store : gmap string Doc;       (* the collection 'companies' *)
  trace : list Event;
  rerendered : bool
}.

(** ** Asynchronous functions as trees

    A function body is a tree of synchronous effects and suspension points.
    [Await] is an [await] on a promise the environment settles; [Spawn] is a
    call of an async function whose promise is dropped. *)

Inductive Completion (A : Type) :=
| Normal (a : A)                  (* the end of the block is reached *)
| Returned                        (* return; *)
| Thrown (e : Error).             (* throw e; *)
Arguments Normal {A} a.
Arguments Returned {A}.
Arguments Thrown {A} e.

Inductive Task (A : Type) : Type :=
| Done (c : Completion A)
| Do (e : Effect) (k : Task A)
| Get (k : Vars -> Task A)
| Await (rq : Request) (k : Reply -> Task A)
| Spawn (child : Task unit) (k : Task A).
Arguments Done {A} c.
Arguments Do {A} e k.
Arguments Get {A} k.
Arguments Await {A} rq k.
Arguments Spawn {A} child k.

Fixpoint on_completion {A B : Type} (t : Task A) (f : Completion A -> Task B) : Task B :=
  match t with
  | Done c => f c
  | Do e k => Do e (on_completion k f)
  | Get k => Get (fun v => on_completion (k v) f)
  | Await rq k => Await rq (fun r => on_completion (k r) f)
  | Spawn child k => Spawn child (on_completion k f)
  end.

Definition ret {A : Type} (a : A) : Task A := Done (Normal a).
Definition throw {A : Type} (e : Error) : Task A := Done (Thrown e).
Definition return_ {A : Type} : Task A := Done Returned.

Definition bind {A B : Type} (t : Task A) (f : A -> Task B) : Task B :=
  on_completion t (fun c =>
    match c with
    | Normal a => f a
    | Returned => Done Returned
    | Thrown e => Done (Thrown e)
    end).

Declare Scope task_scope.
Delimit Scope task_scope with task.
Bind Scope task_scope with Task.
Notation "'let*' x ':=' t 'in' k" := (bind t (fun x => k))
  (at level 10, x pattern, t at level 100, k at level 200) : task_scope.
Notation "t ;; k" := (bind t (fun _ => k))
  (at level 100, k at level 200, only parsing, right associativity) : task_scope.
Open Scope task_scope.

(** [try { t } catch (e) { h e }] *)
Definition try_catch {A : Type} (t : Task A) (h : Error -> Task A) : Task A :=
  on_completion t (fun c =>
    match c with
    | Thrown e => h e
    | _ => Done c
    end).

(** [try { t } finally { fin }]: the completion of [t] stands unless [fin]
    completes abruptly. *)
Definition try_finally {A : Type} (t : Task A) (fin : Task unit) : Task A :=
  on_completion t (fun c =>
    on_completion fin (fun c' =>
      match c' with
      | Normal _ => Done c
      | Returned => Done Returned
      | Thrown e => Done (Thrown e)
      end)).

(** [await f()] for an async function [f] of this file: its [return] ends the
    callee only, its exception is raised in the caller. *)
Definition call {A : Type} (f : Task A) : Task unit :=
  on_completion f (fun c =>
    match c with
    | Thrown e => Done (Thrown e)
    | _ => Done (Normal tt)
    end).

Definition perform (e : Effect) : Task unit := Do e (ret tt).

(** [await p] for a promise [p] of the environment. *)
Definition await (rq : Request) : Task Reply :=
  Await rq (fun r =>
    match r with
    | Rejected e => throw e
    | _ => ret r
    end).

(** [await fetch(url, init)]: resolves with a response for every status. *)
Definition fetch (rq : Request) : Task (bool * option Data) :=
  let* r := await rq in
  match r with
  | Response ok d => ret (ok, d)
  | _ => throw (TypeError "Failed to fetch")
  end.

(** [await response.json()]. *)
Definition json (d : option Data) : Task Data :=
  match d with
  | Some x => ret x
  | None => throw (SyntaxError "Unexpected end of JSON input")
  end.

(** [await axios.request(options)]: rejects unless the status is 2xx, and
    resolves with a response whose [data] may be empty. *)
Definition axios_request (rq : Request) : Task (option Data) :=
  let* r := await rq in
  match r with
  | Response true d => ret d
  | Response false _ => throw (JsError "Request failed with status code")
  | _ => throw (TypeError "Network Error")
  end.

(** ** Running a task *)

Record Config := {
  world : World;
  pending : list (Request * (Reply -> Task unit))
}.

Definition set_store (f : gmap string Doc -> gmap string Doc) (w : World) : World :=
  {| ui := ui w; vars := vars w; store := f (store w); trace := trace w;
     rerendered := rerendered w |}.

Definition record (ev : Event) (w : World) : World :=
  {| ui := ui w; vars := vars w; store := store w; trace := trace w ++ [ev];
     rerendered := rerendered w |}.

(** Whether a call of a state setter makes React render again: always for a
    new array or object, and for the other cells when the value is not the
    one held ([Object.is]). *)
Definition changes (e : Effect) (u : UI) : bool :=
  match e with
  | SetChats _ | SetMessages _ => true
  | SetSelectedChatId i => negb (bool_decide (i = selectedChatId u))
  | SetNewMessage s => negb (bool_decide (s = newMessage u))
  | SetLoading b => negb (bool_decide (b = isLoading u))
  | SetSelectedIcon i => negb (bool_decide (i = selectedIcon u))
  | SetSelectedMessage m =>
      match m, selectedMessage u with
      | None, None => false
      | _, _ => true
      end
  | _ => false
  end.

(** A state setter replaces its cell, an assignment its binding; the console
    changes nothing. *)
Definition ui_after (e : Effect) (u : UI) : UI :=
  match e with
  | SetChats cs =>
      {| chats := cs; selectedChatId := selectedChatId u; messages := messages u;
         newMessage := newMessage u; isLoading := isLoading u;
         selectedIcon := selectedIcon u; selectedMessage := selectedMessage u |}
  | SetSelectedChatId i =>
      {| chats := chats u; selectedChatId := i; messages := messages u;
         newMessage := newMessage u; isLoading := isLoading u;
         selectedIcon := selectedIcon u; selectedMessage := selectedMessage u |}
  | SetMessages ms =>
      {| chats := chats u; selectedChatId := selectedChatId u; messages := ms;
         newMessage := newMessage u; isLoading := isLoading u;
         selectedIcon := selectedIcon u; selectedMessage := selectedMessage u |}
  | SetNewMessage s =>
      {| chats := chats u; selectedChatId := selectedChatId u; messages := messages u;
         newMessage := s; isLoading := isLoading u;
         selectedIcon := selectedIcon u; selectedMessage := selectedMessage u |}
  | SetLoading b =>
      {| chats := chats u; selectedChatId := selectedChatId u; messages := messages u;
         newMessage := newMessage u; isLoading := b;
         selectedIcon := selectedIcon u; selectedMessage := selectedMessage u |}
  | SetSelectedIcon i =>
      {| chats := chats u; selectedChatId := selectedChatId u; messages := messages u;
         newMessage := newMessage u; isLoading := isLoading u;
         selectedIcon := i; selectedMessage := selectedMessage u |}
  | SetSelectedMessage m =>
      {| chats := chats u; selectedChatId := selectedChatId u; messages := messages u;
         newMessage := newMessage u; isLoading := isLoading u;
         selectedIcon := selectedIcon u; selectedMessage := m |}
  | _ => u
  end.

Definition vars_after (e : Effect) (v : Vars) : Vars :=
  match e with
  | AssignCompanyId i =>
      {| WHAPI_ACCESS_TOKEN := WHAPI_ACCESS_TOKEN v; companyId := i;
         ghlConfig := ghlConfig v |}
  | AssignGhlConfig g =>
      {| WHAPI_ACCESS_TOKEN := WHAPI_ACCESS_TOKEN v; companyId := companyId v;
         ghlConfig := g |}
  | AssignToken t =>
      {| WHAPI_ACCESS_TOKEN := t; companyId := companyId v;
         ghlConfig := ghlConfig v |}
  | _ => v
  end.

Definition apply_effect (e : Effect) (w : World) : World :=
  {| ui := ui_after e (ui w);
     vars := vars_after e (vars w);
     store := store w;
     trace := trace w ++ [Eff e];
     rerendered := rerendered w || changes e (ui w) |}.

(** What the awaited promise settles to.  A timer always fires; Firestore
    answers from the collection, and [setDoc] with [merge] overwrites the
    given fields only; an HTTP promise settles as the network decides. *)
Definition settle (rq : Request) (r : Reply) (w : World) : Reply * World :=
  match rq, r with
  | Timeout _, _ => (Resolved, w)
  | _, Rejected e => (Rejected e, w)
  | GetDoc _ i, _ => (Snapshot (store w !! i), w)
  | SetDoc _ i fields true, _ =>
      (Resolved, set_store (fun s => <[i := list_to_map fields ∪ default ∅ (s !! i)]> s) w)
  | SetDoc _ i fields false, _ =>
      (Resolved, set_store (fun s => <[i := list_to_map fields]> s) w)
  | Http _ _ _ _, Response ok d => (Response ok d, w)
  | Http _ _ _ _, _ => (Rejected (Rejection "network"), w)
  end.

Inductive Outcome (A : Type) :=
| Finished (c : Completion A)
| Suspended (rq : Request) (k : Reply -> Task A).
Arguments Finished {A} c.
Arguments Suspended {A} rq k.

Definition on_world (f : World -> World) (c : Config) : Config :=
  {| world := f (world c); pending := pending c |}.

(** A spawned task that reached an [await] waits in the queue; one that
    finished leaves nothing behind (a rejection of its promise is unhandled). *)
Definition park (o : Outcome unit) (c : Config) : Config :=
  match o with
  | Finished _ => c
  | Suspended rq k => {| world := world c; pending := pending c ++ [(rq, k)] |}
  end.

(** [run t rs c] runs [t] from [c], settling its awaited promises with the
    replies [rs] in order, until it finishes or no reply is left.  Spawned
    tasks run up to their first [await]. *)
Fixpoint run {A : Type} (t : Task A) (rs : list Reply) (c : Config)
  : Outcome A * Config * list Reply :=
  match t with
  | Done r => (Finished r, c, rs)
  | Do e k => run k rs (on_world (apply_effect e) c)
  | Get k => run (k (vars (world c))) rs c
  | Await rq k =>
      let c1 := on_world (record (Req rq)) c in
      match rs with
      | [] => (Suspended rq k, c1, [])
      | r :: rs' =>
          let '(r', w') := settle rq r (world c1) in
          run (k r') rs' {| world := w'; pending := pending c1 |}
      end
  | Spawn child k =>
      let '(o, c1, _) := run child [] c in
      run k rs (park o c1)
  end.

(** ** The functions of [Main] *)

Definition get : Task Vars := Get ret.

(** [await new Promise(resolve => setTimeout(resolve, ms))] *)
Definition sleep (ms : nat) : Task unit :=
  Await (Timeout ms) (fun _ => ret tt).

Definition WHAPI_BASE_URL : string := "https://gate.whapi.cloud".

Definition oauthUrl : string := "https://services.leadconnectorhq.com/oauth/token".

Definition contactsUrl : string := "https://services.leadconnectorhq.com/contacts/".

(** The endpoints of the gateway the component calls. *)
Definition messagesUrl (selectedChatId : option string) : string :=
  WHAPI_BASE_URL ++ "/messages/list/" ++ show selectedChatId.

Definition chatsUrl : string := WHAPI_BASE_URL ++ "/chats".

Definition sendUrl : string := WHAPI_BASE_URL ++ "/messages/send".

Definition forwardUrl : string := WHAPI_BASE_URL ++ "/messages/forward".

Definition initialVars : Vars :=
  {| WHAPI_ACCESS_TOKEN := Some "";
     companyId := "014";
     ghlConfig := {| ghl_id := Some ""; ghl_secret := Some ""; refresh_token := Some "" |} |}.

Definition initialUI : UI :=
  {| chats := []; selectedChatId := None; messages := []; newMessage := [];
     isLoading := false; selectedIcon := None; selectedMessage := None |}.

(** [auth.currentUser] *)
Record User := { email : option string }.

(** [user?.email] *)
Definition email_of (user : option User) : option string :=
  match user with
  | Some u => email u
  | None => None
  end.

(** [user?.email === s] *)
Definition email_is (user : option User) (s : string) : bool :=
  match email_of user with
  | Some e => String.eqb e s
  | None => false
  end.

(** [a === b] for two optional identifiers, one of which is a string. *)
Definition strict_eq (a b : option string) : bool :=
  match a, b with
  | Some x, Some y => String.eqb x y
  | _, _ => false
  end.

Definition bearer (t : option string) : string * string :=
  ("Authorization", "Bearer " ++ show t).

(** [data.chats] and [data.messages], on which [.map] is then called. *)
Definition data_chats (d : Data) : Task (list Chat) :=
  match d with
  | ChatsData cs => ret cs
  | _ => throw (TypeError "Cannot read properties of undefined (reading 'map')")
  end.

Definition data_messages (d : Data) : Task (list RemoteMessage) :=
  match d with
  | MessagesData ms => ret ms
  | _ => throw (TypeError "Cannot read properties of undefined (reading 'map')")
  end.

(** [(chat) => ({ ...chat })] *)
Definition copyChat (chat : Chat) : Chat :=
  {| chat_id := chat_id chat; name := name chat; last_message := last_message chat |}.

(** The mapping applied to every listed message (lines 239-248, 297-304 and
    482-491). *)
Definition toMessage (message : RemoteMessage) : Message :=
  {| msg_id := Some (r_id message);
     text := Some {| body := match r_text message with
                             | Some t => body t
                             | None => BodyString []
                             end |};
     from_me := Some (r_from_me message);
     createdAt := Some (r_timestamp message);
     type := Some (r_type message);
     image := match r_image message with
              | Some i => Some i
              | None => None
              end |}.

(** Lines 117-138. *)
Definition searchConversation (accessToken : string) : Task unit :=
  try_catch
    (let locationId := "q0PjrC2cUCmoTcOudutf" in
     let options :=
       Http "GET" contactsUrl
            [("Authorization", "Bearer " ++ accessToken); ("Version", "2021-07-28")]
            (QueryParams [("locationId", locationId)]) in
     let* response := axios_request options in
     perform (ConsoleLog "Search Conversation Response:"))
    (fun error => perform (ConsoleError "Error searching conversation:" (Some error))).

(** Lines 173-205: the fetch of the chat list on load, a single attempt. *)
Definition fetchChatsWithRetry : Task unit :=
  try_finally
    (try_catch
       (perform (SetLoading true) ;;
        let* v := get in
        let options :=
          Http "GET" chatsUrl
               [bearer (WHAPI_ACCESS_TOKEN v); ("accept", "application/json")] NoBody in
        let* response_data := axios_request options in
        match response_data with
        | None => throw (JsError "Failed to fetch chats")
        | Some data =>
            perform (ConsoleLog "data") ;;
            let* cs := data_chats data in
            perform (SetChats (map copyChat cs)) ;;
            return_
        end)
       (fun error => perform (ConsoleError "Failed to fetch chats:" (Some error))))
    (perform (SetLoading false)) ;;
  perform (ConsoleError "Failed to fetch chats" None).

(** Lines 141-172. *)
Definition fetchConfigFromDatabase (user : option User) : Task unit :=
  try_catch
    ((if email_is user "admin@beverly.com" then perform (AssignCompanyId "014")
      else if email_is user "admin@billert.com" then perform (AssignCompanyId "011")
      else ret tt) ;;
     let* v := get in
     let* docSnapshot := await (GetDoc "companies" (companyId v)) in
     match docSnapshot with
     | Snapshot None =>
         perform (ConsoleLog "No such document!") ;;
         return_
     | Snapshot (Some data) =>
         perform (AssignGhlConfig {| ghl_id := data !! "ghl_id";
                                     ghl_secret := data !! "ghl_secret";
                                     refresh_token := data !! "refresh_token" |}) ;;
         perform (ConsoleLog "Document data:") ;;
         perform (AssignToken (data !! "whapiToken")) ;;
         call fetchChatsWithRetry
     | _ => throw (TypeError "docSnapshot.exists is not a function")
     end)
    (fun error =>
       perform (ConsoleError "Error fetching config:" (Some error)) ;;
       throw error).

(** Lines 74-113.  A token response that lacks the two tokens makes [setDoc]
    throw on the undefined field values. *)
Definition ghlToken (user : option User) : Task unit :=
  try_catch
    (call (fetchConfigFromDatabase user) ;;
     let* v := get in
     let g := ghlConfig v in
     perform (ConsoleLog "ghl_id:") ;;
     perform (ConsoleLog "ghl_secret:") ;;
     perform (ConsoleLog "refresh_token:") ;;
     let encodedParams :=
       [("client_id", show (ghl_id g));
        ("client_secret", show (ghl_secret g));
        ("grant_type", "refresh_token");
        ("refresh_token", show (refresh_token g));
        ("user_type", "Location")] in
     let options :=
       Http "POST" oauthUrl
            [("Content-Type", "application/x-www-form-urlencoded");
             ("Accept", "application/json")]
            (FormBody encodedParams) in
     let* newTokenData := axios_request options in
     match newTokenData with
     | Some (TokenData access refresh) =>
         await (SetDoc "companies" "014"
                  [("access_token", access); ("refresh_token", refresh)]
                  true) ;;
         perform (ConsoleLog "Token generation and update complete") ;;
         call (searchConversation access)
     | _ => throw (TypeError "Unsupported field value: undefined")
     end)
    (fun error =>
       perform (ConsoleError "Error generating and updating token:" (Some error)) ;;
       throw error).

(** Lines 209-213. *)
Definition handleIconClick (iconId : string) : Task unit :=
  perform (SetMessages []) ;;
  perform (SetSelectedIcon (Some iconId)).

(** [let retryCount = 0; while (retryCount < maxRetries) { body }].  The
    iteration hands over the value it leaves in [retryCount]; [fuel] bounds
    the unfolding and is [maxRetries] at every use. *)
Fixpoint while_retry (fuel maxRetries : nat) (body : nat -> Task nat)
    (retryCount : nat) : Task unit :=
  if (retryCount <? maxRetries)%nat then
    match fuel with
    | 0 => ret tt
    | S fuel' =>
        let* retryCount' := body retryCount in
        while_retry fuel' maxRetries body retryCount'
    end
  else ret tt.

Definition messagesRequest (selectedChatId token : option string) : Request :=
  Http "GET" (messagesUrl selectedChatId) [bearer token] NoBody.

Definition chatsRequest (token : option string) : Request :=
  Http "GET" chatsUrl [bearer token] NoBody.

(** One iteration of the loop of lines 224-263 and of lines 467-506, which
    differ in their constants only. *)
Definition fetchMessagesAttempt (retryDelay : nat) (selectedChatId : option string)
    (retryCount : nat) : Task nat :=
  try_finally
    (try_catch
       (perform (SetLoading true) ;;
        let* v := get in
        let* (ok, d) := fetch (messagesRequest selectedChatId (WHAPI_ACCESS_TOKEN v)) in
        (if negb ok then throw (JsError "Failed to fetch messages") else ret tt) ;;
        let* data := json d in
        perform (ConsoleLog "Messages:") ;;
        let* ms := data_messages data in
        perform (SetMessages (map toMessage ms)) ;;
        return_)
       (fun error =>
          perform (ConsoleError "Failed to fetch messages:" (Some error)) ;;
          let retryCount := S retryCount in
          sleep retryDelay ;;
          ret retryCount))
    (perform (SetLoading false)).

Definition retryFetchMessages (maxRetries retryDelay : nat)
    (selectedChatId : option string) : Task unit :=
  if negb (truthy_id selectedChatId) then return_ else
  while_retry maxRetries maxRetries
    (fetchMessagesAttempt retryDelay selectedChatId) 0 ;;
  perform (ConsoleError
             ("Failed to fetch messages after " ++ pretty maxRetries ++ " retries") None).

(** One iteration of the loop of lines 421-454.  [fetchMessagesWithRetry] is
    called without [await]. *)
Definition fetchChatsAttempt (retryDelay : nat) (fetchMessagesWithRetry : Task unit)
    (retryCount : nat) : Task nat :=
  try_finally
    (try_catch
       (perform (SetLoading true) ;;
        let* v := get in
        let* (ok, d) := fetch (chatsRequest (WHAPI_ACCESS_TOKEN v)) in
        (if negb ok then throw (JsError "Failed to fetch chats") else ret tt) ;;
        let* data := json d in
        perform (ConsoleLog "data") ;;
        let* cs := data_chats data in
        perform (SetChats (map copyChat cs)) ;;
        Spawn fetchMessagesWithRetry
        return_)
       (fun error =>
          perform (ConsoleError "Failed to fetch chats:" (Some error)) ;;
          let retryCount := S retryCount in
          sleep retryDelay ;;
          ret retryCount))
    (perform (SetLoading false)).

Definition retryFetchChats (maxRetries retryDelay : nat)
    (fetchMessagesWithRetry : Task unit) : Task unit :=
  while_retry maxRetries maxRetries
    (fetchChatsAttempt retryDelay fetchMessagesWithRetry) 0 ;;
  perform (ConsoleError
             ("Failed to fetch chats after " ++ pretty maxRetries ++ " retries") None).

(** Lines 214-270.  The handlers read the state cells of the render [u] they
    were created in. *)
Module WhatsappClick.
Definition maxRetries : nat := 20.
Definition retryDelay : nat := 1.
Definition fetchMessagesWithRetry (u : UI) : Task unit :=
  retryFetchMessages maxRetries retryDelay (selectedChatId u).
End WhatsappClick.

Definition handleWhatsappClick (u : UI) (iconId : string) : Task unit :=
  perform (SetSelectedIcon (Some iconId)) ;;
  Spawn (WhatsappClick.fetchMessagesWithRetry u) (ret tt).

(** Lines 273-318: the effect that runs when [selectedChatId] changes. *)
Module SelectedChatEffect.
Definition fetchMessagesWithRetry (selectedChatId : option string) : Task unit :=
  if negb (truthy_id selectedChatId) then return_ else
  try_finally
    (try_catch
       (perform (SetLoading true) ;;
        let* v := get in
        let options :=
          Http "GET" (messagesUrl selectedChatId)
               [bearer (WHAPI_ACCESS_TOKEN v); ("accept", "application/json")] NoBody in
        let* response_data := axios_request options in
        match response_data with
        | None => throw (JsError "Failed to fetch messages")
        | Some data =>
            perform (ConsoleLog "Messages:") ;;
            let* ms := data_messages data in
            perform (SetMessages (map toMessage ms)) ;;
            return_
        end)
       (fun error => perform (ConsoleError "Failed to fetch messages:" (Some error))))
    (perform (SetLoading false)) ;;
  perform (ConsoleError "Failed to fetch messages" None).
End SelectedChatEffect.

(** Lines 319-358. *)
Definition sendRequest (selectedChatId token : option string) (txt : jsstring) : Request :=
  Http "POST" sendUrl
       [("Content-Type", "application/json"); bearer token]
       (JsonBody (show selectedChatId) txt).

Definition newMsg (data : Data) (newMessage : jsstring) : Message :=
  {| msg_id := match data with SentData i => Some i | _ => None end;
     text := Some {| body := BodyString newMessage |};
     type := Some "text";
     from_me := Some true;
     createdAt := Some 0%Z;
     image := None |}.

Definition withLastMessage (chat : Chat) (m : Message) : Chat :=
  {| chat_id := chat_id chat; name := name chat; last_message := Some m |}.

Definition handleSendMessage (u : UI) : Task unit :=
  if negb (truthy_text (trim (newMessage u))) || negb (truthy_id (selectedChatId u))
  then return_ else
  try_catch
    (let* v := get in
     let* (ok, d) :=
       fetch (sendRequest (selectedChatId u) (WHAPI_ACCESS_TOKEN v) (newMessage u)) in
     (if negb ok then throw (JsError "Failed to send message") else ret tt) ;;
     let* data := json d in
     let newMsg := newMsg data (newMessage u) in
     perform (SetMessages (messages u ++ [newMsg])) ;;
     perform (SetChats (map (fun chat =>
                if strict_eq (chat_id chat) (selectedChatId u)
                then withLastMessage chat newMsg
                else chat) (chats u))) ;;
     perform (SetNewMessage []))
    (fun error => perform (ConsoleError "Failed to send message:" (Some error))).

(** Lines 366-412: the context menu of a bubble.  [contextMenu] tells whether
    the document has an element with that id; hiding and placing it touch the
    document only. *)
Definition handleForwardMessage (message : Message) (chatId : option string) : Task unit :=
  try_catch
    (let* v := get in
     let* response :=
       axios_request (Http "POST" forwardUrl [bearer (WHAPI_ACCESS_TOKEN v)]
                        (ForwardBody chatId (msg_id message))) in
     ret tt)
    (fun error => perform (ConsoleError "Failed to forward message:" (Some error))).

Definition handleForwardToChat (u : UI) (chatId : option string) : Task unit :=
  match selectedMessage u with
  | Some m => Spawn (handleForwardMessage m chatId) (ret tt)
  | None => ret tt
  end.

Definition showContextMenu (u : UI) (contextMenu : bool) (message : Message) : Task unit :=
  if contextMenu then
    perform (SetSelectedMessage (Some message)) ;;
    handleForwardToChat u (msg_id message)
  else ret tt.

Definition handleContextMenu (u : UI) (contextMenu : bool) (message : Message) : Task unit :=
  showContextMenu u contextMenu message.

(** Lines 413-512. *)
Module Refresh.
Definition maxRetries : nat := 10.
Definition retryDelay : nat := 1000.
Definition fetchMessagesWithRetry (u : UI) : Task unit :=
  retryFetchMessages maxRetries retryDelay (selectedChatId u).
Definition fetchChatsWithRetry (u : UI) : Task unit :=
  retryFetchChats maxRetries retryDelay (fetchMessagesWithRetry u).
End Refresh.

Definition handleRefreshClick (u : UI) : Task unit :=
  perform (ConsoleLog "Refresh clicked") ;;
  Spawn (Refresh.fetchChatsWithRetry u) (ret tt).

(** Lines 565-583: the width of a bubble in pixels, or what
    [Math.min(NaN, 350)] gives. *)
Inductive Width :=
| Px (n : Z)
| NotANumber.

(** [None] when the expression [message.text!.body!.length] throws: [text]
    or its [body] is [undefined] or [null]. *)
Definition bubbleWidth (message : Message) : option Width :=
  if strict_eq (type message) (Some "image") then Some (Px 320)
  else match text message with
       | Some t =>
           match body t with
           | BodyString s => Some (Px (Z.min (Z.of_nat (length s) * 15) 350))
           | BodyNullish => None
           | BodyOther _ (Some n) => Some (Px (Z.min (n * 15) 350))
           | BodyOther _ None => Some NotANumber
           end
       | None => None
       end.

(** Lines 533-537: the label and the preview of a chat entry. *)
Definition chatLabel (chat : Chat) : option string :=
  match name chat with Some n => Some n | None => chat_id chat end.

Definition truthy_body (b : JsBody) : bool :=
  match b with
  | BodyString s => truthy_text s
  | BodyNullish => false
  | BodyOther truthy _ => truthy
  end.

Definition chatPreview (chat : Chat) : option JsBody :=
  match last_message chat with
  | None => None
  | Some m =>
      match text m with
      | Some t => if truthy_body (body t) then Some (body t)
                  else Some (BodyString (js "No Messages"))
      | None => Some (BodyString (js "No Messages"))
      end
  end.

(** ** The event loop

    The component reacts to user events and to the settling of the promises
    its tasks wait for.  A handler runs up to its first [await]; what remains
    of it waits in [pending].  A handler reads the state cells and the
    bindings of the latest render.  [None] stands for both [null] and
    [undefined]: selecting an entry without id while none is selected starts
    an effect that returns at once, which is left out.  A click on the text of
    a text message reaches the handler of the text and then that of the bubble
    around it, both of the same render. *)

Inductive UIEvent :=
| Mount (user : option User)      (* the effects of the first render *)
| SelectChat (i : nat)            (* click on the i-th entry of the chat list *)
| IconClick (iconId : string)
| WhatsappClick (iconId : string)
| RefreshClick                    (* handleRefreshClick *)
| Input (s : jsstring)            (* onChange of the textarea *)
| SendMessage                     (* the Send button, or Enter *)
| ContextMenu (i : nat) (contextMenu : bool)
                                  (* click on the bubble of the i-th message,
                                     beside its text *)
| TextClick (i : nat) (contextMenu : bool)
                                  (* click on the text of the i-th message *)
| Settle (i : nat) (r : Reply).   (* the i-th awaited promise settles *)

Definition spawn (t : Task unit) (c : Config) : Config :=
  let '(o, c1, _) := run t [] c in park o c1.

(** A function of a later render: it reads the bindings of its own render,
    which hold the initial values, since no function in use after the first
    render assigns them ([later_functions_assign_nothing] below). *)
Fixpoint later_render {A : Type} (t : Task A) : Task A :=
  match t with
  | Done r => Done r
  | Do e k => Do e (later_render k)
  | Get k => later_render (k initialVars)
  | Await rq k => Await rq (fun r => later_render (k r))
  | Spawn child k => Spawn (later_render child) (later_render k)
  end.

(** The function [t] as the render current in [w] defines it. *)
Definition in_render (w : World) {A : Type} (t : Task A) : Task A :=
  if rerendered w then later_render t else t.

Definition dispatch (ev : UIEvent) (c : Config) : Config :=
  let u := ui (world c) in
  match ev with
  | Mount user =>
      spawn (SelectedChatEffect.fetchMessagesWithRetry (selectedChatId u))
        (spawn (ghlToken user) c)
  | SelectChat i =>
      match chats u !! i with
      | Some chat =>
          if bool_decide (chat_id chat = selectedChatId u) then c
          else
            let c1 := on_world (apply_effect (SetSelectedChatId (chat_id chat))) c in
            spawn (in_render (world c1)
                     (SelectedChatEffect.fetchMessagesWithRetry (chat_id chat))) c1
      | None => c
      end
  | IconClick iconId => spawn (in_render (world c) (handleIconClick iconId)) c
  | WhatsappClick iconId => spawn (in_render (world c) (handleWhatsappClick u iconId)) c
  | RefreshClick => spawn (in_render (world c) (handleRefreshClick u)) c
  | Input s => on_world (apply_effect (SetNewMessage s)) c
  | SendMessage => spawn (in_render (world c) (handleSendMessage u)) c
  | ContextMenu i contextMenu =>
      match messages u !! i with
      | Some message =>
          spawn (in_render (world c) (handleContextMenu u contextMenu message)) c
      | None => c
      end
  | TextClick i contextMenu =>
      match messages u !! i with
      | Some message =>
          if strict_eq (type message) (Some "text") then
            let handler := in_render (world c) (handleContextMenu u contextMenu message) in
            spawn handler (spawn handler c)
          else c
      | None => c
      end
  | Settle i r =>
      match pending c !! i with
      | Some (rq, k) =>
          let '(r', w') := settle rq r (world c) in
          spawn (k r') {| world := w'; pending := delete i (pending c) |}
      | None => c
      end
  end.

Definition initialConfig (s : gmap string Doc) : Config :=
  {| world := {| ui := initialUI; vars := initialVars; store := s; trace := [];
                 rerendered := false |};
     pending := [] |}.

Definition dispatch_all (evs : list UIEvent) (c : Config) : Config :=
  fold_left (fun c ev => dispatch ev c) evs c.

(** ** Observations on traces *)

(** The world after a sequence of events that leave the store alone. *)
Definition replay1 (w : World) (ev : Event) : World :=
  match ev with
  | Eff e => apply_effect e w
  | Req rq => record (Req rq) w
  end.

Definition replay (evs : list Event) (w : World) : World := fold_left replay1 evs w.

Definition is_request (url : string) (ev : Event) : bool :=
  match ev with
  | Req (Http _ url' _ _) => String.eqb url' url
  | _ => false
  end.

(** How many requests were issued to [url]. *)
Definition attempts (url : string) (evs : list Event) : nat :=
  length (List.filter (is_request url) evs).

Definition is_http (ev : Event) : bool :=
  match ev with
  | Req (Http _ _ _ _) => true
  | _ => false
  end.

(** Console output and timers. *)
Definition quiet (ev : Event) : bool :=
  match ev with
  | Eff (ConsoleLog _) | Eff (ConsoleError _ _) | Req (Timeout _) => true
  | _ => false
  end.

(** The outcome of an attempt, read off the reply to its request. *)
Definition chats_of (r : Reply) : option (list Chat) :=
  match r with
  | Response true (Some (ChatsData cs)) => Some cs
  | _ => None
  end.

Definition messages_of (r : Reply) : option (list RemoteMessage) :=
  match r with
  | Response true (Some (MessagesData ms)) => Some ms
  | _ => None
  end.

(** The replies that settle a run of failed attempts: every failed request is
    followed by the firing of the retry timer. *)
Definition failures (rs : list Reply) : list Reply :=
  flat_map (fun r => [r; Resolved]) rs.

(** * Vocabulary of the properties

    Observations on traces and states, and the instances the properties are
    checked on. *)

Open Scope list_scope.

(** Assignments to the [let] bindings. *)
Definition assigns (ev : Event) : bool :=
  match ev with
  | Eff (AssignCompanyId _) | Eff (AssignGhlConfig _) | Eff (AssignToken _) => true
  | _ => false
  end.

(** The events of one failed attempt on the request [rq]: the flag is raised,
    the request is issued, the failure is logged and the delay awaited, and
    the flag is lowered. *)
Definition failed_attempt (rq : Request) (evs : list Event) : Prop :=
  exists mid, forallb quiet mid = true /\
    evs = Eff (SetLoading true) :: Req rq :: mid ++ [Eff (SetLoading false)].

(** What [fetchMessagesWithRetry] does when it is called without [await]:
    nothing without a selected chat, else it raises the flag, issues its first
    request and waits. *)
Definition child_events (maxRetries : nat) (sel token : option string) : list Event :=
  if truthy_id sel then
    match maxRetries with
    | 0 => [Eff (ConsoleError
                  ("Failed to fetch messages after " ++ pretty 0 ++ " retries")%string None)]
    | S _ => [Eff (SetLoading true); Req (messagesRequest sel token)]
    end
  else [].

(** The value of a state cell after the events [evs]: the last value set, or
    the initial one. *)
Definition chats_after (evs : list Event) (init : list Chat) : list Chat :=
  fold_left (fun acc ev => match ev with Eff (SetChats cs) => cs | _ => acc end) evs init.

Definition messages_after (evs : list Event) (init : list Message) : list Message :=
  fold_left (fun acc ev => match ev with Eff (SetMessages ms) => ms | _ => acc end) evs init.

Definition loading_after (evs : list Event) (init : bool) : bool :=
  fold_left (fun acc ev => match ev with Eff (SetLoading b) => b | _ => acc end) evs init.

(** Events that write neither list. *)
Definition keeps_lists (ev : Event) : bool :=
  match ev with
  | Eff (SetChats _) | Eff (SetMessages _) => false
  | _ => true
  end.

(** The events of the attempt that succeeds. *)
Definition messages_success (sel token : option string) (ms : list RemoteMessage) : list Event :=
  [Eff (SetLoading true);
   Req (messagesRequest sel token);
   Eff (ConsoleLog "Messages:");
   Eff (SetMessages (map toMessage ms));
   Eff (SetLoading false)].

(** The same for the chat list, where [fetchMessagesWithRetry] is started
    before the attempt ends. *)
Definition chats_success (token : option string) (cs : list Chat)
    (maxRetries' : nat) (sel : option string) : list Event :=
  [Eff (SetLoading true);
   Req (chatsRequest token);
   Eff (ConsoleLog "data");
   Eff (SetChats (map copyChat cs))]
  ++ child_events maxRetries' sel token
  ++ [Eff (SetLoading false)].

(** The message logged after the loop when every attempt failed. *)
Definition gave_up (what : string) (N : nat) : Event :=
  Eff (ConsoleError ("Failed to fetch " ++ what ++ " after " ++ pretty N ++ " retries")%string None).

(** [setLoading(false)] *)
Definition lowers (ev : Event) : bool :=
  match ev with
  | Eff (SetLoading false) => true
  | _ => false
  end.

(** The flag is lowered only once no attempt is to come. *)
Definition loading_held (evs : list Event) : Prop :=
  forall pre post,
    evs = pre ++ Eff (SetLoading false) :: post ->
    forallb (fun ev => negb (is_http ev)) post = true.

(** The events of one attempt on [url]: the flag is raised, the request
    issued, nothing lowers the flag or repeats the request until the attempt
    ends, and there the flag is lowered. *)
Definition attempt_block (url : string) (evs : list Event) : Prop :=
  exists m h b mid,
    evs = Eff (SetLoading true) :: Req (Http m url h b) :: mid ++ [Eff (SetLoading false)] /\
    forallb (fun ev => negb (lowers ev) && negb (is_request url ev)) mid = true.

(** A trace made of [n] attempts, each with the flag up, then console output. *)
Definition loading_per_attempt (url : string) (n : nat) (evs : list Event) : Prop :=
  exists blocks log,
    evs = concat blocks ++ log /\
    length blocks = n /\
    Forall (attempt_block url) blocks /\
    forallb quiet log = true.

(** How a run of a retrying fetch ends: with a success before the retries
    are used up, or with the last failure. *)
Definition ends_run {A} (N : nat) (result : Reply -> option A) (fails tail : list Reply) : Prop :=
  (length fails < N /\ exists good, tail = [good] /\ is_Some (result good)) \/
  (length fails = N /\ tail = []).

(** A conversation is selected in an otherwise fresh component. *)
Definition selected (id : string) : UI :=
  {| chats := []; selectedChatId := Some id; messages := []; newMessage := [];
     isLoading := false; selectedIcon := None; selectedMessage := None |}.

(** The trace a run leaves. *)
Definition events_of {A} (x : Outcome A * Config * list Reply) : list Event :=
  trace (world (snd (fst x))).

(** Two conversations and a message. *)
Definition chatA : Chat := {| chat_id := Some "A"; name := Some "Alice"; last_message := None |}.
Definition chatB : Chat := {| chat_id := Some "B"; name := Some "Bob"; last_message := None |}.

Definition hello : Message :=
  {| msg_id := Some "m1"; text := Some {| body := BodyString (js "hi") |}; from_me := Some false;
     createdAt := Some 1%Z; type := Some "text"; image := None |}.

(** Conversation A is open and shows one message. *)
Definition showingA : Config :=
  {| world := {| ui := {| chats := [chatA; chatB]; selectedChatId := Some "A";
                          messages := [hello]; newMessage := [];
                          isLoading := false; selectedIcon := None;
                          selectedMessage := None |};
                 vars := initialVars; store := ∅; trace := []; rerendered := true |};
     pending := [] |}.

(** The company whose document [fetchConfigFromDatabase] reads. *)
Definition resolvedCompanyId (user : option User) (v : Vars) : string :=
  if email_is user "admin@beverly.com" then "014"
  else if email_is user "admin@billert.com" then "011"
  else companyId v.

(** The credentials a document holds. *)
Definition configOf (data : Doc) : GhlConfig :=
  {| ghl_id := data !! "ghl_id";
     ghl_secret := data !! "ghl_secret";
     refresh_token := data !! "refresh_token" |}.

(** Requests to the document store. *)
Definition is_firestore (ev : Event) : bool :=
  match ev with
  | Req (GetDoc _ _) | Req (SetDoc _ _ _ _) => true
  | _ => false
  end.

(** The token pair of a successful exchange. *)
Definition tokens_of (r : Reply) : option (string * string) :=
  match r with
  | Response true (Some (TokenData access refresh)) => Some (access, refresh)
  | _ => None
  end.

(** What the two catch blocks log. *)
Definition token_error (e : Error) : Event :=
  Eff (ConsoleError "Error generating and updating token:" (Some e)).

Definition search_error (e : Error) : Event :=
  Eff (ConsoleError "Error searching conversation:" (Some e)).

(** The replies the loader consumes: the document read and, when the
    document exists, the reply to the request of the chat list. *)
Definition loaderReplies (document : option Doc) (rchats : Reply) : list Reply :=
  match document with
  | Some _ => [Resolved; rchats]
  | None => [Resolved]
  end.

(** What the response mapping is to store for a listed message, field by
    field: the listed values, [timestamp] under the name [createdAt], and the
    empty string as body when the message has no text. *)
Definition stored_as (m : Message) (message : RemoteMessage) : Prop :=
  msg_id m = Some (r_id message) /\
  text m = Some {| body := match r_text message with
                           | Some t => body t
                           | None => BodyString []
                           end |} /\
  from_me m = Some (r_from_me message) /\
  createdAt m = Some (r_timestamp message) /\
  type m = Some (r_type message) /\
  image m = r_image message.

(** The user of company '011', and a store with the documents of both
    companies. *)
Definition billert : User := {| email := Some "admin@billert.com" |}.

Definition tenantDoc (n : string) : Doc :=
  list_to_map [("ghl_id", "id-" ++ n); ("ghl_secret", "secret-" ++ n);
               ("refresh_token", "refresh-" ++ n); ("whapiToken", "whapi-" ++ n)]%string.

Definition twoTenants : gmap string Doc :=
  <["011" := tenantDoc "011"]> (<["014" := tenantDoc "014"]> ∅).

(** The refresh for the user of company '011', every request answered well. *)
Definition billertRefresh : Outcome unit * Config * list Reply :=
  run (ghlToken (Some billert))
      [Resolved;
       Response true (Some (ChatsData []));
       Response true (Some (TokenData "access-new" "refresh-new"));
       Resolved;
       Response true None]
      (initialConfig twoTenants).

(** A field of the document of a company. *)
Definition field (s : gmap string Doc) (company key : string) : option string :=
  match s !! company with
  | Some d => d !! key
  | None => None
  end.

(** A stored message whose [text] is defined, and one whose body moreover
    is a string. *)
Definition has_text (m : Message) : Prop := is_Some (text m).

Definition is_string (b : JsBody) : bool :=
  match b with BodyString _ => true | _ => false end.

Definition has_string_body (m : Message) : Prop :=
  exists s, text m = Some {| body := BodyString s |}.

(** Where a stored message comes from: a listed message, or a send. *)
Definition stored_from (m : Message) : Prop :=
  (exists message, m = toMessage message) \/ (exists data s, m = newMsg data s).

(** A listed message that is as the interface [Message] says: its text, if
    it has one, has a string as body.  A reply and an event that carry such
    messages only. *)
Definition listed_ok (message : RemoteMessage) : bool :=
  match r_text message with
  | Some t => is_string (body t)
  | None => true
  end.

Definition reply_listed_ok (r : Reply) : Prop :=
  match r with
  | Response _ (Some (MessagesData ms)) => forallb listed_ok ms = true
  | _ => True
  end.

Definition event_listed_ok (ev : UIEvent) : Prop :=
  match ev with
  | Settle _ r => reply_listed_ok r
  | _ => True
  end.

(** An effect that stores messages with [P] only. *)
Definition effect_ok (P : Message -> Prop) (e : Effect) : Prop :=
  match e with
  | SetMessages ms => Forall P ms
  | _ => True
  end.

(** Every [setMessages] a task can reach stores messages with [P], as long as
    the replies it gets are among [R]. *)
Fixpoint task_ok (P : Message -> Prop) (R : Reply -> Prop) {A : Type} (t : Task A) : Prop :=
  match t with
  | Done _ => True
  | Do e k => effect_ok P e /\ task_ok P R k
  | Get k => forall v, task_ok P R (k v)
  | Await _ k => forall r, R r -> task_ok P R (k r)
  | Spawn child k => task_ok P R child /\ task_ok P R k
  end.

(** The invariant of the event loop: the stored messages have [P], and so
    will those that the waiting tasks store. *)
Definition inv (P : Message -> Prop) (R : Reply -> Prop) (c : Config) : Prop :=
  Forall P (messages (ui (world c))) /\
  Forall (fun p => forall r, R r -> task_ok P R (snd p r)) (pending c).

(** A listed message whose text has no body, and the events that bring it
    into the thread: the load for company '014', the click on the first
    conversation, and the two replies. *)
Definition remoteBodiless : RemoteMessage :=
  {| r_id := "m3"; r_text := Some {| body := BodyNullish |}; r_from_me := false;
     r_timestamp := 3%Z; r_type := "text"; r_image := None |}.

Definition listingBodiless : list UIEvent :=
  [Mount None; Settle 0 Resolved;
   Settle 0 (Response true (Some (ChatsData [chatA])));
   SelectChat 0;
   Settle 1 (Response true (Some (MessagesData [remoteBodiless])))].

(** A request that does not get through, and a listed message. *)
Definition offline : Reply := Rejected (Rejection "offline").

Definition remoteHello : RemoteMessage :=
  {| r_id := "m1"; r_text := Some {| body := BodyString (js "hi") |}; r_from_me := false;
     r_timestamp := 1%Z; r_type := "text"; r_image := None |}.

(** The events that bring it into the thread of conversation A. *)
Definition listingHello : list UIEvent :=
  [Mount None; Settle 0 Resolved;
   Settle 0 (Response true (Some (ChatsData [chatA])));
   SelectChat 0;
   Settle 1 (Response true (Some (MessagesData [remoteHello])))].

(** Conversation A is selected and a text is typed. *)
Definition typing (s : jsstring) : Config :=
  {| world := {| ui := {| chats := [chatA; chatB]; selectedChatId := Some "A";
                          messages := [hello]; newMessage := s;
                          isLoading := false; selectedIcon := None;
                          selectedMessage := None |};
                 vars := initialVars; store := ∅; trace := []; rerendered := true |};
     pending := [] |}.

(** ** Further observations *)

(** Line 565: the thread shows [messages.slice().reverse()]. *)
Definition renderedMessages (u : UI) : list Message := rev (messages u).

(** The time of a message, 0 for one that has none. *)
Definition stamp (m : Message) : Z := default 0%Z (createdAt m).

(** The milliseconds of the timers a trace starts. *)
Definition waited (evs : list Event) : nat :=
  fold_right (fun ev acc => match ev with Req (Timeout ms) => ms + acc | _ => acc end) 0 evs.

(** A run that has not thrown: it ended by [return] or at the end of the
    body, or it waits. *)
Definition not_thrown {A} (o : Outcome A) : Prop :=
  match o with
  | Finished (Thrown _) => False
  | _ => True
  end.

(** What one iteration may do: issue its request once, wait at most one
    delay, and either leave the function, wait, or count one more retry. *)
Definition one_attempt (url : string) (retryDelay rc : nat)
    (c : Config) (x : Outcome nat * Config * list Reply) : Prop :=
  exists evs,
    events_of x = trace (world c) ++ evs /\
    attempts url evs = 1 /\
    waited evs <= retryDelay /\
    match fst (fst x) with
    | Finished (Normal rc') => rc' = S rc
    | Finished Returned => True
    | Finished (Thrown _) => False
    | Suspended _ _ => True
    end.

(** A run that issued at most [n] requests to [url], started timers of at most
    [n] delays in all, and has not thrown. *)
Definition bounded_run {A} (url : string) (retryDelay n : nat)
    (c : Config) (x : Outcome A * Config * list Reply) : Prop :=
  exists evs,
    events_of x = trace (world c) ++ evs /\
    attempts url evs <= n /\
    waited evs <= n * retryDelay /\
    not_thrown (fst (fst x)).

(** The request of the effect on [selectedChatId]. *)
Definition effectRequest (sel token : option string) : Request :=
  Http "GET" (messagesUrl sel) [bearer token; ("accept", "application/json")] NoBody.

(** Listed newest first, shown oldest first. *)
Definition newest_first (ms : list RemoteMessage) : Prop :=
  StronglySorted (fun a b => (r_timestamp b <= r_timestamp a)%Z) ms.

Definition oldest_first (ms : list Message) : Prop :=
  StronglySorted (fun a b => (stamp a <= stamp b)%Z) ms.

(** What [handleSendMessage] writes to the chat list. *)
Definition withPreview (sel : option string) (m : Message) (cs : list Chat) : list Chat :=
  map (fun chat => if strict_eq (chat_id chat) sel then withLastMessage chat m else chat) cs.

(** What a run leaves behind when it stops: the task it suspended at waits
    in the queue. *)
Definition finish (x : Outcome unit * Config * list Reply) : Config :=
  let '(o, c, _) := x in park o c.

(** The reply a continuation is resumed with. *)
Definition settled (rq : Request) (r : Reply) (w : World) : Reply := fst (settle rq r w).

(** The continuation of the fetch started by the effect on [selectedChatId]:
    a list of messages replaces the thread, anything else is logged; the flag
    is lowered in both cases. *)
Definition answers_messages (k : Reply -> Task unit) : Prop :=
  (forall ms c0,
      spawn (k (Response true (Some (MessagesData ms)))) c0 =
      on_world (replay [Eff (ConsoleLog "Messages:");
                        Eff (SetMessages (map toMessage ms));
                        Eff (SetLoading false)]) c0) /\
  (forall r c0,
      messages_of r = None ->
      exists mid,
        forallb quiet mid = true /\
        spawn (k r) c0 =
        on_world (replay (mid ++ [Eff (SetLoading false);
                                  Eff (ConsoleError "Failed to fetch messages" None)])) c0).

(** The bindings that the functions of the render current in [w] read. *)
Definition bindings (w : World) : Vars :=
  if rerendered w then initialVars else vars w.

(** No binding is assigned on any path of the task. *)
Fixpoint assigns_nothing {A : Type} (t : Task A) : Prop :=
  match t with
  | Done _ => True
  | Do e k =>
      match e with
      | AssignCompanyId _ | AssignGhlConfig _ | AssignToken _ => False
      | _ => assigns_nothing k
      end
  | Get k => forall v, assigns_nothing (k v)
  | Await _ k => forall r, assigns_nothing (k r)
  | Spawn child k => assigns_nothing child /\ assigns_nothing k
  end.

(** Until a state cell changes, the cells hold their initial values. *)
Definition first_render_inv (c : Config) : Prop :=
  rerendered (world c) = false -> ui (world c) = initialUI.

(** The load for the user of company '011', answered with one conversation. *)
Definition loadOfBillert : list UIEvent :=
  [Mount (Some billert); Settle 0 Resolved;
   Settle 0 (Response true (Some (ChatsData [chatA])))].

(** The continuation of a send started in the render [u]: it writes the
    lists of that render. *)
Definition answers_send (u : UI) (id : string) (k : Reply -> Task unit) : Prop :=
  forall data c0,
    spawn (k (Response true (Some data))) c0 =
    on_world (replay
      [Eff (SetMessages (messages u ++ [newMsg data (newMessage u)]));
       Eff (SetChats (withPreview (Some id) (newMsg data (newMessage u)) (chats u)));
       Eff (SetNewMessage [])]) c0.

(** The request of the token exchange made with the credentials [g], and the
    request of the chat list on load. *)
Definition exchangeRequest (g : GhlConfig) : Request :=
  Http "POST" oauthUrl
       [("Content-Type", "application/x-www-form-urlencoded");
        ("Accept", "application/json")]
       (FormBody [("client_id", show (ghl_id g));
                  ("client_secret", show (ghl_secret g));
                  ("grant_type", "refresh_token");
                  ("refresh_token", show (refresh_token g));
                  ("user_type", "Location")]).

Definition loadRequest (token : option string) : Request :=
  Http "GET" chatsUrl [bearer token; ("accept", "application/json")] NoBody.


(** A later message of the same conversation, a conversation that is
    selected but not listed, and the component after a first click on the
    message shown. *)
Definition remoteLater : RemoteMessage :=
  {| r_id := "m2"; r_text := Some {| body := BodyString (js "there") |}; r_from_me := false;
     r_timestamp := 2%Z; r_type := "text"; r_image := None |}.

Definition typingUnlisted : Config :=
  {| world := {| ui := {| chats := [chatA; chatB]; selectedChatId := Some "C";
                          messages := []; newMessage := js "hi";
                          isLoading := false; selectedIcon := None;
                          selectedMessage := None |};
                 vars := initialVars; store := ∅; trace := []; rerendered := true |};
     pending := [] |}.

Definition helloClicked : Config := dispatch (ContextMenu 0 true) showingA.

(** The loading flag and the tasks that raise it.  [flag_wp t owed Q]: on
    every path of [t], whatever the replies, [Q] holds of the completion and
    of whether the task still has to lower the flag it raised; [owed] tells
    whether it has to when [t] starts.  A task started without [await] starts
    with nothing to lower and must end so. *)
Fixpoint flag_wp {A : Type} (t : Task A) (owed : bool)
    (Q : Completion A -> bool -> Prop) : Prop :=
  match t with
  | Done r => Q r owed
  | Do e k => flag_wp k (match e with SetLoading b => b | _ => owed end) Q
  | Get k => forall v, flag_wp (k v) owed Q
  | Await _ k => forall r, flag_wp (k r) owed Q
  | Spawn child k => flag_wp child false (fun _ o => o = false) /\ flag_wp k owed Q
  end.

(** Nothing is left to lower. *)
Definition settled_flag {A : Type} : Completion A -> bool -> Prop := fun _ o => o = false.

(** A task that lowers the flag whenever it raised it. *)
Definition neutral {A : Type} (t : Task A) : Prop := flag_wp t false settled_flag.

(** A waiting task that leaves the flag as its own business requires, and
    one that has raised the flag and will lower it. *)
Definition waits_neutral (e : Request * (Reply -> Task unit)) : Prop :=
  forall r, flag_wp (snd e r) false settled_flag.

Definition waits_to_lower (e : Request * (Reply -> Task unit)) : Prop :=
  forall r, flag_wp (snd e r) true settled_flag.

(** While the flag is up, a task that will lower it is waiting. *)
Definition flag_inv (c : Config) : Prop :=
  Forall waits_neutral (pending c) /\
  (isLoading (ui (world c)) = true -> Exists waits_to_lower (pending c)).

(** * Properties *)

(** ** Running composed tasks *)

Lemma run_on_completion {A : Type} (t : Task A) :
  forall {B : Type} (f : Completion A -> Task B) rs c,
    run (on_completion t f) rs c =
    match run t rs c with
    | (Finished r, c', rs') => run (f r) rs' c'
    | (Suspended rq k, c', rs') =>
        (Suspended rq (fun r => on_completion (k r) f), c', rs')
    end.
Proof.
  induction t as [A r | A e k IH | A k IH | A rq k IH | A child _ k IH];
    intros B f rs c; simpl.
  - reflexivity.
  - apply IH.
  - apply IH.
  - destruct rs as [| r rs]; [reflexivity |].
    destruct (settle rq r _) as [r' w']. apply IH.
  - destruct (run child [] c) as [[o c1] ?]. apply IH.
Qed.

Lemma run_bind {A B : Type} (t : Task A) (f : A -> Task B) rs c :
  run (bind t f) rs c =
  match run t rs c with
  | (Finished (Normal a), c', rs') => run (f a) rs' c'
  | (Finished Returned, c', rs') => (Finished Returned, c', rs')
  | (Finished (Thrown e), c', rs') => (Finished (Thrown e), c', rs')
  | (Suspended rq k, c', rs') => (Suspended rq (fun r => bind (k r) f), c', rs')
  end.
Proof.
  unfold bind. rewrite run_on_completion.
  destruct (run t rs c) as [[[[a | | e] | rq k] c'] rs']; reflexivity.
Qed.

(** ** Replaying a trace *)

Lemma replay_app evs1 evs2 w : replay (evs1 ++ evs2) w = replay evs2 (replay evs1 w).
Proof. apply fold_left_app. Qed.

Lemma trace_apply_effect e w : trace (apply_effect e w) = trace w ++ [Eff e].
Proof. destruct e; reflexivity. Qed.

Lemma store_apply_effect e w : store (apply_effect e w) = store w.
Proof. destruct e; reflexivity. Qed.

Lemma trace_replay evs w : trace (replay evs w) = trace w ++ evs.
Proof.
  revert w. induction evs as [| ev evs IH]; intros w; simpl.
  - symmetry. apply app_nil_r.
  - unfold replay in IH. rewrite IH. destruct ev as [e | rq]; simpl.
    + rewrite <- app_assoc. reflexivity.
    + rewrite <- app_assoc. reflexivity.
Qed.

Lemma on_world_replay_app evs1 evs2 c :
  on_world (replay evs2) (on_world (replay evs1) c) = on_world (replay (evs1 ++ evs2)) c.
Proof. unfold on_world; simpl. rewrite replay_app. reflexivity. Qed.

Lemma attempts_app url evs1 evs2 :
  attempts url (evs1 ++ evs2) = attempts url evs1 + attempts url evs2.
Proof. unfold attempts. rewrite List.filter_app, length_app. reflexivity. Qed.

(** ** [trim] *)

Lemma trimStart_nil s : trimStart s = [] <-> forallb isWhiteSpace s = true.
Proof.
  induction s as [| c s IH]; simpl; [tauto |].
  destruct (isWhiteSpace c); simpl; [exact IH |].
  split; discriminate.
Qed.

Lemma forallb_trimStart s :
  forallb isWhiteSpace (trimStart s) = true -> forallb isWhiteSpace s = true.
Proof.
  induction s as [| c s IH]; simpl; [tauto |].
  destruct (isWhiteSpace c) eqn:E; simpl; [exact IH |].
  rewrite E. discriminate.
Qed.

(** [trim] leaves nothing exactly when the text is empty or whitespace only. *)
Lemma trim_nil s : trim s = [] <-> forallb isWhiteSpace s = true.
Proof.
  unfold trim, trimEnd. split.
  - intros H. apply forallb_trimStart.
    apply (f_equal (@rev N)) in H. rewrite rev_involutive in H. simpl in H.
    apply trimStart_nil in H.
    rewrite forallb_forall in H. apply forallb_forall. intros x Hx.
    apply H. apply in_rev. rewrite rev_involutive. exact Hx.
  - intros H. apply trimStart_nil in H. rewrite H. reflexivity.
Qed.

(** ** The retry loop *)

Lemma vars_replay evs w :
  forallb (fun ev => negb (assigns ev)) evs = true -> vars (replay evs w) = vars w.
Proof.
  revert w. induction evs as [| ev evs IH]; intros w H; simpl in *; [reflexivity |].
  apply andb_prop in H as [Hev Hevs]. unfold replay in IH. rewrite IH by exact Hevs.
  destruct ev as [[] | rq]; simpl in *; try reflexivity; discriminate.
Qed.

Lemma quiet_not_assigns mid :
  forallb quiet mid = true -> forallb (fun ev => negb (assigns ev)) mid = true.
Proof.
  induction mid as [| ev mid IH]; simpl; [reflexivity |].
  intros H. apply andb_prop in H as [Hev Hmid]. rewrite IH by exact Hmid.
  destruct ev as [[] | []]; simpl in *; try reflexivity; discriminate.
Qed.

Lemma failed_attempt_vars rq evs w : failed_attempt rq evs -> vars (replay evs w) = vars w.
Proof.
  intros (mid & Hq & ->). apply vars_replay. simpl.
  rewrite forallb_app, (quiet_not_assigns _ Hq). reflexivity.
Qed.

Section RetryLoop.
Variable maxRetries : nat.
Variable body : nat -> Task nat.
Variable request : Vars -> Request.
Variable failing : Reply -> Prop.

Hypothesis body_fails : forall rc r t rs c,
  failing r ->
  exists evs, failed_attempt (request (vars (world c))) evs /\
    run (body rc) (r :: t :: rs) c = (Finished (Normal (S rc)), on_world (replay evs) c, rs).

Lemma while_retry_exit fuel rc rs c :
  maxRetries <= rc ->
  run (while_retry fuel maxRetries body rc) rs c = (Finished (Normal tt), c, rs).
Proof.
  intros H. destruct fuel; simpl;
    (destruct (Nat.ltb_spec rc maxRetries) as [Hlt | _]; [lia | reflexivity]).
Qed.

Lemma while_retry_step fuel rc :
  rc < maxRetries ->
  while_retry (S fuel) maxRetries body rc =
  bind (body rc) (fun rc' => while_retry fuel maxRetries body rc').
Proof.
  intros H. simpl. destruct (Nat.ltb_spec rc maxRetries) as [_ | Hge]; [reflexivity | lia].
Qed.

(** A run of failed attempts unfolds the loop once per failure. *)
Lemma while_retry_failures fails : forall fuel rc rs c,
  Forall failing fails ->
  length fails <= fuel ->
  rc + length fails <= maxRetries ->
  exists blocks,
    length blocks = length fails /\
    Forall (failed_attempt (request (vars (world c)))) blocks /\
    run (while_retry fuel maxRetries body rc) (failures fails ++ rs) c =
    run (while_retry (fuel - length fails) maxRetries body (rc + length fails)) rs
        (on_world (replay (concat blocks)) c).
Proof.
  induction fails as [| r fails IH]; intros fuel rc rs c Hf Hfuel Hrc; simpl in *.
  - exists []. rewrite Nat.sub_0_r, Nat.add_0_r. destruct c as [[] ?]. auto.
  - inversion Hf as [| ? ? Hr Hfs]; subst.
    destruct fuel as [| fuel]; [lia |].
    rewrite while_retry_step by lia. rewrite run_bind.
    destruct (body_fails rc r Resolved (failures fails ++ rs) c Hr) as (evs & Hev & ->).
    destruct (IH fuel (S rc) rs (on_world (replay evs) c) Hfs) as (blocks & Hlen & Hall & ->);
      [lia | lia |].
    exists (evs :: blocks). simpl in *. rewrite (failed_attempt_vars _ _ _ Hev) in Hall.
    split; [lia |]. split; [constructor; assumption |].
    rewrite on_world_replay_app. rewrite Nat.add_succ_r. reflexivity.
Qed.
End RetryLoop.

Tactic Notation "failed_with" uconstr(mid) :=
  refine (ex_intro _ (Eff (SetLoading true) :: Req _ :: mid ++ [Eff (SetLoading false)]) _);
  split; [refine (ex_intro _ mid _); split; reflexivity | reflexivity].

(** A body of the wrong shape is logged before [.map] fails on it; every
    other failure is raised before anything is logged. *)
Ltac failed_attempt_cases :=
  match goal with
  | |- context [Response true (Some _)] =>
      failed_with [Eff (ConsoleLog _); Eff (ConsoleError _ _); Req (Timeout _)]
  | _ => failed_with [Eff (ConsoleError _ _); Req (Timeout _)]
  end.

Lemma fetchMessagesAttempt_fails retryDelay sel rc r t rs c :
  messages_of r = None ->
  exists evs,
    failed_attempt (messagesRequest sel (WHAPI_ACCESS_TOKEN (vars (world c)))) evs /\
    run (fetchMessagesAttempt retryDelay sel rc) (r :: t :: rs) c =
    (Finished (Normal (S rc)), on_world (replay evs) c, rs).
Proof.
  intros H.
  destruct r as [e | [] [[] |] | d |]; try discriminate H; failed_attempt_cases.
Qed.

Lemma fetchChatsAttempt_fails retryDelay child rc r t rs c :
  chats_of r = None ->
  exists evs,
    failed_attempt (chatsRequest (WHAPI_ACCESS_TOKEN (vars (world c)))) evs /\
    run (fetchChatsAttempt retryDelay child rc) (r :: t :: rs) c =
    (Finished (Normal (S rc)), on_world (replay evs) c, rs).
Proof.
  intros H.
  destruct r as [e | [] [[] |] | d |]; try discriminate H; failed_attempt_cases.
Qed.

Lemma fetchMessagesAttempt_succeeds retryDelay sel rc ms rs c :
  run (fetchMessagesAttempt retryDelay sel rc)
      (Response true (Some (MessagesData ms)) :: rs) c =
  (Finished Returned,
   on_world (replay [Eff (SetLoading true);
                     Req (messagesRequest sel (WHAPI_ACCESS_TOKEN (vars (world c))));
                     Eff (ConsoleLog "Messages:");
                     Eff (SetMessages (map toMessage ms));
                     Eff (SetLoading false)]) c,
   rs).
Proof. reflexivity. Qed.

Lemma retryFetchMessages_start maxRetries retryDelay sel c :
  exists o,
    run (retryFetchMessages maxRetries retryDelay sel) [] c =
    (o, on_world (replay (child_events maxRetries sel (WHAPI_ACCESS_TOKEN (vars (world c))))) c, [])
    /\ length (pending (park o c)) <= S (length (pending c)).
Proof.
  unfold retryFetchMessages, child_events.
  destruct (truthy_id sel); simpl.
  - destruct maxRetries as [| n]; simpl.
    + eexists. split; [reflexivity |]. simpl. lia.
    + eexists. split; [reflexivity |]. simpl. rewrite length_app. simpl. lia.
  - eexists. split; [destruct c as [[] ?]; reflexivity |]. simpl. lia.
Qed.

Lemma fetchChatsAttempt_succeeds retryDelay maxRetries' retryDelay' sel rc cs rs c :
  exists c',
    run (fetchChatsAttempt retryDelay (retryFetchMessages maxRetries' retryDelay' sel) rc)
        (Response true (Some (ChatsData cs)) :: rs) c =
    (Finished Returned, c', rs) /\
    world c' =
    replay ([Eff (SetLoading true);
             Req (chatsRequest (WHAPI_ACCESS_TOKEN (vars (world c))));
             Eff (ConsoleLog "data");
             Eff (SetChats (map copyChat cs))]
            ++ child_events maxRetries' sel (WHAPI_ACCESS_TOKEN (vars (world c)))
            ++ [Eff (SetLoading false)]) (world c).
Proof.
  unfold fetchChatsAttempt, retryFetchMessages, child_events.
  destruct (truthy_id sel); simpl.
  - destruct maxRetries' as [| n]; simpl; eexists; split; reflexivity.
  - eexists; split; reflexivity.
Qed.

(** ** Reading the state off a trace *)

Lemma chats_replay evs w : chats (ui (replay evs w)) = chats_after evs (chats (ui w)).
Proof.
  revert w. induction evs as [| ev evs IH]; intros w; [reflexivity |].
  simpl. unfold replay, chats_after in *. rewrite IH. f_equal.
  destruct ev as [[] | ?]; reflexivity.
Qed.

Lemma messages_replay evs w : messages (ui (replay evs w)) = messages_after evs (messages (ui w)).
Proof.
  revert w. induction evs as [| ev evs IH]; intros w; [reflexivity |].
  simpl. unfold replay, messages_after in *. rewrite IH. f_equal.
  destruct ev as [[] | ?]; reflexivity.
Qed.

Lemma loading_replay evs w : isLoading (ui (replay evs w)) = loading_after evs (isLoading (ui w)).
Proof.
  revert w. induction evs as [| ev evs IH]; intros w; [reflexivity |].
  simpl. unfold replay, loading_after in *. rewrite IH. f_equal.
  destruct ev as [[] | ?]; reflexivity.
Qed.

Lemma chats_after_keeps evs init :
  forallb keeps_lists evs = true -> chats_after evs init = init.
Proof.
  revert init. induction evs as [| ev evs IH]; intros init H; simpl in *; [reflexivity |].
  apply andb_prop in H as [Hev Hevs]. unfold chats_after in *. rewrite IH by exact Hevs.
  destruct ev as [[] | ?]; try reflexivity; discriminate.
Qed.

Lemma messages_after_keeps evs init :
  forallb keeps_lists evs = true -> messages_after evs init = init.
Proof.
  revert init. induction evs as [| ev evs IH]; intros init H; simpl in *; [reflexivity |].
  apply andb_prop in H as [Hev Hevs]. unfold messages_after in *. rewrite IH by exact Hevs.
  destruct ev as [[] | ?]; try reflexivity; discriminate.
Qed.

Lemma quiet_keeps_lists mid : forallb quiet mid = true -> forallb keeps_lists mid = true.
Proof.
  induction mid as [| ev mid IH]; simpl; [reflexivity |].
  intros H. apply andb_prop in H as [Hev Hmid]. rewrite IH by exact Hmid.
  destruct ev as [[] | []]; simpl in *; try reflexivity; discriminate.
Qed.

Lemma failed_attempt_keeps_lists rq evs :
  failed_attempt rq evs -> forallb keeps_lists evs = true.
Proof.
  intros (mid & Hq & ->). simpl. rewrite forallb_app, (quiet_keeps_lists _ Hq). reflexivity.
Qed.

Lemma failed_attempts_keep_lists rq blocks :
  Forall (failed_attempt rq) blocks -> forallb keeps_lists (concat blocks) = true.
Proof.
  induction 1 as [| evs blocks Hev _ IH]; simpl; [reflexivity |].
  rewrite forallb_app, IH, (failed_attempt_keeps_lists _ _ Hev). reflexivity.
Qed.

Lemma quiet_attempts url mid : forallb quiet mid = true -> attempts url mid = 0.
Proof.
  induction mid as [| ev mid IH]; simpl; [reflexivity |].
  intros H. apply andb_prop in H as [Hev Hmid]. unfold attempts in *. simpl.
  destruct ev as [[] | []]; simpl in *; try discriminate; auto.
Qed.

(** A failed attempt issues its request once. *)
Lemma failed_attempt_attempts m url h b evs :
  failed_attempt (Http m url h b) evs -> attempts url evs = 1.
Proof.
  intros (mid & Hq & ->).
  change (attempts url ([Eff (SetLoading true)] ++ [Req (Http m url h b)] ++ mid
                        ++ [Eff (SetLoading false)]) = 1).
  rewrite !attempts_app, (quiet_attempts _ _ Hq).
  unfold attempts; simpl. rewrite String.eqb_refl. reflexivity.
Qed.

Lemma failed_attempts_attempts m url h b blocks :
  Forall (failed_attempt (Http m url h b)) blocks -> attempts url (concat blocks) = length blocks.
Proof.
  induction 1 as [| evs blocks Hev _ IH]; simpl; [reflexivity |].
  rewrite attempts_app, IH, (failed_attempt_attempts _ _ _ _ _ Hev). reflexivity.
Qed.

Lemma chats_of_Some r cs : chats_of r = Some cs -> r = Response true (Some (ChatsData cs)).
Proof. destruct r as [e | [] [[] |] | d |]; simpl; congruence. Qed.

Lemma messages_of_Some r ms :
  messages_of r = Some ms -> r = Response true (Some (MessagesData ms)).
Proof. destruct r as [e | [] [[] |] | d |]; simpl; congruence. Qed.

Lemma child_events_keeps_lists n sel tok : forallb keeps_lists (child_events n sel tok) = true.
Proof. unfold child_events. destruct (truthy_id sel), n; reflexivity. Qed.

Lemma child_events_attempts n sel tok : attempts chatsUrl (child_events n sel tok) = 0.
Proof. unfold child_events. destruct (truthy_id sel), n; reflexivity. Qed.

Lemma failed_attempts_vars rq blocks w :
  Forall (failed_attempt rq) blocks -> vars (replay (concat blocks) w) = vars w.
Proof.
  intros H. revert w. induction H as [| evs blocks Hev _ IH]; intros w; simpl; [reflexivity |].
  rewrite replay_app, IH. apply (failed_attempt_vars _ _ _ Hev).
Qed.

(** The two loops after a run of failures. *)
Lemma retryFetchMessages_failures N retryDelay sel fails rs c :
  truthy_id sel = true ->
  Forall (fun r => messages_of r = None) fails ->
  length fails <= N ->
  exists blocks,
    length blocks = length fails /\
    Forall (failed_attempt (messagesRequest sel (WHAPI_ACCESS_TOKEN (vars (world c))))) blocks /\
    run (retryFetchMessages N retryDelay sel) (failures fails ++ rs) c =
    run (while_retry (N - length fails) N (fetchMessagesAttempt retryDelay sel) (length fails) ;;
         perform (ConsoleError
                    ("Failed to fetch messages after " ++ pretty N ++ " retries")%string None))
        rs (on_world (replay (concat blocks)) c).
Proof.
  intros Hsel Hf Hlen. unfold retryFetchMessages. rewrite Hsel. simpl negb. cbv iota.
  destruct (while_retry_failures N (fetchMessagesAttempt retryDelay sel)
              (fun v => messagesRequest sel (WHAPI_ACCESS_TOKEN v))
              (fun r => messages_of r = None)
              (fetchMessagesAttempt_fails retryDelay sel)
              fails N 0 rs c Hf Hlen) as (blocks & Hb & Hall & Heq); [simpl; lia |].
  exists blocks. split; [exact Hb |]. split; [exact Hall |].
  rewrite !run_bind, Heq. reflexivity.
Qed.

Lemma retryFetchChats_failures N retryDelay child fails rs c :
  Forall (fun r => chats_of r = None) fails ->
  length fails <= N ->
  exists blocks,
    length blocks = length fails /\
    Forall (failed_attempt (chatsRequest (WHAPI_ACCESS_TOKEN (vars (world c))))) blocks /\
    run (retryFetchChats N retryDelay child) (failures fails ++ rs) c =
    run (while_retry (N - length fails) N (fetchChatsAttempt retryDelay child) (length fails) ;;
         perform (ConsoleError
                    ("Failed to fetch chats after " ++ pretty N ++ " retries")%string None))
        rs (on_world (replay (concat blocks)) c).
Proof.
  intros Hf Hlen. unfold retryFetchChats.
  destruct (while_retry_failures N (fetchChatsAttempt retryDelay child)
              (fun v => chatsRequest (WHAPI_ACCESS_TOKEN v))
              (fun r => chats_of r = None)
              (fetchChatsAttempt_fails retryDelay child)
              fails N 0 rs c Hf Hlen) as (blocks & Hb & Hall & Heq); [simpl; lia |].
  exists blocks. split; [exact Hb |]. split; [exact Hall |].
  rewrite !run_bind, Heq. reflexivity.
Qed.

Lemma chats_after_app evs1 evs2 init :
  chats_after (evs1 ++ evs2) init = chats_after evs2 (chats_after evs1 init).
Proof. apply fold_left_app. Qed.

Lemma messages_after_app evs1 evs2 init :
  messages_after (evs1 ++ evs2) init = messages_after evs2 (messages_after evs1 init).
Proof. apply fold_left_app. Qed.

Lemma loading_after_app evs1 evs2 init :
  loading_after (evs1 ++ evs2) init = loading_after evs2 (loading_after evs1 init).
Proof. apply fold_left_app. Qed.

(** The whole run of a loop that succeeds after [length fails] failures. *)
Lemma retryFetchMessages_succeeds N retryDelay sel fails ms rest c :
  truthy_id sel = true ->
  Forall (fun r => messages_of r = None) fails ->
  length fails < N ->
  let token := WHAPI_ACCESS_TOKEN (vars (world c)) in
  exists blocks,
    length blocks = length fails /\
    Forall (failed_attempt (messagesRequest sel token)) blocks /\
    run (retryFetchMessages N retryDelay sel)
        (failures fails ++ Response true (Some (MessagesData ms)) :: rest) c =
    (Finished Returned,
     on_world (replay (concat blocks ++ messages_success sel token ms)) c, rest).
Proof.
  intros Hsel Hf Hlen token.
  destruct (retryFetchMessages_failures N retryDelay sel fails
              (Response true (Some (MessagesData ms)) :: rest) c Hsel Hf)
    as (blocks & Hb & Hall & ->); [lia |].
  exists blocks. split; [exact Hb |]. split; [exact Hall |].
  destruct (N - length fails) as [| fuel] eqn:Hfuel; [lia |].
  rewrite run_bind, while_retry_step, run_bind by lia.
  rewrite fetchMessagesAttempt_succeeds, on_world_replay_app.
  cbn [world on_world]. rewrite (failed_attempts_vars _ _ _ Hall). reflexivity.
Qed.

Lemma retryFetchChats_succeeds N retryDelay maxRetries' retryDelay' sel fails cs rest c :
  Forall (fun r => chats_of r = None) fails ->
  length fails < N ->
  let token := WHAPI_ACCESS_TOKEN (vars (world c)) in
  exists blocks c',
    length blocks = length fails /\
    Forall (failed_attempt (chatsRequest token)) blocks /\
    run (retryFetchChats N retryDelay (retryFetchMessages maxRetries' retryDelay' sel))
        (failures fails ++ Response true (Some (ChatsData cs)) :: rest) c =
    (Finished Returned, c', rest) /\
    world c' = replay (concat blocks ++ chats_success token cs maxRetries' sel) (world c).
Proof.
  intros Hf Hlen token.
  destruct (retryFetchChats_failures N retryDelay
              (retryFetchMessages maxRetries' retryDelay' sel) fails
              (Response true (Some (ChatsData cs)) :: rest) c Hf)
    as (blocks & Hb & Hall & ->); [lia |].
  destruct (N - length fails) as [| fuel] eqn:Hfuel; [lia |].
  rewrite run_bind, while_retry_step, run_bind by lia.
  destruct (fetchChatsAttempt_succeeds retryDelay maxRetries' retryDelay' sel
              (length fails) cs rest (on_world (replay (concat blocks)) c))
    as (c' & -> & Hw).
  change (world (on_world (replay (concat blocks)) c))
    with (replay (concat blocks) (world c)) in Hw.
  rewrite (failed_attempts_vars _ _ _ Hall), <- replay_app in Hw.
  exists blocks, c'. auto.
Qed.

(** The whole run of a loop whose attempts all fail. *)
Lemma retryFetchMessages_gives_up N retryDelay sel fails rest c :
  truthy_id sel = true ->
  Forall (fun r => messages_of r = None) fails ->
  length fails = N ->
  exists blocks,
    length blocks = N /\
    Forall (failed_attempt (messagesRequest sel (WHAPI_ACCESS_TOKEN (vars (world c))))) blocks /\
    run (retryFetchMessages N retryDelay sel) (failures fails ++ rest) c =
    (Finished (Normal tt),
     on_world (replay (concat blocks ++ [gave_up "messages" N])) c, rest).
Proof.
  intros Hsel Hf Hlen.
  destruct (retryFetchMessages_failures N retryDelay sel fails rest c Hsel Hf)
    as (blocks & Hb & Hall & ->); [lia |].
  exists blocks. split; [lia |]. split; [exact Hall |].
  rewrite run_bind, while_retry_exit by lia.
  rewrite <- on_world_replay_app. reflexivity.
Qed.

Lemma retryFetchChats_gives_up N retryDelay child fails rest c :
  Forall (fun r => chats_of r = None) fails ->
  length fails = N ->
  exists blocks,
    length blocks = N /\
    Forall (failed_attempt (chatsRequest (WHAPI_ACCESS_TOKEN (vars (world c))))) blocks /\
    run (retryFetchChats N retryDelay child) (failures fails ++ rest) c =
    (Finished (Normal tt),
     on_world (replay (concat blocks ++ [gave_up "chats" N])) c, rest).
Proof.
  intros Hf Hlen.
  destruct (retryFetchChats_failures N retryDelay child fails rest c Hf)
    as (blocks & Hb & Hall & ->); [lia |].
  exists blocks. split; [lia |]. split; [exact Hall |].
  rewrite run_bind, while_retry_exit by lia.
  rewrite <- on_world_replay_app. reflexivity.
Qed.

Lemma copyChat_same cs : map copyChat cs = cs.
Proof.
  induction cs as [| [i n l] cs IH]; simpl; [reflexivity |]. rewrite IH. reflexivity.
Qed.

Lemma toMessage_stored_as ms : Forall2 stored_as (map toMessage ms) ms.
Proof.
  induction ms as [| message ms IH]; simpl; constructor; [| exact IH].
  unfold stored_as, toMessage. simpl. repeat split. destruct (r_image message); reflexivity.
Qed.

(** C1.  For every maximum retry count N >= 1, when the first N-1 attempts
    fail and the N-th succeeds, the retrying fetch of the chat list and the
    retrying fetch of the message list of a selected conversation issue
    exactly N requests, return at that success without reading a further
    reply, and leave the mapped response in [chats], respectively in
    [messages]: the listed chats, field for field, and for each listed
    message, in order, a message with its id, text, sender flag, time, type
    and image. *)
Theorem retry_fetch_succeeds_at_attempt_N :
  forall (N retryDelay : nat) (fails : list Reply) (good : Reply)
         (rest : list Reply) (c : Config),
    1 <= N ->
    length fails = N - 1 ->
    (forall cs maxRetries' retryDelay' sel,
        Forall (fun r => chats_of r = None) fails ->
        chats_of good = Some cs ->
        exists c' evs,
          run (retryFetchChats N retryDelay (retryFetchMessages maxRetries' retryDelay' sel))
              (failures fails ++ good :: rest) c = (Finished Returned, c', rest) /\
          trace (world c') = trace (world c) ++ evs /\
          attempts chatsUrl evs = N /\
          chats (ui (world c')) = map copyChat cs /\
          chats (ui (world c')) = cs)
    /\
    (forall ms sel,
        truthy_id sel = true ->
        Forall (fun r => messages_of r = None) fails ->
        messages_of good = Some ms ->
        exists c' evs,
          run (retryFetchMessages N retryDelay sel)
              (failures fails ++ good :: rest) c = (Finished Returned, c', rest) /\
          trace (world c') = trace (world c) ++ evs /\
          attempts (messagesUrl sel) evs = N /\
          messages (ui (world c')) = map toMessage ms /\
          Forall2 stored_as (messages (ui (world c'))) ms).
Proof.
  intros N retryDelay fails good rest c HN Hlen. split.
  - intros cs maxRetries' retryDelay' sel Hf Hgood.
    apply chats_of_Some in Hgood as ->.
    destruct (retryFetchChats_succeeds N retryDelay maxRetries' retryDelay' sel
                fails cs rest c Hf) as (blocks & c' & Hb & Hall & -> & Hw); [lia |].
    eexists c', _. split; [reflexivity |].
    rewrite Hw. split; [apply trace_replay |]. split.
    + unfold chats_success. rewrite !attempts_app, child_events_attempts.
      unfold chatsRequest in Hall. rewrite (failed_attempts_attempts _ _ _ _ _ Hall).
      unfold attempts; simpl. lia.
    + assert (Hcs : chats (ui (replay (concat blocks
                                           ++ chats_success (WHAPI_ACCESS_TOKEN (vars (world c)))
                                                cs maxRetries' sel) (world c)))
                    = map copyChat cs).
      { unfold chats_success. rewrite chats_replay, !chats_after_app.
        rewrite (chats_after_keeps (child_events _ _ _)) by apply child_events_keeps_lists.
        reflexivity. }
      rewrite Hcs. split; [reflexivity | apply copyChat_same].
  - intros ms sel Hsel Hf Hgood.
    apply messages_of_Some in Hgood as ->.
    destruct (retryFetchMessages_succeeds N retryDelay sel fails ms rest c Hsel Hf)
      as (blocks & Hb & Hall & ->); [lia |].
    eexists _, _. split; [reflexivity |].
    simpl world. split; [apply trace_replay |]. split.
    + rewrite !attempts_app.
      unfold messagesRequest in Hall. rewrite (failed_attempts_attempts _ _ _ _ _ Hall).
      unfold attempts, messagesRequest; simpl. rewrite String.eqb_refl. simpl. lia.
    + rewrite messages_replay, messages_after_app.
      split; [reflexivity | apply toMessage_stored_as].
Qed.


(** ** The loading flag *)

Lemma quiet_holds url mid :
  forallb quiet mid = true ->
  forallb (fun ev => negb (lowers ev) && negb (is_request url ev)) mid = true.
Proof.
  induction mid as [| ev mid IH]; simpl; [reflexivity |].
  intros H. apply andb_prop in H as [Hev Hmid]. rewrite IH by exact Hmid.
  destruct ev as [[] | []]; simpl in *; try reflexivity; discriminate.
Qed.

Lemma failed_attempt_block m url h b evs :
  failed_attempt (Http m url h b) evs -> attempt_block url evs.
Proof.
  intros (mid & Hq & ->). exists m, h, b, mid. split; [reflexivity |].
  apply quiet_holds, Hq.
Qed.

Lemma failed_attempts_blocks m url h b blocks :
  Forall (failed_attempt (Http m url h b)) blocks -> Forall (attempt_block url) blocks.
Proof.
  induction 1 as [| evs blocks Hev _ IH]; constructor; [| exact IH].
  apply (failed_attempt_block _ _ _ _ _ Hev).
Qed.

Lemma messages_success_block sel token ms :
  attempt_block (messagesUrl sel) (messages_success sel token ms).
Proof.
  exists "GET", [bearer token], NoBody,
    [Eff (ConsoleLog "Messages:"); Eff (SetMessages (map toMessage ms))].
  split; reflexivity.
Qed.

Lemma chats_success_block token cs n sel :
  attempt_block chatsUrl (chats_success token cs n sel).
Proof.
  exists "GET", [bearer token], NoBody,
    ([Eff (ConsoleLog "data"); Eff (SetChats (map copyChat cs))] ++ child_events n sel token).
  split; [reflexivity |].
  unfold child_events. destruct (truthy_id sel), n; reflexivity.
Qed.

Lemma quiet_loading log init : forallb quiet log = true -> loading_after log init = init.
Proof.
  revert init. induction log as [| ev log IH]; intros init H; simpl in *; [reflexivity |].
  apply andb_prop in H as [Hev Hlog]. unfold loading_after in *. rewrite IH by exact Hlog.
  destruct ev as [[] | []]; simpl in *; try reflexivity; discriminate.
Qed.

Lemma attempt_block_loading url evs init : attempt_block url evs -> loading_after evs init = false.
Proof.
  intros (m & h & b & mid & -> & _).
  change (loading_after ((Eff (SetLoading true) :: Req (Http m url h b) :: mid)
                         ++ [Eff (SetLoading false)]) init = false).
  rewrite loading_after_app. reflexivity.
Qed.

(** After at least one attempt the flag is down. *)
Lemma loading_per_attempt_ends_false url n evs init :
  loading_per_attempt url n evs -> 0 < n -> loading_after evs init = false.
Proof.
  intros (blocks & log & -> & Hlen & Hall & Hlog) Hn.
  rewrite loading_after_app, quiet_loading by exact Hlog.
  destruct (exists_last (l := blocks)) as (bs & blk & ->);
    [intros ->; simpl in Hlen; lia |].
  apply Forall_app in Hall as [_ Hblk]. inversion Hblk as [| ? ? Hb _]; subst.
  rewrite concat_app, loading_after_app. simpl. rewrite app_nil_r.
  apply (attempt_block_loading _ _ _ Hb).
Qed.

(** C5, as the code has it.  In every run of a retrying fetch to its end,
    the flag is raised at the start of each attempt and stays up through the
    attempt and the delay after a failure; it is lowered at the end of every
    attempt, also of a failed one that a further attempt follows, and it is
    down when the loop has exited after at least one attempt. *)
Theorem loading_flag_is_held_per_attempt :
  forall (N retryDelay : nat) (fails tail rest : list Reply) (c : Config),
    (forall maxRetries' retryDelay' sel,
        Forall (fun r => chats_of r = None) fails ->
        ends_run N chats_of fails tail ->
        exists o c' evs,
          run (retryFetchChats N retryDelay (retryFetchMessages maxRetries' retryDelay' sel))
              (failures fails ++ tail ++ rest) c = (Finished o, c', rest) /\
          trace (world c') = trace (world c) ++ evs /\
          loading_per_attempt chatsUrl (length fails + length tail) evs /\
          (0 < length fails + length tail -> isLoading (ui (world c')) = false))
    /\
    (forall sel,
        truthy_id sel = true ->
        Forall (fun r => messages_of r = None) fails ->
        ends_run N messages_of fails tail ->
        exists o c' evs,
          run (retryFetchMessages N retryDelay sel)
              (failures fails ++ tail ++ rest) c = (Finished o, c', rest) /\
          trace (world c') = trace (world c) ++ evs /\
          loading_per_attempt (messagesUrl sel) (length fails + length tail) evs /\
          (0 < length fails + length tail -> isLoading (ui (world c')) = false)).
Proof.
  intros N retryDelay fails tail rest c. split.
  - intros maxRetries' retryDelay' sel Hf [(Hlen & good & -> & [cs Hgood]) | (Hlen & ->)].
    + apply chats_of_Some in Hgood as ->.
      destruct (retryFetchChats_succeeds N retryDelay maxRetries' retryDelay' sel
                  fails cs rest c Hf Hlen) as (blocks & c' & Hb & Hall & Hrun & Hw).
      set (token := WHAPI_ACCESS_TOKEN (vars (world c))) in *.
      assert (Hper : loading_per_attempt chatsUrl (length fails + 1)
                       (concat blocks ++ chats_success token cs maxRetries' sel)).
      { exists (blocks ++ [chats_success token cs maxRetries' sel]), [].
        rewrite concat_app, length_app. simpl. rewrite ?app_nil_r.
        split; [reflexivity |]. split; [lia |]. split; [| reflexivity].
        apply Forall_app. split; [apply (failed_attempts_blocks _ _ _ _ _ Hall) |].
        constructor; [apply chats_success_block | constructor]. }
      exists Returned, c', (concat blocks ++ chats_success token cs maxRetries' sel).
      split; [exact Hrun |]. rewrite Hw. split; [apply trace_replay |].
      split; [exact Hper |]. intros Hpos. rewrite loading_replay.
      apply (loading_per_attempt_ends_false _ _ _ _ Hper Hpos).
    + destruct (retryFetchChats_gives_up N retryDelay
                  (retryFetchMessages maxRetries' retryDelay' sel) fails rest c Hf Hlen)
        as (blocks & Hb & Hall & Hrun).
      assert (Hper : loading_per_attempt chatsUrl (length fails + 0)
                       (concat blocks ++ [gave_up "chats" N])).
      { exists blocks, [gave_up "chats" N]. split; [reflexivity |]. split; [lia |].
        split; [apply (failed_attempts_blocks _ _ _ _ _ Hall) | reflexivity]. }
      eexists _, _, _. split; [exact Hrun |]. simpl world.
      split; [apply trace_replay |]. split; [exact Hper |]. intros Hpos.
      rewrite loading_replay. apply (loading_per_attempt_ends_false _ _ _ _ Hper Hpos).
  - intros sel Hsel Hf [(Hlen & good & -> & [ms Hgood]) | (Hlen & ->)].
    + apply messages_of_Some in Hgood as ->.
      destruct (retryFetchMessages_succeeds N retryDelay sel fails ms rest c Hsel Hf Hlen)
        as (blocks & Hb & Hall & Hrun).
      set (token := WHAPI_ACCESS_TOKEN (vars (world c))) in *.
      assert (Hper : loading_per_attempt (messagesUrl sel) (length fails + 1)
                       (concat blocks ++ messages_success sel token ms)).
      { exists (blocks ++ [messages_success sel token ms]), [].
        rewrite concat_app, length_app. simpl. rewrite ?app_nil_r.
        split; [reflexivity |]. split; [lia |]. split; [| reflexivity].
        apply Forall_app. split; [apply (failed_attempts_blocks _ _ _ _ _ Hall) |].
        constructor; [apply messages_success_block | constructor]. }
      eexists _, _, _. split; [exact Hrun |]. simpl world.
      split; [apply trace_replay |]. split; [exact Hper |]. intros Hpos.
      rewrite loading_replay. apply (loading_per_attempt_ends_false _ _ _ _ Hper Hpos).
    + destruct (retryFetchMessages_gives_up N retryDelay sel fails rest c Hsel Hf Hlen)
        as (blocks & Hb & Hall & Hrun).
      assert (Hper : loading_per_attempt (messagesUrl sel) (length fails + 0)
                       (concat blocks ++ [gave_up "messages" N])).
      { exists blocks, [gave_up "messages" N]. split; [reflexivity |]. split; [lia |].
        split; [apply (failed_attempts_blocks _ _ _ _ _ Hall) | reflexivity]. }
      eexists _, _, _. split; [exact Hrun |]. simpl world.
      split; [apply trace_replay |]. split; [exact Hper |]. intros Hpos.
      rewrite loading_replay. apply (loading_per_attempt_ends_false _ _ _ _ Hper Hpos).
Qed.

(** C5, as stated, fails: when the first attempt of the fetch started by the
    WhatsApp icon fails and the second succeeds, the flag is lowered after the
    first attempt and the second request is issued after that. *)
Lemma loading_flag_lowered_between_attempts :
  ~ loading_held
      (events_of (run (WhatsappClick.fetchMessagesWithRetry (selected "A"))
                      [Rejected (Rejection "offline"); Resolved;
                       Response true (Some (MessagesData []))]
                      (initialConfig ∅))).
Proof.
  intros H.
  specialize (H [Eff (SetLoading true);
                 Req (messagesRequest (Some "A") (Some ""));
                 Eff (ConsoleError "Failed to fetch messages:" (Some (Rejection "offline")));
                 Req (Timeout 1)]
                [Eff (SetLoading true);
                 Req (messagesRequest (Some "A") (Some ""));
                 Eff (ConsoleLog "Messages:");
                 Eff (SetMessages []);
                 Eff (SetLoading false)]
                eq_refl).
  discriminate H.
Qed.

(** ** Selecting a conversation *)

(** C6, as stated, fails: after the click on conversation B, while its
    messages are awaited, the list still shows the message of A. *)
Lemma selecting_a_chat_does_not_clear_messages :
  let c' := dispatch (SelectChat 1) showingA in
  selectedChatId (ui (world c')) = Some "B" /\
  length (pending c') = 1 /\
  ~ messages (ui (world c')) = [].
Proof. simpl. split; [reflexivity |]. split; [reflexivity |]. discriminate. Qed.

(** The effect that follows a change of [selectedChatId] is that of a later
    render. *)
Lemma in_render_selected c sel {A : Type} (t : Task A) :
  sel <> selectedChatId (ui (world c)) ->
  in_render (world (on_world (apply_effect (SetSelectedChatId sel)) c)) t = later_render t.
Proof.
  intros H. unfold in_render. simpl.
  rewrite bool_decide_eq_false_2 by exact H. rewrite orb_true_r. reflexivity.
Qed.

Lemma truthy_id_Some id : id <> "" -> truthy_id (Some id) = true.
Proof.
  intros H. simpl. destruct (String.eqb_spec id ""); [contradiction | reflexivity].
Qed.

(** C6, as the code has it.  When a click selects another conversation, the
    message list is left as it was, the flag is raised and one request for the
    messages of that conversation is awaited; when it is answered, its mapped
    messages replace the list and the flag is lowered. *)
Theorem selecting_a_chat_keeps_messages_until_the_reply :
  forall (c : Config) (i : nat) (chat : Chat) (id : string),
    chats (ui (world c)) !! i = Some chat ->
    chat_id chat = Some id ->
    id <> "" ->
    selectedChatId (ui (world c)) <> Some id ->
    let c1 := dispatch (SelectChat i) c in
    selectedChatId (ui (world c1)) = Some id /\
    messages (ui (world c1)) = messages (ui (world c)) /\
    isLoading (ui (world c1)) = true /\
    (exists h k, pending c1 = pending c ++ [(Http "GET" (messagesUrl (Some id)) h NoBody, k)]) /\
    forall ms,
      let c2 := dispatch (Settle (length (pending c))
                            (Response true (Some (MessagesData ms)))) c1 in
      messages (ui (world c2)) = map toMessage ms /\
      isLoading (ui (world c2)) = false /\
      pending c2 = pending c.
Proof.
  intros c i chat id Hi Hid Hne Hsel c1. subst c1.
  unfold dispatch. rewrite Hi, Hid.
  rewrite bool_decide_eq_false_2 by (intros E; apply Hsel; symmetry; exact E).
  cbv zeta. rewrite (in_render_selected c (Some id))
    by (intros E; apply Hsel; symmetry; exact E).
  unfold spawn, SelectedChatEffect.fetchMessagesWithRetry.
  rewrite (truthy_id_Some _ Hne). simpl.
  split; [reflexivity |]. split; [reflexivity |]. split; [reflexivity |].
  split; [eexists _, _; reflexivity |]. intros ms. repeat split.
  - rewrite list_lookup_middle by reflexivity. simpl. reflexivity.
  - rewrite list_lookup_middle by reflexivity. simpl. reflexivity.
  - rewrite list_lookup_middle by reflexivity. simpl.
    rewrite delete_middle. apply app_nil_r.
Qed.

(** ** Sending a message *)

Lemma truthy_trim s : trim s <> [] -> truthy_text (trim s) = true.
Proof. destruct (trim s); [congruence | reflexivity]. Qed.

Lemma strict_eq_Some a id : strict_eq a (Some id) = bool_decide (a = Some id).
Proof.
  destruct a as [x |]; [| reflexivity]. unfold strict_eq.
  destruct (String.eqb_spec x id) as [-> | Hne].
  - symmetry. apply bool_decide_eq_true_2. reflexivity.
  - symmetry. apply bool_decide_eq_false_2. congruence.
Qed.

Lemma lookup_map {A B} (f : A -> B) (l : list A) i : map f l !! i = f <$> (l !! i).
Proof.
  revert i. induction l as [| x l IH]; intros [| i]; simpl; try reflexivity. apply IH.
Qed.

(** C7.  When the text is not empty after trimming, a conversation is
    selected and the send request succeeds, [handleSendMessage] issues one
    request, appends one outbound message whose body is the text to the
    message list, sets it as the last message of the entries of the selected
    conversation and of no other, and empties the input. *)
Theorem handleSendMessage_appends_and_updates_preview :
  forall (c : Config) (id : string) (data : Data) (rest : list Reply),
    let u := ui (world c) in
    trim (newMessage u) <> [] ->
    selectedChatId u = Some id ->
    id <> "" ->
    let m := newMsg data (newMessage u) in
    exists c' evs,
      run (handleSendMessage u) (Response true (Some data) :: rest) c =
      (Finished (Normal tt), c', rest) /\
      trace (world c') = trace (world c) ++ evs /\
      attempts sendUrl evs = 1 /\
      messages (ui (world c')) = messages u ++ [m] /\
      text m = Some {| body := BodyString (newMessage u) |} /\
      from_me m = Some true /\
      length (chats (ui (world c'))) = length (chats u) /\
      (forall i chat,
          chats u !! i = Some chat ->
          chats (ui (world c')) !! i =
          Some (if bool_decide (chat_id chat = Some id)
                then withLastMessage chat m else chat)) /\
      (forall chat, chatPreview (withLastMessage chat m) = Some (BodyString (newMessage u))) /\
      newMessage (ui (world c')) = [].
Proof.
  intros c id data rest u Htxt Hsel Hid m.
  unfold handleSendMessage. rewrite (truthy_trim _ Htxt), Hsel, (truthy_id_Some _ Hid).
  eexists _, _. split; [reflexivity |]. cbn.
  rewrite <- !app_assoc. repeat split.
  - apply length_map.
  - intros i chat Hi. rewrite lookup_map. fold u. rewrite Hi. simpl.
    rewrite strict_eq_Some. reflexivity.
  - intros chat. unfold chatPreview. simpl. fold u.
    destruct (newMessage u); [contradiction Htxt; reflexivity | reflexivity].
Qed.

(** C8.  With an empty or whitespace-only text, or without a selected
    conversation, [handleSendMessage] returns at once: no request, no event,
    the same state.  When the send request fails, the failure is logged and
    the message list, the chat list and the input are what they were. *)
Theorem handleSendMessage_guards_and_failure :
  forall (c : Config),
    let u := ui (world c) in
    (forall rs,
        forallb isWhiteSpace (newMessage u) = true \/ truthy_id (selectedChatId u) = false ->
        run (handleSendMessage u) rs c = (Finished Returned, c, rs))
    /\
    (forall r rest,
        trim (newMessage u) <> [] ->
        truthy_id (selectedChatId u) = true ->
        (forall data, r <> Response true (Some data)) ->
        exists c' e,
          run (handleSendMessage u) (r :: rest) c = (Finished (Normal tt), c', rest) /\
          trace (world c') =
          trace (world c) ++
            [Req (sendRequest (selectedChatId u) (WHAPI_ACCESS_TOKEN (vars (world c)))
                    (newMessage u));
             Eff (ConsoleError "Failed to send message:" (Some e))] /\
          ui (world c') = u).
Proof.
  intros c u. split.
  - intros rs H. unfold handleSendMessage.
    assert (Hg : negb (truthy_text (trim (newMessage u)))
                 || negb (truthy_id (selectedChatId u)) = true).
    { destruct H as [Hws | Hsel].
      - apply trim_nil in Hws. rewrite Hws. reflexivity.
      - rewrite Hsel. apply orb_true_r. }
    rewrite Hg. reflexivity.
  - intros r rest Htxt Hsel Hr. unfold handleSendMessage.
    rewrite (truthy_trim _ Htxt), Hsel. cbn [negb orb].
    destruct r as [e | [] [d |] | d |];
      try (exfalso; eapply Hr; reflexivity);
      eexists _, _; (split; [reflexivity |]); cbn; rewrite <- ?app_assoc;
      (split; [reflexivity |]); subst u; destruct (ui (world c)); reflexivity.
Qed.

(** ** Loading the configuration and refreshing the token *)

Lemma run_try_catch {A : Type} (t : Task A) (h : Error -> Task A) rs c :
  run (try_catch t h) rs c =
  match run t rs c with
  | (Finished (Thrown e), c', rs') => run (h e) rs' c'
  | (Finished r, c', rs') => (Finished r, c', rs')
  | (Suspended rq k, c', rs') => (Suspended rq (fun r => try_catch (k r) h), c', rs')
  end.
Proof.
  unfold try_catch. rewrite run_on_completion.
  destruct (run t rs c) as [[[[a | | e] | rq k] c'] rs']; reflexivity.
Qed.

Lemma run_call {A : Type} (t : Task A) rs c :
  run (call t) rs c =
  match run t rs c with
  | (Finished (Thrown e), c', rs') => (Finished (Thrown e), c', rs')
  | (Finished _, c', rs') => (Finished (Normal tt), c', rs')
  | (Suspended rq k, c', rs') => (Suspended rq (fun r => call (k r)), c', rs')
  end.
Proof.
  unfold call. rewrite run_on_completion.
  destruct (run t rs c) as [[[[a | | e] | rq k] c'] rs']; reflexivity.
Qed.

Lemma filter_none {A} (p : A -> bool) l :
  forallb (fun x => negb (p x)) l = true -> List.filter p l = [].
Proof.
  induction l as [| x l IH]; simpl; [reflexivity |].
  intros H. apply andb_prop in H as [Hx Hl]. destruct (p x); [discriminate | auto].
Qed.

(** The fetch of the chat list on load never throws, whatever the reply. *)
Lemma fetchChatsWithRetry_total r rest c :
  exists o c' evs,
    run fetchChatsWithRetry (r :: rest) c = (Finished o, c', rest) /\
    (o = Returned \/ o = Normal tt) /\
    vars (world c') = vars (world c) /\
    store (world c') = store (world c) /\
    pending c' = pending c /\
    trace (world c') = trace (world c) ++ evs /\
    attempts chatsUrl evs = 1 /\
    attempts oauthUrl evs = 0 /\
    attempts contactsUrl evs = 0 /\
    forallb (fun ev => negb (is_firestore ev)) evs = true.
Proof.
  destruct r as [e | [] [[] |] | d |]; eexists _, _, _; (split; [reflexivity |]); cbn;
    rewrite <- ?app_assoc; repeat split; auto.
Qed.

Lemma email_is_false user s : email_of user <> Some s -> email_is user s = false.
Proof.
  unfold email_is. destruct (email_of user) as [e |]; [| reflexivity].
  intros H. destruct (String.eqb_spec e s); [congruence | reflexivity].
Qed.

(** With the document of the resolved company in the store, the loader
    reads it, assigns the credentials and the gateway token, and fetches the
    chat list; it completes normally whatever that fetch is answered. *)
Lemma fetchConfigFromDatabase_loads user data r rest c :
  store (world c) !! resolvedCompanyId user (vars (world c)) = Some data ->
  exists c' evs,
    run (fetchConfigFromDatabase user) (Resolved :: r :: rest) c =
    (Finished (Normal tt), c', rest) /\
    vars (world c') =
    {| WHAPI_ACCESS_TOKEN := data !! "whapiToken";
       companyId := resolvedCompanyId user (vars (world c));
       ghlConfig := configOf data |} /\
    store (world c') = store (world c) /\
    pending c' = pending c /\
    trace (world c') = trace (world c) ++ evs /\
    attempts oauthUrl evs = 0 /\
    attempts contactsUrl evs = 0 /\
    List.filter is_firestore evs =
    [Req (GetDoc "companies" (resolvedCompanyId user (vars (world c))))].
Proof.
  intros Hdoc. unfold fetchConfigFromDatabase, resolvedCompanyId in *.
  Opaque fetchChatsWithRetry.
  destruct (email_is user "admin@beverly.com") eqn:E1;
    [| destruct (email_is user "admin@billert.com") eqn:E2].
  all: cbn; rewrite Hdoc; cbn.
  all: rewrite ?run_on_completion, ?run_call.
  all: match goal with
       | |- context [run fetchChatsWithRetry (?r0 :: ?rest0) ?c1] =>
           destruct (fetchChatsWithRetry_total r0 rest0 c1)
             as (o & c' & evs & -> & Ho & Hv & Hs & Hp & Ht & Ha & Hb & Hc & Hf)
       end.
  all: cbn in Hv, Hs, Hp, Ht.
  all: rewrite <- ?app_assoc in Ht.
  all: destruct Ho as [-> | ->].
  all: eexists c', _; split; [reflexivity |].
  all: rewrite Hv, Hs, Hp, Ht.
  all: repeat split.
  all: try (rewrite ?attempts_app, ?Ha, ?Hb, ?Hc; reflexivity).
  all: cbn [List.filter is_firestore app].
  all: rewrite (filter_none _ _ Hf); reflexivity.
Qed.
Transparent fetchChatsWithRetry.

Lemma resolvedCompanyId_default user v :
  email_of user <> Some "admin@beverly.com" ->
  email_of user <> Some "admin@billert.com" ->
  resolvedCompanyId user v = companyId v.
Proof.
  intros H1 H2. unfold resolvedCompanyId.
  rewrite (email_is_false _ _ H1), (email_is_false _ _ H2). reflexivity.
Qed.

(** C4.  For a user whose email is neither of the two known addresses, also
    when nobody is signed in, the loader leaves [companyId] at its initial
    value '014': it asks for the document of that company and, when the
    document exists, takes the credentials and the gateway token from it and
    completes normally. *)
Theorem unknown_user_loads_default_company :
  forall (user : option User) (c : Config),
    email_of user <> Some "admin@beverly.com" ->
    email_of user <> Some "admin@billert.com" ->
    companyId (vars (world c)) = companyId initialVars ->
    (exists k c1,
        run (fetchConfigFromDatabase user) [] c =
        (Suspended (GetDoc "companies" "014") k, c1, []) /\
        companyId (vars (world c1)) = "014")
    /\
    (forall data r rest,
        store (world c) !! "014" = Some data ->
        exists c',
          run (fetchConfigFromDatabase user) (Resolved :: r :: rest) c =
          (Finished (Normal tt), c', rest) /\
          companyId (vars (world c')) = "014" /\
          ghlConfig (vars (world c')) = configOf data /\
          WHAPI_ACCESS_TOKEN (vars (world c')) = data !! "whapiToken").
Proof.
  intros user c H1 H2 Hc. simpl in Hc. split.
  - unfold fetchConfigFromDatabase.
    rewrite (email_is_false _ _ H1), (email_is_false _ _ H2). cbn. rewrite Hc.
    eexists _, _. split; [reflexivity | exact Hc].
  - intros data r rest Hdoc.
    destruct (fetchConfigFromDatabase_loads user data r rest c)
      as (c' & evs & Hrun & Hv & _).
    + rewrite (resolvedCompanyId_default _ _ H1 H2), Hc. exact Hdoc.
    + exists c'. split; [exact Hrun |]. rewrite Hv. simpl.
      rewrite (resolvedCompanyId_default _ _ H1 H2), Hc. auto.
Qed.

(** ** Errors of the token refresh and of the search *)

(** The search logs its failure and completes normally. *)
Lemma searchConversation_swallows accessToken r rest c :
  (forall d, r <> Response true d) ->
  exists e,
    run (searchConversation accessToken) (r :: rest) c =
    (Finished (Normal tt),
     on_world (replay
       [Req (Http "GET" contactsUrl
               [("Authorization", ("Bearer " ++ accessToken)%string); ("Version", "2021-07-28")]
               (QueryParams [("locationId", "q0PjrC2cUCmoTcOudutf")]));
        search_error e]) c,
     rest).
Proof.
  intros Hr.
  destruct r as [e | [] d | d |]; try (exfalso; eapply Hr; reflexivity);
    eexists; reflexivity.
Qed.

(** C9, as stated, fails for the search: when the request of
    [searchConversation] is rejected, the function does not throw. *)
Lemma search_error_is_not_rethrown :
  ~ exists e,
      fst (fst (run (searchConversation "access")
                    [Rejected (Rejection "offline")] (initialConfig ∅)))
      = Finished (Thrown e).
Proof. intros [e H]. discriminate H. Qed.

(** The refresh up to the exchange: the loader has run and the credentials
    are read from [ghlConfig]. *)
Ltac after_config user data rchats rs c Hdoc :=
  unfold ghlToken;
  rewrite run_try_catch, run_bind, run_call;
  let c1 := fresh "c1" in
  let evs1 := fresh "evs1" in
  destruct (fetchConfigFromDatabase_loads user data rchats rs c Hdoc)
    as (c1 & evs1 & -> & Hv & Hs & Hp & Ht & Ha & Hb & Hf);
  cbn; rewrite Hv; cbn.

Ltac close_run Ht Hs Ha Hb :=
  eexists _, _; (split; [reflexivity |]); cbn;
  rewrite ?Ht, ?Hs, <- ?app_assoc; (split; [reflexivity |]);
  cbn [app]; rewrite ?last_app_cons, ?attempts_app, ?Ha, ?Hb; repeat split.

(** A failure of the loader is logged twice and thrown by [ghlToken]. *)
Lemma ghlToken_config_fails user e rest c :
  exists c' evs,
    run (ghlToken user) (Rejected e :: rest) c = (Finished (Thrown e), c', rest) /\
    trace (world c') = trace (world c) ++ evs /\
    last evs = Some (token_error e) /\
    attempts oauthUrl evs = 0 /\
    store (world c') = store (world c).
Proof.
  unfold ghlToken, fetchConfigFromDatabase.
  destruct (email_is user "admin@beverly.com");
    [| destruct (email_is user "admin@billert.com")];
    eexists _, _; (split; [reflexivity |]); cbn; rewrite <- ?app_assoc; repeat split.
Qed.

Section TokenRefresh.
Variables (user : option User) (data : Doc) (rchats : Reply) (c : Config).
Hypothesis Hdoc : store (world c) !! resolvedCompanyId user (vars (world c)) = Some data.

Opaque fetchConfigFromDatabase.

(** A failed exchange is logged and thrown; the one request is not repeated
    and nothing is written. *)
Lemma ghlToken_exchange_fails r rest :
  tokens_of r = None ->
  exists e c' evs,
    run (ghlToken user) (Resolved :: rchats :: r :: rest) c =
    (Finished (Thrown e), c', rest) /\
    trace (world c') = trace (world c) ++ evs /\
    last evs = Some (token_error e) /\
    attempts oauthUrl evs = 1 /\
    attempts contactsUrl evs = 0 /\
    store (world c') = store (world c).
Proof.
  intros Hr. after_config user data rchats (r :: rest) c Hdoc.
  destruct r as [e | [] [[] |] | d |]; try discriminate Hr; cbn;
    eexists; close_run Ht Hs Ha Hb.
Qed.

(** A failure to persist the tokens is logged and thrown; the search is
    not called. *)
Lemma ghlToken_persist_fails access refresh e rest :
  exists c' evs,
    run (ghlToken user)
        (Resolved :: rchats :: Response true (Some (TokenData access refresh))
           :: Rejected e :: rest) c =
    (Finished (Thrown e), c', rest) /\
    trace (world c') = trace (world c) ++ evs /\
    last evs = Some (token_error e) /\
    attempts oauthUrl evs = 1 /\
    attempts contactsUrl evs = 0 /\
    store (world c') = store (world c).
Proof.
  after_config user data rchats
    (Response true (Some (TokenData access refresh)) :: Rejected e :: rest) c Hdoc.
  close_run Ht Hs Ha Hb.
Qed.

(** The tokens go to the document '014' whoever is signed in, merged into
    the fields it has, and the search is called once with the new access
    token.  When the search fails, [ghlToken] still completes normally. *)
Lemma ghlToken_persists_and_searches access refresh r rest :
  exists c' evs,
    run (ghlToken user)
        (Resolved :: rchats :: Response true (Some (TokenData access refresh))
           :: Resolved :: r :: rest) c =
    (Finished (Normal tt), c', rest) /\
    trace (world c') = trace (world c) ++ evs /\
    store (world c') =
    <["014" := list_to_map [("access_token", access); ("refresh_token", refresh)]
               ∪ default ∅ (store (world c) !! "014")]> (store (world c)) /\
    attempts oauthUrl evs = 1 /\
    attempts contactsUrl evs = 1 /\
    In (Req (Http "GET" contactsUrl
               [("Authorization", ("Bearer " ++ access)%string); ("Version", "2021-07-28")]
               (QueryParams [("locationId", "q0PjrC2cUCmoTcOudutf")]))) evs /\
    ((forall d, r <> Response true d) -> exists e, last evs = Some (search_error e)).
Proof.
  after_config user data rchats
    (Response true (Some (TokenData access refresh)) :: Resolved :: r :: rest) c Hdoc.
  destruct r as [e | [] d | d |]; cbn;
    eexists _, _; (split; [reflexivity |]); cbn;
    rewrite ?Ht, ?Hs, <- ?app_assoc; (split; [reflexivity |]);
    (split; [reflexivity |]);
    cbn [app]; rewrite ?last_app_cons, ?attempts_app, ?Ha, ?Hb;
    (split; [reflexivity |]); (split; [reflexivity |]);
    (split; [apply in_or_app; right; simpl; tauto |]);
    intros Hr; try (exfalso; eapply Hr; reflexivity); eexists; reflexivity.
Qed.

Transparent fetchConfigFromDatabase.
End TokenRefresh.

(** The same three lemmas when the company has no document: the loader
    consumes the read only, and the exchange is made with the credentials as
    they stood. *)
Ltac without_document user Hdoc :=
  unfold ghlToken, fetchConfigFromDatabase, resolvedCompanyId in *;
  destruct (email_is user "admin@beverly.com");
    [| destruct (email_is user "admin@billert.com")];
  cbn; rewrite Hdoc; cbn.

Ltac close_run_here :=
  eexists _, _; (split; [reflexivity |]); cbn; rewrite <- ?app_assoc;
  (split; [reflexivity |]); cbn [app]; rewrite ?last_app_cons; repeat split.

Lemma ghlToken_exchange_fails_without_document user c r rest :
  store (world c) !! resolvedCompanyId user (vars (world c)) = None ->
  tokens_of r = None ->
  exists e c' evs,
    run (ghlToken user) (Resolved :: r :: rest) c = (Finished (Thrown e), c', rest) /\
    trace (world c') = trace (world c) ++ evs /\
    last evs = Some (token_error e) /\
    attempts oauthUrl evs = 1 /\
    attempts contactsUrl evs = 0 /\
    store (world c') = store (world c).
Proof.
  intros Hdoc Hr. without_document user Hdoc.
  all: destruct r as [e | [] [[] |] | d |]; try discriminate Hr; cbn;
    eexists; close_run_here.
Qed.

Lemma ghlToken_persist_fails_without_document user c access refresh e rest :
  store (world c) !! resolvedCompanyId user (vars (world c)) = None ->
  exists c' evs,
    run (ghlToken user)
        (Resolved :: Response true (Some (TokenData access refresh)) :: Rejected e :: rest) c =
    (Finished (Thrown e), c', rest) /\
    trace (world c') = trace (world c) ++ evs /\
    last evs = Some (token_error e) /\
    attempts oauthUrl evs = 1 /\
    attempts contactsUrl evs = 0 /\
    store (world c') = store (world c).
Proof.
  intros Hdoc. without_document user Hdoc.
  all: close_run_here.
Qed.

Lemma ghlToken_search_fails_without_document user c access refresh r rest :
  store (world c) !! resolvedCompanyId user (vars (world c)) = None ->
  (forall d, r <> Response true d) ->
  exists e c' evs,
    run (ghlToken user)
        (Resolved :: Response true (Some (TokenData access refresh)) :: Resolved :: r :: rest) c =
    (Finished (Normal tt), c', rest) /\
    trace (world c') = trace (world c) ++ evs /\
    last evs = Some (search_error e) /\
    attempts oauthUrl evs = 1 /\
    attempts contactsUrl evs = 1.
Proof.
  intros Hdoc Hr. without_document user Hdoc.
  all: destruct r as [e | [] d | d |]; try (exfalso; eapply Hr; reflexivity); cbn;
    eexists; close_run_here.
Qed.

(** C9, as the code has it.  A failure of the token refresh, in reading the
    company document, in the exchange or in persisting the tokens, is logged
    and thrown to the caller, and the exchange is not repeated; this holds
    whether or not the company has a document, whose absence is no failure.
    A failure of the search is logged and not thrown: [searchConversation]
    completes normally, and so does [ghlToken]; the search is not repeated
    either. *)
Theorem refresh_errors_are_thrown_and_search_errors_logged :
  forall (user : option User) (rchats : Reply) (c : Config),
    let loaded :=
      loaderReplies (store (world c) !! resolvedCompanyId user (vars (world c))) rchats in
    (forall e rest,
        exists c' evs,
          run (ghlToken user) (Rejected e :: rest) c = (Finished (Thrown e), c', rest) /\
          trace (world c') = trace (world c) ++ evs /\
          last evs = Some (token_error e) /\
          attempts oauthUrl evs = 0 /\
          store (world c') = store (world c))
    /\
    (forall r rest,
        tokens_of r = None ->
        exists e c' evs,
          run (ghlToken user) (loaded ++ r :: rest) c =
          (Finished (Thrown e), c', rest) /\
          trace (world c') = trace (world c) ++ evs /\
          last evs = Some (token_error e) /\
          attempts oauthUrl evs = 1 /\
          attempts contactsUrl evs = 0 /\
          store (world c') = store (world c))
    /\
    (forall access refresh e rest,
        exists c' evs,
          run (ghlToken user)
              (loaded ++ Response true (Some (TokenData access refresh))
                 :: Rejected e :: rest) c =
          (Finished (Thrown e), c', rest) /\
          trace (world c') = trace (world c) ++ evs /\
          last evs = Some (token_error e) /\
          attempts oauthUrl evs = 1 /\
          attempts contactsUrl evs = 0 /\
          store (world c') = store (world c))
    /\
    (forall accessToken r rest c0,
        (forall d, r <> Response true d) ->
        exists e c' evs,
          run (searchConversation accessToken) (r :: rest) c0 =
          (Finished (Normal tt), c', rest) /\
          trace (world c') = trace (world c0) ++ evs /\
          last evs = Some (search_error e) /\
          attempts contactsUrl evs = 1)
    /\
    (forall access refresh r rest,
        (forall d, r <> Response true d) ->
        exists e c' evs,
          run (ghlToken user)
              (loaded ++ Response true (Some (TokenData access refresh))
                 :: Resolved :: r :: rest) c =
          (Finished (Normal tt), c', rest) /\
          trace (world c') = trace (world c) ++ evs /\
          last evs = Some (search_error e) /\
          attempts oauthUrl evs = 1 /\
          attempts contactsUrl evs = 1).
Proof.
  intros user rchats c loaded. subst loaded.
  destruct (store (world c) !! resolvedCompanyId user (vars (world c)))
    as [data |] eqn:Hdoc; cbn [loaderReplies app]; repeat apply conj.
  - intros e rest. apply ghlToken_config_fails.
  - intros r rest Hr. apply (ghlToken_exchange_fails user data rchats c Hdoc r rest Hr).
  - intros access refresh e rest.
    apply (ghlToken_persist_fails user data rchats c Hdoc).
  - intros accessToken r rest c0 Hr.
    destruct (searchConversation_swallows accessToken r rest c0 Hr) as (e & ->).
    eexists e, _, _. split; [reflexivity |].
    change (world (on_world ?f ?x)) with (f (world x)).
    split; [apply trace_replay |]. split; reflexivity.
  - intros access refresh r rest Hr.
    destruct (ghlToken_persists_and_searches user data rchats c Hdoc access refresh r rest)
      as (c' & evs & Hrun & Ht & _ & Ha & Hb & _ & Hlast).
    destruct (Hlast Hr) as (e & He). exists e, c', evs. auto.
  - intros e rest. apply ghlToken_config_fails.
  - intros r rest Hr.
    apply (ghlToken_exchange_fails_without_document user c r rest Hdoc Hr).
  - intros access refresh e rest.
    apply (ghlToken_persist_fails_without_document user c access refresh e rest Hdoc).
  - intros accessToken r rest c0 Hr.
    destruct (searchConversation_swallows accessToken r rest c0 Hr) as (e & ->).
    eexists e, _, _. split; [reflexivity |].
    change (world (on_world ?f ?x)) with (f (world x)).
    split; [apply trace_replay |]. split; reflexivity.
  - intros access refresh r rest Hr.
    apply (ghlToken_search_fails_without_document user c access refresh r rest Hdoc Hr).
Qed.

(** ** The document the tokens are written to *)

(** C3 on the code: for the user of company '011' the exchange is made with
    the refresh token of '011', and the new tokens are merged into the
    document '014'; the document '011' keeps the refresh token that was just
    used and gets no access token.  The search is called once, with the new
    access token. *)
Theorem tokens_of_billert_are_written_to_014 :
  let s' := store (world (snd (fst billertRefresh))) in
  fst (fst billertRefresh) = Finished (Normal tt) /\
  List.filter (is_request oauthUrl) (events_of billertRefresh) =
  [Req (Http "POST" oauthUrl
          [("Content-Type", "application/x-www-form-urlencoded");
           ("Accept", "application/json")]
          (FormBody [("client_id", "id-011"); ("client_secret", "secret-011");
                     ("grant_type", "refresh_token");
                     ("refresh_token", "refresh-011");
                     ("user_type", "Location")]))] /\
  field s' "011" "refresh_token" = Some "refresh-011" /\
  field s' "011" "access_token" = None /\
  field s' "014" "refresh_token" = Some "refresh-new" /\
  field s' "014" "access_token" = Some "access-new" /\
  field s' "014" "ghl_id" = Some "id-014" /\
  List.filter (is_request contactsUrl) (events_of billertRefresh) =
  [Req (Http "GET" contactsUrl
          [("Authorization", "Bearer access-new"); ("Version", "2021-07-28")]
          (QueryParams [("locationId", "q0PjrC2cUCmoTcOudutf")]))].
Proof.
  cbv zeta. repeat apply conj; vm_compute; reflexivity.
Qed.

(** ** The text of the stored messages *)

Lemma task_ok_on_completion P R {A : Type} (t : Task A) :
  forall {B : Type} (f : Completion A -> Task B),
    task_ok P R t -> (forall c, task_ok P R (f c)) -> task_ok P R (on_completion t f).
Proof.
  induction t as [A r | A e k IH | A k IH | A rq k IH | A child _ k IH];
    intros B f Ht Hf; simpl in *.
  - apply Hf.
  - destruct Ht. split; [assumption | apply IH; assumption].
  - intros v. apply IH; [apply Ht | assumption].
  - intros r Hr. apply IH; [apply Ht, Hr | assumption].
  - destruct Ht. split; [assumption | apply IH; assumption].
Qed.

Lemma task_ok_bind P R {A B : Type} (t : Task A) (f : A -> Task B) :
  task_ok P R t -> (forall a, task_ok P R (f a)) -> task_ok P R (bind t f).
Proof.
  intros Ht Hf. apply task_ok_on_completion; [exact Ht |].
  intros [a | | e]; simpl; auto.
Qed.

Lemma task_ok_try_catch P R {A : Type} (t : Task A) (h : Error -> Task A) :
  task_ok P R t -> (forall e, task_ok P R (h e)) -> task_ok P R (try_catch t h).
Proof.
  intros Ht Hh. apply task_ok_on_completion; [exact Ht |].
  intros [a | | e]; simpl; auto.
Qed.

Lemma task_ok_try_finally P R {A : Type} (t : Task A) (fin : Task unit) :
  task_ok P R t -> task_ok P R fin -> task_ok P R (try_finally t fin).
Proof.
  intros Ht Hf. apply task_ok_on_completion; [exact Ht |].
  intros c. apply task_ok_on_completion; [exact Hf |].
  intros [a | | e]; simpl; auto.
Qed.

Lemma task_ok_call P R {A : Type} (t : Task A) : task_ok P R t -> task_ok P R (call t).
Proof.
  intros Ht. apply task_ok_on_completion; [exact Ht |].
  intros [a | | e]; simpl; auto.
Qed.

Lemma task_ok_perform P R e : effect_ok P e -> task_ok P R (perform e).
Proof. intros H. simpl. auto. Qed.

Lemma task_ok_while P R fuel maxRetries body :
  (forall rc, task_ok P R (body rc)) ->
  forall rc, task_ok P R (while_retry fuel maxRetries body rc).
Proof.
  intros Hbody. induction fuel as [| fuel IH]; intros rc; simpl.
  - destruct (rc <? maxRetries)%nat; exact I.
  - destruct (rc <? maxRetries)%nat; [| exact I].
    apply task_ok_bind; [apply Hbody | apply IH].
Qed.

Lemma settle_messages rq r w : messages (ui (snd (settle rq r w))) = messages (ui w).
Proof. destruct rq as [| | ? ? ? []|], r; reflexivity. Qed.

Lemma toMessage_has_text ms : Forall has_text (map toMessage ms).
Proof. induction ms; constructor; [eexists; reflexivity | assumption]. Qed.

Lemma toMessage_has_string_body ms :
  forallb listed_ok ms = true -> Forall has_string_body (map toMessage ms).
Proof.
  induction ms as [| message ms IH]; simpl; intros H; constructor.
  - apply andb_prop in H as [H _]. unfold listed_ok, has_string_body, toMessage in *.
    simpl. destruct (r_text message) as [[[s | | t l]] |]; try discriminate;
      eexists; reflexivity.
  - apply andb_prop in H as [_ H]. apply IH, H.
Qed.

Lemma reply_listed_ok_settle rq r w : reply_listed_ok r -> reply_listed_ok (fst (settle rq r w)).
Proof. destruct rq as [| | ? ? ? []|], r; simpl; auto. Qed.

(** The invariant, for a property [P] that sent messages have and that the
    mapped messages of the replies among [R] have. *)
Section StoredMessages.
Variables (P : Message -> Prop) (R : Reply -> Prop).
Hypothesis P_sent : forall data s, P (newMsg data s).
Hypothesis P_listed :
  forall ok ms, R (Response ok (Some (MessagesData ms))) -> Forall P (map toMessage ms).
Hypothesis R_settle : forall rq r w, R r -> R (fst (settle rq r w)).

Ltac task_ok_step :=
  match goal with
  | H : task_ok P R ?t |- task_ok P R ?t => exact H
  | H : forall x, task_ok P R _ |- task_ok P R _ => solve [apply H]
  | |- task_ok _ _ (on_completion (while_retry _ _ _ _) _) => apply task_ok_on_completion
  | |- task_ok _ _ (while_retry _ _ _ _) => apply task_ok_while
  | |- task_ok _ _ (on_completion (call _) _) => apply task_ok_on_completion
  | |- task_ok _ _ (call _) => apply task_ok_call
  | |- forall _, _ => intro
  | |- _ /\ _ => split
  | |- True => exact I
  | H : R (Response _ (Some (MessagesData ?ms))) |- Forall P (map toMessage ?ms) =>
      exact (P_listed _ _ H)
  | |- Forall P [] => constructor
  | |- task_ok _ _ (if ?b then _ else _) => destruct b
  | |- task_ok _ _ (on_completion (if ?b then _ else _) _) => destruct b
  | |- task_ok _ _ (match ?x with _ => _ end) => destruct x
  | |- context [on_completion (match ?x with _ => _ end) _] => destruct x
  | |- task_ok _ _ _ =>
      progress cbn -[while_retry call fetchChatsWithRetry fetchConfigFromDatabase
                     searchConversation retryFetchMessages retryFetchChats]
  | |- task_ok _ _ (on_completion (on_completion _ _) _) => apply task_ok_on_completion
  end.

Ltac task_ok_auto := repeat task_ok_step.

Lemma fetchChatsWithRetry_ok : task_ok P R fetchChatsWithRetry.
Proof.
  unfold fetchChatsWithRetry, try_finally, try_catch, bind, perform, axios_request,
    await, data_chats, get, ret, throw, return_.
  task_ok_auto.
Qed.

Lemma searchConversation_ok tok : task_ok P R (searchConversation tok).
Proof.
  unfold searchConversation, try_catch, bind, perform, axios_request, await, ret, throw.
  task_ok_auto.
Qed.

Lemma fetchConfigFromDatabase_ok user : task_ok P R (fetchConfigFromDatabase user).
Proof.
  pose proof fetchChatsWithRetry_ok.
  unfold fetchConfigFromDatabase, try_catch, bind, perform, await, get, ret, throw, return_.
  task_ok_auto.
Qed.

Lemma ghlToken_ok user : task_ok P R (ghlToken user).
Proof.
  pose proof (fetchConfigFromDatabase_ok user).
  pose proof searchConversation_ok.
  unfold ghlToken, try_catch, bind, perform, axios_request, await, get, ret, throw.
  task_ok_auto.
Qed.

Lemma fetchMessagesAttempt_ok d sel rc : task_ok P R (fetchMessagesAttempt d sel rc).
Proof.
  unfold fetchMessagesAttempt, try_finally, try_catch, bind, perform, fetch, json, await,
    data_messages, get, sleep, ret, throw, return_.
  task_ok_auto.
Qed.

Lemma retryFetchMessages_ok N d sel : task_ok P R (retryFetchMessages N d sel).
Proof.
  pose proof (fetchMessagesAttempt_ok d sel).
  unfold retryFetchMessages, bind, perform, ret, return_.
  task_ok_auto.
Qed.

Lemma fetchChatsAttempt_ok d child rc :
  task_ok P R child -> task_ok P R (fetchChatsAttempt d child rc).
Proof.
  intros Hc.
  unfold fetchChatsAttempt, try_finally, try_catch, bind, perform, fetch, json, await,
    data_chats, get, sleep, ret, throw, return_.
  task_ok_auto.
Qed.

Lemma retryFetchChats_ok N d child :
  task_ok P R child -> task_ok P R (retryFetchChats N d child).
Proof.
  intros Hc. pose proof (fun rc => fetchChatsAttempt_ok d child rc Hc).
  unfold retryFetchChats, bind, perform, ret.
  task_ok_auto.
Qed.

Lemma effect_fetchMessages_ok sel : task_ok P R (SelectedChatEffect.fetchMessagesWithRetry sel).
Proof.
  unfold SelectedChatEffect.fetchMessagesWithRetry, try_finally, try_catch, bind, perform,
    axios_request, await, data_messages, get, ret, throw, return_.
  task_ok_auto.
Qed.

Lemma handleIconClick_ok iconId : task_ok P R (handleIconClick iconId).
Proof. unfold handleIconClick, bind, perform, ret. task_ok_auto. Qed.

Lemma handleWhatsappClick_ok u iconId : task_ok P R (handleWhatsappClick u iconId).
Proof.
  pose proof (retryFetchMessages_ok WhatsappClick.maxRetries WhatsappClick.retryDelay
                (selectedChatId u)).
  unfold handleWhatsappClick, WhatsappClick.fetchMessagesWithRetry, bind, perform, ret.
  task_ok_auto.
Qed.

Lemma handleRefreshClick_ok u : task_ok P R (handleRefreshClick u).
Proof.
  pose proof (retryFetchChats_ok Refresh.maxRetries Refresh.retryDelay _
                (retryFetchMessages_ok Refresh.maxRetries Refresh.retryDelay
                   (selectedChatId u))).
  unfold handleRefreshClick, Refresh.fetchChatsWithRetry, Refresh.fetchMessagesWithRetry,
    bind, perform, ret.
  task_ok_auto.
Qed.

Lemma handleContextMenu_ok u b message : task_ok P R (handleContextMenu u b message).
Proof.
  unfold handleContextMenu, showContextMenu, handleForwardToChat, handleForwardMessage,
    try_catch, bind, perform, axios_request, await, get, ret, throw.
  task_ok_auto.
Qed.

Lemma handleSendMessage_ok u :
  Forall P (messages u) -> task_ok P R (handleSendMessage u).
Proof.
  intros Hu.
  unfold handleSendMessage, try_catch, bind, perform, fetch, json, await, get,
    ret, throw, return_.
  task_ok_auto.
  all: apply Forall_app; split; [exact Hu |]; constructor; [apply P_sent | constructor].
Qed.

Lemma apply_effect_inv e c :
  effect_ok P e -> inv P R c -> inv P R (on_world (apply_effect e) c).
Proof.
  intros He [Hm Hp]. split; [| exact Hp].
  destruct e; simpl in *; assumption.
Qed.

Lemma park_inv o c :
  match o with
  | Suspended _ k => forall r, R r -> task_ok P R (k r)
  | Finished _ => True
  end ->
  inv P R c -> inv P R (park o c).
Proof.
  intros Ho [Hm Hp]. destruct o as [r | rq k]; simpl; [split; assumption |].
  split; [exact Hm |]. apply Forall_app. split; [exact Hp |].
  constructor; [exact Ho | constructor].
Qed.

(** Running a fine task on replies among [R] keeps the invariant, and what
    is left of the task at an [await] is fine. *)
Lemma run_inv {A : Type} (t : Task A) :
  forall rs c,
    task_ok P R t -> Forall R rs -> inv P R c ->
    inv P R (snd (fst (run t rs c))) /\
    match fst (fst (run t rs c)) with
    | Suspended _ k => forall r, R r -> task_ok P R (k r)
    | Finished _ => True
    end.
Proof.
  induction t as [A r | A e k IH | A k IH | A rq k IH | A child IHc k IH];
    intros rs c Ht Hrs Hc; simpl in *.
  - auto.
  - destruct Ht as [He Hk]. apply IH; [exact Hk | exact Hrs | apply apply_effect_inv; assumption].
  - apply IH; [apply Ht | exact Hrs | exact Hc].
  - destruct rs as [| r rs]; simpl.
    + split; [| exact Ht]. destruct Hc as [Hm Hp]. split; assumption.
    + apply Forall_cons in Hrs as [Hr Hrs].
      pose proof (R_settle rq r (record (Req rq) (world c)) Hr) as Hr'.
      destruct (settle rq r (record (Req rq) (world c))) as [r' w'] eqn:E.
      apply IH; [apply Ht, Hr' | exact Hrs |].
      destruct Hc as [Hm Hp]. split; [| exact Hp]. simpl.
      change w' with (snd (r', w')). rewrite <- E, settle_messages. exact Hm.
  - destruct Ht as [Hch Hk].
    destruct (IHc [] c Hch (List.Forall_nil _) Hc) as [Hc1 Ho].
    destruct (run child [] c) as [[o c1] rs1]. simpl in *.
    apply IH; [exact Hk | exact Hrs | apply park_inv; assumption].
Qed.

Lemma spawn_inv t c : task_ok P R t -> inv P R c -> inv P R (spawn t c).
Proof.
  intros Ht Hc. unfold spawn.
  destruct (run_inv t [] c Ht (List.Forall_nil _) Hc) as [Hc1 Ho].
  destruct (run t [] c) as [[o c1] rs1]. simpl in *. apply park_inv; assumption.
Qed.

Lemma later_render_ok {A : Type} (t : Task A) : task_ok P R t -> task_ok P R (later_render t).
Proof.
  induction t as [A r | A e k IH | A k IH | A rq k IH | A child IHc k IH];
    intros Ht; simpl in *.
  - exact I.
  - destruct Ht. split; [assumption | apply IH; assumption].
  - apply IH, Ht.
  - intros r Hr. apply IH, Ht, Hr.
  - destruct Ht. split; [apply IHc | apply IH]; assumption.
Qed.

Lemma in_render_ok w {A : Type} (t : Task A) : task_ok P R t -> task_ok P R (in_render w t).
Proof.
  intros Ht. unfold in_render. destruct (rerendered w); [apply later_render_ok |]; exact Ht.
Qed.

Lemma dispatch_inv ev c :
  match ev with Settle _ r => R r | _ => True end ->
  inv P R c -> inv P R (dispatch ev c).
Proof.
  intros Hev Hc.
  destruct ev as [user | i | iconId | iconId | | s | | i b | i b | i r]; simpl.
  - apply spawn_inv; [apply effect_fetchMessages_ok |].
    apply spawn_inv; [apply ghlToken_ok | exact Hc].
  - destruct (chats (ui (world c)) !! i) as [chat |]; [| exact Hc].
    destruct (bool_decide (chat_id chat = selectedChatId (ui (world c)))); [exact Hc |].
    apply spawn_inv; [apply in_render_ok, effect_fetchMessages_ok |].
    apply apply_effect_inv; [exact I | exact Hc].
  - apply spawn_inv; [apply in_render_ok, handleIconClick_ok | exact Hc].
  - apply spawn_inv; [apply in_render_ok, handleWhatsappClick_ok | exact Hc].
  - apply spawn_inv; [apply in_render_ok, handleRefreshClick_ok | exact Hc].
  - apply apply_effect_inv; [exact I | exact Hc].
  - apply spawn_inv; [apply in_render_ok, handleSendMessage_ok, Hc | exact Hc].
  - destruct (messages (ui (world c)) !! i) as [message |]; [| exact Hc].
    apply spawn_inv; [apply in_render_ok, handleContextMenu_ok | exact Hc].
  - destruct (messages (ui (world c)) !! i) as [message |]; [| exact Hc].
    destruct (strict_eq (type message) (Some "text")); [| exact Hc].
    apply spawn_inv; [apply in_render_ok, handleContextMenu_ok |].
    apply spawn_inv; [apply in_render_ok, handleContextMenu_ok | exact Hc].
  - destruct (pending c !! i) as [[rq k] |] eqn:Hi; [| exact Hc].
    pose proof (R_settle rq r (world c) Hev) as Hr'.
    destruct (settle rq r (world c)) as [r' w'] eqn:E.
    destruct Hc as [Hm Hp].
    apply spawn_inv.
    + apply (Forall_lookup_1 _ _ _ _ Hp Hi), Hr'.
    + split; simpl.
      * change w' with (snd (r', w')). rewrite <- E, settle_messages. exact Hm.
      * apply Forall_delete, Hp.
Qed.

Lemma dispatch_all_inv evs c :
  Forall (fun ev => match ev with Settle _ r => R r | _ => True end) evs ->
  inv P R c -> inv P R (dispatch_all evs c).
Proof.
  revert c. induction evs as [| ev evs IH]; intros c Hevs Hc; simpl; [exact Hc |].
  apply Forall_cons in Hevs as [Hev Hevs].
  apply IH; [exact Hevs | apply dispatch_inv; assumption].
Qed.

End StoredMessages.

Lemma bubbleWidth_defined m : has_string_body m -> is_Some (bubbleWidth m).
Proof.
  intros [s Hs]. unfold bubbleWidth. rewrite Hs.
  destruct (strict_eq (type m) (Some "image")); eexists; reflexivity.
Qed.

(** The width expression throws for a message that is no image exactly when
    its text or the body of its text is missing. *)
Lemma bubbleWidth_throws m :
  bubbleWidth m = None <->
  strict_eq (type m) (Some "image") = false /\
  (text m = None \/ text m = Some {| body := BodyNullish |}).
Proof.
  unfold bubbleWidth. destruct (strict_eq (type m) (Some "image")).
  - split; [discriminate | intros [H _]; discriminate H].
  - destruct (text m) as [[[s | | t [n |]]] |]; split; auto; try discriminate;
      intros [_ [H | H]]; discriminate H.
Qed.

(** C10, as stated, fails: the gateway lists a message whose text has no
    body; the message is stored with an undefined body and the width
    expression throws for it. *)
Lemma listed_message_without_body_has_no_width :
  let c := dispatch_all listingBodiless (initialConfig twoTenants) in
  exists m,
    messages (ui (world c)) = [m] /\
    text m = Some {| body := BodyNullish |} /\
    bubbleWidth m = None.
Proof. eexists. repeat split; vm_compute; reflexivity. Qed.

(** C10, as the code has it.  Whatever the user does and however the
    requests are answered, every message in [messages] is the copy of a
    listed message or the message of a send, and has a text, whose body
    is the body of the listed text as it came, the empty string when the
    listed message has no text, and the text that was sent for a sent
    message.  When the texts of the messages listed in the replies have
    strings as bodies, the body of every stored message is a string and the
    width of its bubble is defined. *)
Theorem stored_messages_have_a_text :
  (forall (s : gmap string Doc) (evs : list UIEvent),
      Forall (fun m => stored_from m /\ has_text m)
             (messages (ui (world (dispatch_all evs (initialConfig s))))))
  /\
  (forall (s : gmap string Doc) (evs : list UIEvent),
      Forall event_listed_ok evs ->
      Forall (fun m => has_string_body m /\ is_Some (bubbleWidth m))
             (messages (ui (world (dispatch_all evs (initialConfig s))))))
  /\
  (forall message,
      text (toMessage message) =
      Some {| body := match r_text message with
                      | Some t => body t
                      | None => BodyString []
                      end |})
  /\
  (forall data s, text (newMsg data s) = Some {| body := BodyString s |}).
Proof.
  repeat apply conj; [| | reflexivity | reflexivity].
  - intros s evs.
    assert (Hinv : inv (fun m => stored_from m /\ has_text m) (fun _ => True)
                       (dispatch_all evs (initialConfig s))).
    { apply dispatch_all_inv.
      - intros data t. split; [right; eexists _, _; reflexivity | eexists; reflexivity].
      - intros ok ms _. apply List.Forall_map, List.Forall_forall. intros message _.
        split; [left; eexists; reflexivity | eexists; reflexivity].
      - auto.
      - apply List.Forall_forall. intros [] _; exact I.
      - split; constructor. }
    apply Hinv.
  - intros s evs Hevs.
    assert (Hinv : inv has_string_body reply_listed_ok (dispatch_all evs (initialConfig s))).
    { apply dispatch_all_inv.
      - intros data t. eexists. reflexivity.
      - intros ok ms Hms. apply toMessage_has_string_body, Hms.
      - apply reply_listed_ok_settle.
      - eapply Forall_impl; [exact Hevs |]. intros [] H; try exact I. exact H.
      - split; constructor. }
    destruct Hinv as [Hm _]. eapply Forall_impl; [exact Hm |].
    intros m Hok. split; [exact Hok | apply bubbleWidth_defined, Hok].
Qed.

(** ** The fetch on load

    The fetch of the chat list on load makes a single attempt: it behaves as
    the retrying fetch does with one attempt allowed. *)

Lemma fetchChatsWithRetry_once_succeeds cs rest c :
  exists c' evs,
    run fetchChatsWithRetry (Response true (Some (ChatsData cs)) :: rest) c =
    (Finished Returned, c', rest) /\
    trace (world c') = trace (world c) ++ evs /\
    attempts chatsUrl evs = 1 /\
    chats (ui (world c')) = map copyChat cs /\
    isLoading (ui (world c')) = false.
Proof.
  eexists _, _. split; [reflexivity |]. cbn. rewrite <- !app_assoc. repeat split.
Qed.

Lemma fetchChatsWithRetry_once_fails r rest c :
  chats_of r = None ->
  exists c' evs,
    run fetchChatsWithRetry (r :: rest) c = (Finished (Normal tt), c', rest) /\
    trace (world c') = trace (world c) ++ evs /\
    attempts chatsUrl evs = 1 /\
    last evs = Some (Eff (ConsoleError "Failed to fetch chats" None)) /\
    chats (ui (world c')) = chats (ui (world c)) /\
    messages (ui (world c')) = messages (ui (world c)).
Proof.
  intros H.
  destruct r as [e | [] [[] |] | d |]; try discriminate H;
    eexists _, _; (split; [reflexivity |]); cbn; rewrite <- ?app_assoc; repeat split.
Qed.

(** The handlers use the loops with their own constants. *)
Lemma handlers_use_the_loops u :
  WhatsappClick.fetchMessagesWithRetry u = retryFetchMessages 20 1 (selectedChatId u) /\
  Refresh.fetchMessagesWithRetry u = retryFetchMessages 10 1000 (selectedChatId u) /\
  Refresh.fetchChatsWithRetry u =
  retryFetchChats 10 1000 (retryFetchMessages 10 1000 (selectedChatId u)).
Proof. repeat split. Qed.

(** ** Instances *)

(** C1 at N = 2: one rejected request, then a success. *)
Lemma retry_fetch_succeeds_at_attempt_2 :
  (exists c' evs,
      run (retryFetchChats 2 1000 (retryFetchMessages 10 1000 (Some "A")))
          (failures [offline] ++ [Response true (Some (ChatsData [chatA; chatB]))])
          (initialConfig ∅) = (Finished Returned, c', []) /\
      trace (world c') = trace (world (initialConfig ∅)) ++ evs /\
      attempts chatsUrl evs = 2 /\
      chats (ui (world c')) = map copyChat [chatA; chatB] /\
      chats (ui (world c')) = [chatA; chatB])
  /\
  (exists c' evs,
      run (retryFetchMessages 2 1 (Some "A"))
          (failures [offline] ++ [Response true (Some (MessagesData [remoteHello]))])
          (initialConfig ∅) = (Finished Returned, c', []) /\
      trace (world c') = trace (world (initialConfig ∅)) ++ evs /\
      attempts (messagesUrl (Some "A")) evs = 2 /\
      messages (ui (world c')) = map toMessage [remoteHello] /\
      Forall2 stored_as (messages (ui (world c'))) [remoteHello]).
Proof.
  split.
  - refine (proj1 (retry_fetch_succeeds_at_attempt_N 2 1000 [offline]
                     (Response true (Some (ChatsData [chatA; chatB]))) [] (initialConfig ∅)
                     _ _) [chatA; chatB] 10 1000 (Some "A") _ _).
    + lia.
    + reflexivity.
    + repeat constructor.
    + reflexivity.
  - refine (proj2 (retry_fetch_succeeds_at_attempt_N 2 1 [offline]
                     (Response true (Some (MessagesData [remoteHello]))) [] (initialConfig ∅)
                     _ _) [remoteHello] (Some "A") _ _ _).
    + lia.
    + reflexivity.
    + reflexivity.
    + repeat constructor.
    + reflexivity.
Defined.


(** C4 with nobody signed in. *)
Lemma unknown_user_loads_default_company_signed_out :
  (exists k c1,
      run (fetchConfigFromDatabase None) [] (initialConfig twoTenants) =
      (Suspended (GetDoc "companies" "014") k, c1, []) /\
      companyId (vars (world c1)) = "014")
  /\
  (exists c',
      run (fetchConfigFromDatabase None) [Resolved; offline] (initialConfig twoTenants) =
      (Finished (Normal tt), c', []) /\
      companyId (vars (world c')) = "014" /\
      ghlConfig (vars (world c')) = configOf (tenantDoc "014") /\
      WHAPI_ACCESS_TOKEN (vars (world c')) = tenantDoc "014" !! "whapiToken").
Proof.
  destruct (unknown_user_loads_default_company None (initialConfig twoTenants))
    as [H1 H2].
  - discriminate.
  - discriminate.
  - reflexivity.
  - split; [exact H1 |]. apply (H2 (tenantDoc "014") offline []). vm_compute. reflexivity.
Defined.

(** C5 on two attempts: a success at the second, and two failures. *)
Lemma loading_flag_is_held_per_attempt_twice :
  (exists o c' evs,
      run (retryFetchChats 2 1000 (retryFetchMessages 10 1000 (Some "A")))
          (failures [offline] ++ [Response true (Some (ChatsData [chatA]))] ++ [])
          (initialConfig ∅) = (Finished o, c', []) /\
      trace (world c') = trace (world (initialConfig ∅)) ++ evs /\
      loading_per_attempt chatsUrl 2 evs /\
      (0 < 2 -> isLoading (ui (world c')) = false))
  /\
  (exists o c' evs,
      run (retryFetchMessages 2 1 (Some "A"))
          (failures [offline; offline] ++ [] ++ []) (initialConfig ∅) = (Finished o, c', []) /\
      trace (world c') = trace (world (initialConfig ∅)) ++ evs /\
      loading_per_attempt (messagesUrl (Some "A")) 2 evs /\
      (0 < 2 -> isLoading (ui (world c')) = false)).
Proof.
  split.
  - refine (proj1 (loading_flag_is_held_per_attempt 2 1000 [offline]
                     [Response true (Some (ChatsData [chatA]))] [] (initialConfig ∅))
                  10 1000 (Some "A") _ _).
    + repeat constructor.
    + left. split; [simpl; lia |]. eexists. split; [reflexivity |]. eexists. reflexivity.
  - refine (proj2 (loading_flag_is_held_per_attempt 2 1 [offline; offline]
                     [] [] (initialConfig ∅))
                  (Some "A") _ _ _).
    + reflexivity.
    + repeat constructor.
    + right. split; reflexivity.
Defined.

(** C6 on the click that moves from conversation A to conversation B. *)
Lemma selecting_chat_B_keeps_the_message_of_A :
  let c1 := dispatch (SelectChat 1) showingA in
  selectedChatId (ui (world c1)) = Some "B" /\
  messages (ui (world c1)) = messages (ui (world showingA)) /\
  isLoading (ui (world c1)) = true /\
  (exists h k,
      pending c1 = pending showingA ++ [(Http "GET" (messagesUrl (Some "B")) h NoBody, k)]) /\
  forall ms,
    let c2 := dispatch (Settle (length (pending showingA))
                          (Response true (Some (MessagesData ms)))) c1 in
    messages (ui (world c2)) = map toMessage ms /\
    isLoading (ui (world c2)) = false /\
    pending c2 = pending showingA.
Proof.
  apply (selecting_a_chat_keeps_messages_until_the_reply showingA 1 chatB "B").
  - reflexivity.
  - reflexivity.
  - discriminate.
  - discriminate.
Defined.

(** C7 on the text "hi" sent to conversation A. *)
Lemma sending_hi_appends_and_updates_preview :
  let c := typing (js "hi") in
  let m := newMsg (SentData "m2") (js "hi") in
  exists c' evs,
    run (handleSendMessage (ui (world c))) [Response true (Some (SentData "m2"))] c =
    (Finished (Normal tt), c', []) /\
    trace (world c') = trace (world c) ++ evs /\
    attempts sendUrl evs = 1 /\
    messages (ui (world c')) = messages (ui (world c)) ++ [m] /\
    text m = Some {| body := BodyString (js "hi") |} /\
    from_me m = Some true /\
    length (chats (ui (world c'))) = length (chats (ui (world c))) /\
    (forall i chat,
        chats (ui (world c)) !! i = Some chat ->
        chats (ui (world c')) !! i =
        Some (if bool_decide (chat_id chat = Some "A")
              then withLastMessage chat m else chat)) /\
    (forall chat, chatPreview (withLastMessage chat m) = Some (BodyString (js "hi"))) /\
    newMessage (ui (world c')) = [].
Proof.
  apply (handleSendMessage_appends_and_updates_preview
           (typing (js "hi")) "A" (SentData "m2") []).
  - vm_compute. discriminate.
  - reflexivity.
  - discriminate.
Defined.

(** C8 on two blanks, and on "hi" when the request is rejected. *)
Lemma sending_blank_does_nothing_and_failure_is_logged :
  (run (handleSendMessage (ui (world (typing (js "  "))))) [offline] (typing (js "  ")) =
   (Finished Returned, typing (js "  "), [offline]))
  /\
  (exists c' e,
      run (handleSendMessage (ui (world (typing (js "hi"))))) [offline] (typing (js "hi")) =
      (Finished (Normal tt), c', []) /\
      trace (world c') =
      trace (world (typing (js "hi"))) ++
        [Req (sendRequest (Some "A") (Some "") (js "hi"));
         Eff (ConsoleError "Failed to send message:" (Some e))] /\
      ui (world c') = ui (world (typing (js "hi")))).
Proof.
  split.
  - apply (proj1 (handleSendMessage_guards_and_failure (typing (js "  "))) [offline]).
    left. reflexivity.
  - apply (proj2 (handleSendMessage_guards_and_failure (typing (js "hi"))) offline []).
    + vm_compute. discriminate.
    + reflexivity.
    + discriminate.
Defined.

(** C9 for the user of company '011', and for a collection without
    documents. *)
Lemma refresh_errors_of_billert :
  let c := initialConfig twoTenants in
  let rchats := Response true (Some (ChatsData [])) in
  (exists c' evs,
      run (ghlToken (Some billert)) [offline] c =
      (Finished (Thrown (Rejection "offline")), c', []) /\
      trace (world c') = trace (world c) ++ evs /\
      last evs = Some (token_error (Rejection "offline")) /\
      attempts oauthUrl evs = 0 /\
      store (world c') = store (world c))
  /\
  (exists e c' evs,
      run (ghlToken (Some billert)) [Resolved; rchats; Response false None] c =
      (Finished (Thrown e), c', []) /\
      trace (world c') = trace (world c) ++ evs /\
      last evs = Some (token_error e) /\
      attempts oauthUrl evs = 1 /\
      attempts contactsUrl evs = 0 /\
      store (world c') = store (world c))
  /\
  (exists e c' evs,
      run (searchConversation "access") [offline] c = (Finished (Normal tt), c', []) /\
      trace (world c') = trace (world c) ++ evs /\
      last evs = Some (search_error e) /\
      attempts contactsUrl evs = 1)
  /\
  (exists e c' evs,
      run (ghlToken (Some billert))
          [Resolved; rchats; Response true (Some (TokenData "access" "refresh"));
           Resolved; offline] c =
      (Finished (Normal tt), c', []) /\
      trace (world c') = trace (world c) ++ evs /\
      last evs = Some (search_error e) /\
      attempts oauthUrl evs = 1 /\
      attempts contactsUrl evs = 1)
  /\
  (exists e c' evs,
      run (ghlToken None) [Resolved; Response false None] (initialConfig ∅) =
      (Finished (Thrown e), c', []) /\
      trace (world c') = trace (world (initialConfig ∅)) ++ evs /\
      last evs = Some (token_error e) /\
      attempts oauthUrl evs = 1 /\
      attempts contactsUrl evs = 0 /\
      store (world c') = store (world (initialConfig ∅))).
Proof.
  intros c rchats.
  destruct (refresh_errors_are_thrown_and_search_errors_logged (Some billert) rchats c)
    as (H1 & H2 & _ & H4 & H5).
  destruct (refresh_errors_are_thrown_and_search_errors_logged None rchats (initialConfig ∅))
    as (_ & H2' & _).
  repeat apply conj.
  - apply (H1 (Rejection "offline") []).
  - apply (H2 (Response false None) []). reflexivity.
  - apply (H4 "access" offline [] c). discriminate.
  - apply (H5 "access" "refresh" offline []). discriminate.
  - apply (H2' (Response false None) []). reflexivity.
Defined.

(** C10 on the thread of conversation A after the gateway has listed one
    message for it. *)
Lemma thread_of_hello_has_widths :
  Forall event_listed_ok listingHello /\
  Forall (fun m => has_string_body m /\ is_Some (bubbleWidth m))
         (messages (ui (world (dispatch_all listingHello (initialConfig twoTenants))))).
Proof.
  assert (H : Forall event_listed_ok listingHello)
    by (repeat constructor).
  split; [exact H |].
  exact (proj1 (proj2 stored_messages_have_a_text) twoTenants listingHello H).
Defined.

(** * Further properties *)

(** ** The retry loops, whatever the replies *)

Lemma waited_app evs1 evs2 : waited (evs1 ++ evs2) = waited evs1 + waited evs2.
Proof.
  induction evs1 as [| ev evs1 IH]; simpl; [reflexivity |].
  rewrite IH. destruct ev as [e | []]; lia.
Qed.

Ltac one_attempt_case :=
  eexists; unfold events_of; cbn; rewrite <- ?app_assoc;
  (split; [reflexivity |]); cbn; rewrite ?String.eqb_refl; cbn;
  repeat split; lia.

Lemma fetchMessagesAttempt_any retryDelay sel rc rs c :
  one_attempt (messagesUrl sel) retryDelay rc c
    (run (fetchMessagesAttempt retryDelay sel rc) rs c).
Proof.
  unfold one_attempt, attempts.
  destruct rs as [| r rs]; [one_attempt_case |].
  destruct r as [e | [] [[] |] | d |]; destruct rs as [| t rs]; one_attempt_case.
Qed.

Lemma fetchChatsAttempt_any retryDelay maxRetries' retryDelay' sel rc rs c :
  one_attempt chatsUrl retryDelay rc c
    (run (fetchChatsAttempt retryDelay (retryFetchMessages maxRetries' retryDelay' sel) rc)
         rs c).
Proof.
  unfold one_attempt, attempts, retryFetchMessages.
  destruct rs as [| r rs]; [one_attempt_case |].
  destruct r as [e | [] [[] |] | d |]; destruct rs as [| t rs];
    try one_attempt_case;
    destruct (truthy_id sel), maxRetries'; one_attempt_case.
Qed.

Section BoundedLoop.
Variables (maxRetries retryDelay : nat) (url : string) (body : nat -> Task nat).
Hypothesis body_any : forall rc rs c, one_attempt url retryDelay rc c (run (body rc) rs c).

Lemma while_retry_bounded fuel : forall rc rs c,
  bounded_run url retryDelay (maxRetries - rc) c
    (run (while_retry fuel maxRetries body rc) rs c).
Proof.
  assert (Hstop : forall rc rs c,
             bounded_run url retryDelay (maxRetries - rc) c (Finished (Normal tt), c, rs))
    by (intros; exists []; unfold events_of, attempts; simpl; rewrite app_nil_r;
        repeat split; apply Nat.le_0_l).
  induction fuel as [| fuel IH]; intros rc rs c;
    destruct (Nat.ltb_spec rc maxRetries) as [Hlt | Hge];
    try (rewrite while_retry_exit by exact Hge; apply Hstop).
  { cbn [while_retry]. destruct (rc <? maxRetries)%nat; apply Hstop. }
  rewrite while_retry_step by exact Hlt. rewrite run_bind.
  destruct (body_any rc rs c) as (evs1 & Ht1 & Ha1 & Hw1 & Ho).
  destruct (run (body rc) rs c) as [[o1 c1] rs1]. unfold events_of in Ht1. simpl in *.
  destruct o1 as [[rc' | | e] | rq k]; try contradiction.
  - subst rc'. destruct (IH (S rc) rs1 c1) as (evs2 & Ht2 & Ha2 & Hw2 & Ho2).
    exists (evs1 ++ evs2). rewrite Ht2, Ht1, <- app_assoc, attempts_app, waited_app.
    split; [reflexivity |]. split; [lia |]. split; [| exact Ho2].
    replace (maxRetries - rc) with (S (maxRetries - S rc)) by lia.
    rewrite Nat.mul_succ_l. nia.
  - exists evs1. unfold events_of. simpl. split; [exact Ht1 |]. split; [lia |].
    split; [| exact I].
    replace (maxRetries - rc) with (S (maxRetries - S rc)) by lia.
    rewrite Nat.mul_succ_l. nia.
  - exists evs1. unfold events_of. simpl. split; [exact Ht1 |]. split; [lia |].
    split; [| exact I].
    replace (maxRetries - rc) with (S (maxRetries - S rc)) by lia.
    rewrite Nat.mul_succ_l. nia.
Qed.

(** The loop followed by the message that is logged when it is left. *)
Lemma retry_then_log_bounded e rs c :
  bounded_run url retryDelay maxRetries c
    (run (while_retry maxRetries maxRetries body 0 ;; perform (ConsoleError e None)) rs c).
Proof.
  rewrite run_bind.
  destruct (while_retry_bounded maxRetries 0 rs c) as (evs & Ht & Ha & Hw & Ho).
  rewrite Nat.sub_0_r in Ha, Hw.
  destruct (run (while_retry maxRetries maxRetries body 0) rs c) as [[o1 c1] rs1].
  unfold events_of in Ht. simpl in *.
  destruct o1 as [[[] | | err] | rq k]; try contradiction.
  - exists (evs ++ [Eff (ConsoleError e None)]). unfold events_of. simpl.
    rewrite Ht, <- app_assoc, attempts_app, waited_app.
    change (attempts url [Eff (ConsoleError e None)]) with 0.
    change (waited [Eff (ConsoleError e None)]) with 0.
    repeat split; lia.
  - exists evs. unfold events_of. simpl. auto.
  - exists evs. unfold events_of. simpl. auto.
Qed.
End BoundedLoop.


(** ** The order of the thread *)

Lemma StronglySorted_snoc {A} (R : A -> A -> Prop) l x :
  StronglySorted R l -> Forall (fun y => R y x) l -> StronglySorted R (l ++ [x]).
Proof.
  induction 1 as [| y l Hl IH Hy]; intros Hx; simpl.
  - constructor; constructor.
  - inversion Hx as [| ? ? Hyx Hlx]; subst. constructor; [apply IH, Hlx |].
    apply Forall_app. split; [exact Hy | constructor; [exact Hyx | constructor]].
Qed.

Lemma StronglySorted_rev {A} (R : A -> A -> Prop) l :
  StronglySorted R l -> StronglySorted (fun a b => R b a) (rev l).
Proof.
  induction 1 as [| y l Hl IH Hy]; simpl; [constructor |].
  apply StronglySorted_snoc; [exact IH |].
  apply List.Forall_forall. intros z Hz. apply in_rev in Hz.
  rewrite List.Forall_forall in Hy. apply Hy, Hz.
Qed.

Lemma StronglySorted_map {A B} (f : A -> B) (R : B -> B -> Prop) l :
  StronglySorted (fun a b => R (f a) (f b)) l -> StronglySorted R (map f l).
Proof.
  induction 1 as [| y l Hl IH Hy]; simpl; constructor; [exact IH |].
  apply List.Forall_forall. intros z Hz. apply in_map_iff in Hz as (a & <- & Ha).
  rewrite List.Forall_forall in Hy. apply Hy, Ha.
Qed.

Lemma rendered_oldest_first ms :
  newest_first ms -> oldest_first (rev (map toMessage ms)).
Proof.
  intros H. unfold oldest_first. rewrite <- map_rev.
  apply StronglySorted_map. apply (StronglySorted_rev _ _ H).
Qed.

(** X2.  When the gateway lists the messages of the selected conversation
    newest first, the thread that is rendered after the fetch, by the effect
    or by a retrying fetch at any attempt, shows these messages oldest
    first. *)
Theorem fetched_thread_is_shown_oldest_first :
  forall (N retryDelay : nat) (sel : option string) (fails : list Reply)
         (ms : list RemoteMessage) (rest : list Reply) (c : Config),
    truthy_id sel = true ->
    newest_first ms ->
    (let c' := snd (fst (run (SelectedChatEffect.fetchMessagesWithRetry sel)
                             (Response true (Some (MessagesData ms)) :: rest) c)) in
     renderedMessages (ui (world c')) = map toMessage (rev ms) /\
     oldest_first (renderedMessages (ui (world c'))))
    /\
    (Forall (fun r => messages_of r = None) fails ->
     length fails < N ->
     let c' := snd (fst (run (retryFetchMessages N retryDelay sel)
                             (failures fails ++ Response true (Some (MessagesData ms)) :: rest)
                             c)) in
     renderedMessages (ui (world c')) = map toMessage (rev ms) /\
     oldest_first (renderedMessages (ui (world c')))).
Proof.
  intros N retryDelay sel fails ms rest c Hsel Hms. split.
  - unfold SelectedChatEffect.fetchMessagesWithRetry. rewrite Hsel. cbn.
    unfold renderedMessages. cbn. rewrite map_rev.
    split; [reflexivity |]. apply rendered_oldest_first, Hms.
  - intros Hf Hlen.
    destruct (retryFetchMessages_succeeds N retryDelay sel fails ms rest c Hsel Hf Hlen)
      as (blocks & Hb & Hall & ->).
    cbn [fst snd]. unfold renderedMessages.
    change (world (on_world ?f ?x)) with (f (world x)).
    rewrite messages_replay, messages_after_app. cbn.
    rewrite map_rev. split; [reflexivity |]. apply rendered_oldest_first, Hms.
Qed.

(** ** Sending, further *)

(** The whole run of a send that succeeds. *)
Lemma handleSendMessage_succeeds c id data rest :
  let u := ui (world c) in
  trim (newMessage u) <> [] ->
  selectedChatId u = Some id ->
  id <> "" ->
  run (handleSendMessage u) (Response true (Some data) :: rest) c =
  (Finished (Normal tt),
   on_world (replay
     [Req (sendRequest (Some id) (WHAPI_ACCESS_TOKEN (vars (world c))) (newMessage u));
      Eff (SetMessages (messages u ++ [newMsg data (newMessage u)]));
      Eff (SetChats (withPreview (Some id) (newMsg data (newMessage u)) (chats u)));
      Eff (SetNewMessage [])]) c,
   rest).
Proof.
  intros u Htxt Hsel Hid.
  unfold handleSendMessage. rewrite (truthy_trim _ Htxt), Hsel, (truthy_id_Some _ Hid).
  reflexivity.
Qed.

(** X3.  After a successful send the new message, whose time is 0, is the
    first of the rendered thread, before every message shown so far; the
    thread stays oldest first when no message shown has a negative time. *)
Theorem sent_message_is_rendered_first :
  forall (c : Config) (id : string) (data : Data) (rest : list Reply),
    let u := ui (world c) in
    trim (newMessage u) <> [] ->
    selectedChatId u = Some id ->
    id <> "" ->
    let c' := snd (fst (run (handleSendMessage u) (Response true (Some data) :: rest) c)) in
    let m := newMsg data (newMessage u) in
    renderedMessages (ui (world c')) = m :: renderedMessages u /\
    stamp m = 0%Z /\
    (oldest_first (renderedMessages u) ->
     Forall (fun x => (0 <= stamp x)%Z) (messages u) ->
     oldest_first (renderedMessages (ui (world c')))).
Proof.
  intros c id data rest u Htxt Hsel Hid. subst u. cbv zeta.
  rewrite (handleSendMessage_succeeds c id data rest Htxt Hsel Hid).
  cbn. unfold renderedMessages. rewrite rev_app_distr. simpl.
  split; [reflexivity |]. split; [reflexivity |].
  intros Hsorted Hpos. constructor; [exact Hsorted |].
  apply List.Forall_forall. intros x Hx. apply in_rev in Hx.
  rewrite List.Forall_forall in Hpos. apply (Hpos x Hx).
Qed.

Lemma withPreview_absent id m cs :
  Forall (fun chat => chat_id chat <> Some id) cs -> withPreview (Some id) m cs = cs.
Proof.
  induction 1 as [| chat cs Hc _ IH]; [reflexivity |].
  unfold withPreview in *. cbn [map]. rewrite IH, strict_eq_Some.
  rewrite bool_decide_eq_false_2 by exact Hc. reflexivity.
Qed.

Lemma withPreview_length sel m cs : length (withPreview sel m cs) = length cs.
Proof. apply length_map. Qed.

(** X4.  When no entry of the chat list has the id of the selected
    conversation, a successful send still appends the message to the thread
    and empties the input, and the chat list is what it was: no preview
    shows the message. *)
Theorem send_to_unlisted_conversation_updates_no_preview :
  forall (c : Config) (id : string) (data : Data) (rest : list Reply),
    let u := ui (world c) in
    trim (newMessage u) <> [] ->
    selectedChatId u = Some id ->
    id <> "" ->
    Forall (fun chat => chat_id chat <> Some id) (chats u) ->
    let c' := snd (fst (run (handleSendMessage u) (Response true (Some data) :: rest) c)) in
    chats (ui (world c')) = chats u /\
    messages (ui (world c')) = messages u ++ [newMsg data (newMessage u)] /\
    newMessage (ui (world c')) = [].
Proof.
  intros c id data rest u Htxt Hsel Hid Habsent. subst u. cbv zeta.
  rewrite (handleSendMessage_succeeds c id data rest Htxt Hsel Hid).
  cbn. rewrite (withPreview_absent _ _ _ Habsent). auto.
Qed.

(** ** The event loop and the effect on [selectedChatId] *)

Lemma run_resume {A : Type} (t : Task A) :
  forall rq k c1 rs r rs' c,
    run t rs c = (Suspended rq k, c1, []) ->
    run t (rs ++ r :: rs') c =
    run (k (fst (settle rq r (world c1)))) rs'
        {| world := snd (settle rq r (world c1)); pending := pending c1 |}.
Proof.
  induction t as [A o | A e k0 IH | A k0 IH | A rq0 k0 IH | A child _ k0 IH];
    intros rq k c1 rs r rs' c H; simpl in *.
  - discriminate H.
  - apply IH, H.
  - apply IH, H.
  - destruct rs as [| r0 rs0]; simpl.
    + injection H as <- <- <-. destruct (settle rq0 r _) as [r' w']. reflexivity.
    + destruct (settle rq0 r0 _) as [r' w']. apply IH, H.
  - destruct (run child [] c) as [[o c0] ?]. apply IH, H.
Qed.

(** A task that waits for a reply and is resumed by the event loop does what
    it does when the reply is at hand. *)
Lemma settle_resumes t rq k c1 rs r c :
  run t rs c = (Suspended rq k, c1, []) ->
  pending c1 = pending c ->
  dispatch (Settle (length (pending c)) r) (finish (run t rs c)) =
  finish (run t (rs ++ [r]) c).
Proof.
  intros Hrun Hp. rewrite (run_resume t _ _ _ rs r [] c Hrun), Hrun.
  unfold finish, park, dispatch, spawn. cbn [pending world].
  rewrite <- Hp, list_lookup_middle by reflexivity.
  destruct (settle rq r (world c1)) as [r' w']. cbn [fst snd].
  rewrite delete_middle, app_nil_r. reflexivity.
Qed.

Lemma spawn_finish t c : spawn t c = finish (run t [] c).
Proof. reflexivity. Qed.

Lemma settle_http m url h p r w :
  settle (Http m url h p) r w = (settled (Http m url h p) r w, w).
Proof. destruct r; reflexivity. Qed.

Lemma settled_response m url h p ok d w :
  settled (Http m url h p) (Response ok d) w = Response ok d.
Proof. reflexivity. Qed.

Lemma messages_of_settled m url h p r w :
  messages_of (settled (Http m url h p) r w) = messages_of r.
Proof. destruct r; reflexivity. Qed.

Lemma dispatch_Settle_http c l1 l2 m url h p k r :
  pending c = l1 ++ (Http m url h p, k) :: l2 ->
  dispatch (Settle (length l1) r) c =
  spawn (k (settled (Http m url h p) r (world c)))
        {| world := world c; pending := l1 ++ l2 |}.
Proof.
  intros Hp. unfold dispatch. rewrite Hp, list_lookup_middle by reflexivity.
  rewrite settle_http, delete_middle. reflexivity.
Qed.

(** The click on an entry of the chat list that is not the selected one. *)
Lemma SelectChat_starts c i chat id :
  chats (ui (world c)) !! i = Some chat ->
  chat_id chat = Some id ->
  id <> "" ->
  selectedChatId (ui (world c)) <> Some id ->
  exists k,
    dispatch (SelectChat i) c =
    {| world := replay [Eff (SetSelectedChatId (Some id)); Eff (SetLoading true);
                        Req (effectRequest (Some id) (WHAPI_ACCESS_TOKEN initialVars))]
                       (world c);
       pending := pending c ++
                  [(effectRequest (Some id) (WHAPI_ACCESS_TOKEN initialVars), k)] |} /\
    answers_messages k.
Proof.
  intros Hi Hid Hne Hsel.
  unfold dispatch. rewrite Hi, Hid.
  rewrite bool_decide_eq_false_2 by (intros E; apply Hsel; symmetry; exact E).
  cbv zeta. rewrite (in_render_selected c (Some id))
    by (intros E; apply Hsel; symmetry; exact E).
  unfold spawn, SelectedChatEffect.fetchMessagesWithRetry.
  rewrite (truthy_id_Some _ Hne). cbn.
  eexists. split; [reflexivity |]. split.
  - intros ms c0. reflexivity.
  - intros r c0 Hr.
    pose (logged e := Eff (ConsoleError "Failed to fetch messages:" (Some e))).
    destruct r as [e | [] [[] |] | d |]; try discriminate Hr;
      lazymatch type of Hr with
      | messages_of (Rejected ?e) = _ => exists [logged e]
      | messages_of (Response true None) = _ =>
          exists [logged (JsError "Failed to fetch messages")]
      | messages_of (Response true (Some _)) = _ =>
          exists [Eff (ConsoleLog "Messages:");
                  logged (TypeError "Cannot read properties of undefined (reading 'map')")]
      | messages_of (Response false _) = _ =>
          exists [logged (JsError "Request failed with status code")]
      | _ => exists [logged (TypeError "Network Error")]
      end; split; reflexivity.
Qed.

Lemma ui_replay_quiet mid w : forallb quiet mid = true -> ui (replay mid w) = ui w.
Proof.
  revert w. induction mid as [| ev mid IH]; intros w H; [reflexivity |].
  simpl in H. apply andb_prop in H as [Hev Hmid].
  change (replay (ev :: mid) w) with (replay mid (replay1 w ev)).
  rewrite IH by exact Hmid.
  destruct ev as [[] | []]; try discriminate Hev; reflexivity.
Qed.

(** What the continuation of the effect's fetch does to the cells, whatever
    the reply. *)
Lemma answers_messages_ui k r c0 :
  answers_messages k ->
  let u := ui (world c0) in
  let u' := ui (world (spawn (k r) c0)) in
  selectedChatId u' = selectedChatId u /\
  chats u' = chats u /\
  messages u' = default (messages u) (map toMessage <$> messages_of r) /\
  isLoading u' = false /\
  pending (spawn (k r) c0) = pending c0.
Proof.
  intros [Hok Hfail]. destruct (messages_of r) as [ms |] eqn:Hr.
  - apply messages_of_Some in Hr as ->. rewrite Hok. cbn. auto.
  - destruct (Hfail r c0 Hr) as (mid & Hq & ->).
    cbv zeta. unfold on_world. cbn [world pending]. rewrite replay_app.
    cbn. rewrite (ui_replay_quiet _ _ Hq). auto.
Qed.

Lemma answers_messages_trace k r c0 :
  answers_messages k ->
  exists evs,
    trace (world (spawn (k r) c0)) = trace (world c0) ++ evs /\
    forall url, attempts url evs = 0.
Proof.
  intros [Hok Hfail]. destruct (messages_of r) as [ms |] eqn:Hr.
  - apply messages_of_Some in Hr as ->. rewrite Hok.
    eexists. split; [apply trace_replay | reflexivity].
  - destruct (Hfail r c0 Hr) as (mid & Hq & ->).
    eexists. split; [apply trace_replay |].
    intros url. rewrite attempts_app, (quiet_attempts _ _ Hq). reflexivity.
Qed.

(** X5.  Two conversations are clicked one after the other, and the reply for
    the first arrives after the reply for the second.  Whatever the second
    reply was, the thread then shows the messages of the first conversation
    while the second one is selected. *)
Theorem late_reply_of_previous_conversation_is_shown :
  forall (c : Config) (i j : nat) (chat1 chat2 : Chat) (a b : string)
         (rB : Reply) (msA : list RemoteMessage),
    let u := ui (world c) in
    let n := length (pending c) in
    chats u !! i = Some chat1 -> chat_id chat1 = Some a -> a <> "" ->
    chats u !! j = Some chat2 -> chat_id chat2 = Some b -> b <> "" ->
    a <> b -> selectedChatId u <> Some a ->
    let c' := dispatch_all
                [SelectChat i; SelectChat j;
                 Settle (S n) rB;
                 Settle n (Response true (Some (MessagesData msA)))] c in
    selectedChatId (ui (world c')) = Some b /\
    messages (ui (world c')) = map toMessage msA /\
    isLoading (ui (world c')) = false /\
    pending c' = pending c.
Proof.
  intros c i j chat1 chat2 a b rB msA u n Hi Ha Hane Hj Hb Hbne Hab Hsel c'.
  subst c' u n. unfold dispatch_all. cbn [fold_left].
  destruct (SelectChat_starts c i chat1 a Hi Ha Hane Hsel) as (kA & -> & HkA).
  match goal with |- context [dispatch (SelectChat j) ?c1] =>
    destruct (SelectChat_starts c1 j chat2 b) as (kB & -> & HkB) end;
    [exact Hj | exact Hb | exact Hbne | cbn; congruence |].
  cbn [pending world].
  match goal with |- context [(?l ++ [?x]) ++ [(?rq, kB)]] =>
    replace (S (length l)) with (length (l ++ [x]))
      by (rewrite length_app; simpl; lia);
    erewrite (dispatch_Settle_http _ (l ++ [x]) [] _ _ _ _ kB rB); [| reflexivity]
  end.
  match goal with |- context [spawn (kB ?r) ?c0] =>
    destruct (answers_messages_ui kB r c0 HkB) as (Hs & _ & _ & _ & Hp);
    set (cB := spawn (kB r) c0) in * end.
  cbn [pending world] in Hp. rewrite app_nil_r in Hp.
  rewrite (dispatch_Settle_http cB (pending c) [] _ _ _ _ kA _ Hp).
  match goal with |- context [spawn (kA ?r) ?c0] =>
    destruct (answers_messages_ui kA r c0 HkA) as (Hs' & _ & Hm & Hl & Hp') end.
  cbn [world pending] in *. rewrite Hs', Hs, Hm, Hl, Hp', app_nil_r.
  repeat split.
Qed.

(** X6.  When the fetch that follows the selection of a conversation fails,
    in whatever way, it is not repeated: one request was issued and nothing
    is awaited.  The conversation stays selected, the flag is lowered, and the
    thread and the chat list are what they were before the click. *)
Theorem failed_fetch_keeps_previous_thread :
  forall (c : Config) (i : nat) (chat : Chat) (id : string) (r : Reply),
    let u := ui (world c) in
    chats u !! i = Some chat ->
    chat_id chat = Some id ->
    id <> "" ->
    selectedChatId u <> Some id ->
    messages_of r = None ->
    let c' := dispatch_all [SelectChat i; Settle (length (pending c)) r] c in
    selectedChatId (ui (world c')) = Some id /\
    messages (ui (world c')) = messages u /\
    chats (ui (world c')) = chats u /\
    isLoading (ui (world c')) = false /\
    pending c' = pending c /\
    exists evs,
      trace (world c') = trace (world c) ++ evs /\
      attempts (messagesUrl (Some id)) evs = 1.
Proof.
  intros c i chat id r u Hi Hid Hne Hsel Hr c'. subst c' u.
  unfold dispatch_all. cbn [fold_left].
  destruct (SelectChat_starts c i chat id Hi Hid Hne Hsel) as (k & -> & Hk).
  erewrite (dispatch_Settle_http _ (pending c) [] _ _ _ _ k r); [| reflexivity].
  match goal with |- context [spawn (k ?r') ?c0] =>
    destruct (answers_messages_ui k r' c0 Hk) as (Hs & Hc & Hm & Hl & Hp);
    destruct (answers_messages_trace k r' c0 Hk) as (evs & Ht & Ha);
    rewrite messages_of_settled, Hr in Hm end.
  cbn [world pending] in *. rewrite Hs, Hc, Hm, Hl, Hp, Ht, app_nil_r.
  repeat split.
  eexists. rewrite trace_replay, <- app_assoc. split; [reflexivity |].
  rewrite attempts_app, Ha. unfold attempts. simpl. rewrite String.eqb_refl. reflexivity.
Qed.

(** ** Sends in flight *)

Lemma SendMessage_starts c id :
  let u := ui (world c) in
  trim (newMessage u) <> [] ->
  selectedChatId u = Some id ->
  id <> "" ->
  exists k,
    let rq := sendRequest (Some id) (WHAPI_ACCESS_TOKEN (bindings (world c))) (newMessage u) in
    dispatch SendMessage c =
    {| world := record (Req rq) (world c); pending := pending c ++ [(rq, k)] |} /\
    answers_send u id k.
Proof.
  intros u Htxt Hsel Hid. subst u.
  unfold dispatch, spawn, in_render, bindings, handleSendMessage.
  rewrite (truthy_trim _ Htxt), Hsel, (truthy_id_Some _ Hid).
  destruct (rerendered (world c)); cbn;
    (eexists; split; [reflexivity |]); intros data c0; reflexivity.
Qed.

Lemma two_sends_in_flight c id d1 d2 :
  let u := ui (world c) in
  trim (newMessage u) <> [] ->
  selectedChatId u = Some id ->
  id <> "" ->
  let rq := sendRequest (Some id) (WHAPI_ACCESS_TOKEN (bindings (world c))) (newMessage u) in
  let sent d := newMsg d (newMessage u) in
  dispatch_all [SendMessage; SendMessage;
                Settle (length (pending c)) (Response true (Some d1));
                Settle (length (pending c)) (Response true (Some d2))] c =
  on_world (replay
    [Req rq; Req rq;
     Eff (SetMessages (messages u ++ [sent d1]));
     Eff (SetChats (withPreview (Some id) (sent d1) (chats u)));
     Eff (SetNewMessage []);
     Eff (SetMessages (messages u ++ [sent d2]));
     Eff (SetChats (withPreview (Some id) (sent d2) (chats u)));
     Eff (SetNewMessage [])]) c.
Proof.
  intros u Htxt Hsel Hid rq sent. subst u rq sent.
  unfold dispatch_all. cbn [fold_left].
  destruct (SendMessage_starts c id Htxt Hsel Hid) as (k1 & -> & Hk1).
  match goal with |- context [dispatch SendMessage ?c1] =>
    destruct (SendMessage_starts c1 id Htxt Hsel Hid) as (k2 & -> & Hk2) end.
  cbn [world pending ui vars record] in *.
  rewrite <- app_assoc. cbn [app].
  erewrite (dispatch_Settle_http _ (pending c) [_] _ _ _ _ k1 (Response true (Some d1)));
    [| reflexivity].
  rewrite settled_response, Hk1. cbn [on_world world pending].
  erewrite (dispatch_Settle_http _ (pending c) [] _ _ _ _ k2); [| reflexivity].
  rewrite settled_response, Hk2. cbn [on_world world pending].
  rewrite app_nil_r. reflexivity.
Qed.

(** X7.  The send is triggered twice before the first request is answered,
    and both requests succeed.  Two requests were issued, yet the thread ends
    as the thread of the click followed by one message, the one answered
    last; the previews show that message too. *)
Theorem of_two_sends_the_last_answered_is_shown :
  forall (c : Config) (id : string) (d1 d2 : Data),
    let u := ui (world c) in
    let n := length (pending c) in
    trim (newMessage u) <> [] ->
    selectedChatId u = Some id ->
    id <> "" ->
    let c' := dispatch_all
                [SendMessage; SendMessage;
                 Settle n (Response true (Some d1));
                 Settle n (Response true (Some d2))] c in
    messages (ui (world c')) = messages u ++ [newMsg d2 (newMessage u)] /\
    chats (ui (world c')) = withPreview (Some id) (newMsg d2 (newMessage u)) (chats u) /\
    pending c' = pending c /\
    exists evs,
      trace (world c') = trace (world c) ++ evs /\
      attempts sendUrl evs = 2.
Proof.
  intros c id d1 d2 u n Htxt Hsel Hid c'. subst c' u n.
  rewrite (two_sends_in_flight c id d1 d2 Htxt Hsel Hid).
  change (world (on_world ?f ?x)) with (f (world x)).
  rewrite messages_replay, chats_replay.
  repeat split.
  eexists. split; [apply trace_replay | reflexivity].
Qed.

(** ** The context menu *)

(** X8.  A call of [handleContextMenu] on a message does nothing when the
    document has no context-menu element.  Otherwise it selects the message;
    when no message was selected before, nothing is requested; when one was,
    that earlier message is forwarded, with the id of the message just
    clicked as the chat id, and whatever the reply, the cells keep their
    values. *)
Theorem context_menu_forwards_the_previous_selection :
  forall (c : Config) (i : nat) (message : Message),
    let u := ui (world c) in
    messages u !! i = Some message ->
    dispatch (ContextMenu i false) c = c /\
    let c' := dispatch (ContextMenu i true) c in
    selectedMessage (ui (world c')) = Some message /\
    match selectedMessage u with
    | None =>
        pending c' = pending c /\
        trace (world c') = trace (world c) ++ [Eff (SetSelectedMessage (Some message))]
    | Some previous =>
        exists h k,
          pending c' =
          pending c ++ [(Http "POST" forwardUrl h
                           (ForwardBody (msg_id message) (msg_id previous)), k)] /\
          forall r,
            let c'' := dispatch (Settle (length (pending c)) r) c' in
            ui (world c'') = ui (world c') /\ pending c'' = pending c
    end.
Proof.
  intros c i message u Hi. subst u.
  unfold dispatch. rewrite Hi.
  unfold in_render, handleContextMenu, showContextMenu, handleForwardToChat, spawn.
  split; [destruct (rerendered (world c)); reflexivity |].
  destruct (selectedMessage (ui (world c))) as [previous |] eqn:Hprev;
    destruct (rerendered (world c)); cbn.
  1, 2: split; [reflexivity |]; eexists _, _; split; [reflexivity |];
    intros r; rewrite list_lookup_middle by reflexivity; rewrite delete_middle, app_nil_r;
    destruct r as [e | [] d | d |]; cbn; split; reflexivity.
  all: repeat split.
Qed.

(** ** The refresh and the source icons *)

Lemma RefreshClick_spawns c :
  dispatch RefreshClick c =
  finish (run (in_render (world c) (Refresh.fetchChatsWithRetry (ui (world c)))) []
              (on_world (apply_effect (ConsoleLog "Refresh clicked")) c)).
Proof.
  unfold dispatch, handleRefreshClick, spawn, finish, in_render.
  destruct (rerendered (world c)); cbn -[Refresh.fetchChatsWithRetry].
  - destruct (run (later_render (Refresh.fetchChatsWithRetry _)) [] _) as [[o c1] ?].
    reflexivity.
  - destruct (run (Refresh.fetchChatsWithRetry _) [] _) as [[o c1] ?]. reflexivity.
Qed.

(** X9.  After a click on refresh, when the chat list arrives and a
    conversation is selected, the chat list is replaced, the thread is left
    as it was, and the messages of the selected conversation are requested
    without being awaited: the loading flag is down while that request is
    pending. *)
Theorem refresh_lowers_the_flag_while_messages_load :
  forall (c : Config) (id : string) (cs : list Chat),
    let u := ui (world c) in
    selectedChatId u = Some id ->
    id <> "" ->
    let c' := dispatch_all
                [RefreshClick;
                 Settle (length (pending c)) (Response true (Some (ChatsData cs)))] c in
    chats (ui (world c')) = map copyChat cs /\
    messages (ui (world c')) = messages u /\
    isLoading (ui (world c')) = false /\
    exists h k,
      pending c' = pending c ++ [(Http "GET" (messagesUrl (Some id)) h NoBody, k)].
Proof.
  intros c id cs u Hsel Hid c'. subst c' u.
  unfold dispatch_all. cbn [fold_left].
  rewrite RefreshClick_spawns.
  unfold in_render, Refresh.fetchChatsWithRetry, Refresh.fetchMessagesWithRetry,
    retryFetchMessages.
  rewrite Hsel, (truthy_id_Some _ Hid). cbn [negb].
  change (length (pending c))
    with (length (pending (on_world (apply_effect (ConsoleLog "Refresh clicked")) c))).
  destruct (rerendered (world c));
    (erewrite settle_resumes; [| reflexivity | reflexivity]);
    cbn;
    (split; [reflexivity |]); (split; [reflexivity |]); (split; [reflexivity |]);
    eexists _, _; reflexivity.
Qed.

(** The loop of [fetchMessagesWithRetry], called without [await] with a
    conversation selected, stops at its first request. *)
Lemma retryFetchMessages_suspends n retryDelay sel c :
  truthy_id sel = true ->
  let rq := messagesRequest sel (WHAPI_ACCESS_TOKEN (vars (world c))) in
  exists k,
    run (retryFetchMessages (S n) retryDelay sel) [] c =
    (Suspended rq k, on_world (replay [Eff (SetLoading true); Req rq]) c, []).
Proof.
  intros Hsel rq. unfold retryFetchMessages. rewrite Hsel. cbn [negb].
  rewrite run_bind. cbn [while_retry]. change (0 <? S n)%nat with true. cbv iota.
  rewrite run_bind. cbn -[while_retry]. eexists. reflexivity.
Qed.

Lemma later_retryFetchMessages_suspends n retryDelay sel c :
  truthy_id sel = true ->
  let rq := messagesRequest sel (WHAPI_ACCESS_TOKEN initialVars) in
  exists k,
    run (later_render (retryFetchMessages (S n) retryDelay sel)) [] c =
    (Suspended rq k, on_world (replay [Eff (SetLoading true); Req rq]) c, []).
Proof.
  intros Hsel rq. unfold retryFetchMessages. rewrite Hsel. cbn [negb].
  unfold bind at 1. cbn [while_retry]. change (0 <? S n)%nat with true. cbv iota.
  cbn -[while_retry]. eexists. reflexivity.
Qed.

(** X10.  A click on a source icon other than WhatsApp empties the thread
    and leaves the conversation selected; a click on the entry of that
    conversation then changes nothing and requests nothing, so the thread
    stays empty.  A click on the WhatsApp icon requests its messages. *)
Theorem another_source_empties_the_thread_until_whatsapp_is_clicked :
  forall (c : Config) (icon : string) (i : nat) (chat : Chat) (id : string),
    let u := ui (world c) in
    chats u !! i = Some chat ->
    chat_id chat = Some id ->
    selectedChatId u = Some id ->
    id <> "" ->
    let c1 := dispatch_all [IconClick icon; SelectChat i] c in
    messages (ui (world c1)) = [] /\
    selectedChatId (ui (world c1)) = Some id /\
    selectedIcon (ui (world c1)) = Some icon /\
    pending c1 = pending c /\
    attempts (messagesUrl (Some id)) (trace (world c1)) =
      attempts (messagesUrl (Some id)) (trace (world c)) /\
    let c2 := dispatch (WhatsappClick "ws") c1 in
    isLoading (ui (world c2)) = true /\
    exists h k, pending c2 = pending c ++ [(Http "GET" (messagesUrl (Some id)) h NoBody, k)].
Proof.
  intros c icon i chat id u Hi Hid Hsel Hne c1. subst c1 u.
  unfold dispatch_all. cbn [fold_left].
  assert (H1 : dispatch (IconClick icon) c =
               on_world (replay [Eff (SetMessages []); Eff (SetSelectedIcon (Some icon))]) c)
    by (unfold dispatch, in_render; destruct (rerendered (world c)); reflexivity).
  rewrite H1.
  assert (H2 : forall c0, chats (ui (world c0)) !! i = Some chat ->
                          selectedChatId (ui (world c0)) = Some id ->
                          dispatch (SelectChat i) c0 = c0).
  { intros c0 Hc Hs. unfold dispatch. rewrite Hc, Hid, Hs.
    rewrite bool_decide_eq_true_2 by reflexivity. reflexivity. }
  rewrite H2 by (cbn; assumption).
  change (world (on_world ?f ?x)) with (f (world x)).
  rewrite messages_replay, trace_replay, attempts_app.
  split; [reflexivity |]. split; [exact Hsel |]. split; [reflexivity |].
  split; [reflexivity |]. split; [cbn; lia |].
  unfold dispatch, handleWhatsappClick, WhatsappClick.fetchMessagesWithRetry, spawn.
  change (selectedChatId (ui (world (on_world ?f ?x)))) with (selectedChatId (ui (f (world x)))).
  cbn [replay fold_left replay1 apply_effect ui_after record ui selectedChatId].
  rewrite Hsel.
  assert (Hr : forall {A : Type} (t : Task A),
             in_render (world (on_world (replay [Eff (SetMessages []);
                                                 Eff (SetSelectedIcon (Some icon))]) c)) t
             = later_render t).
  { intros A t. unfold in_render. cbn. rewrite orb_true_r. reflexivity. }
  rewrite Hr. cbn -[retryFetchMessages].
  match goal with |- context [run (later_render (retryFetchMessages _ ?d ?sel)) [] ?c0] =>
    destruct (later_retryFetchMessages_suspends 19 d sel c0 (truthy_id_Some _ Hne))
      as (k & Hk) end.
  change WhatsappClick.maxRetries with 20. rewrite Hk. cbn.
  split; [reflexivity |]. eexists _, _. reflexivity.
Qed.

(** ** The load *)

(** X11.  The fetch of the chat list on load, retry in its name, makes one
    attempt whatever the reply: it finishes without throwing, has issued one
    request and started no timer, and leaves the flag down; the chat list is
    replaced when the reply carries one and is untouched otherwise, and the
    thread is untouched. *)
Theorem fetch_on_load_is_attempted_once :
  forall (r : Reply) (rest : list Reply) (c : Config),
    let x := run fetchChatsWithRetry (r :: rest) c in
    let u := ui (world c) in
    let u' := ui (world (snd (fst x))) in
    (exists o, fst (fst x) = Finished o) /\
    not_thrown (fst (fst x)) /\
    snd x = rest /\
    (exists evs,
        events_of x = trace (world c) ++ evs /\
        attempts chatsUrl evs = 1 /\
        waited evs = 0) /\
    isLoading u' = false /\
    chats u' = default (chats u) (map copyChat <$> chats_of r) /\
    messages u' = messages u.
Proof.
  intros r rest c.
  destruct r as [e | [] [[] |] | d |]; cbn;
    (split; [eexists; reflexivity |]); (split; [exact I |]); (split; [reflexivity |]);
    (split; [eexists; rewrite <- ?app_assoc; split; [reflexivity |]; split; reflexivity |]);
    repeat split.
Qed.

Lemma Mount_spawns user c :
  truthy_id (selectedChatId (ui (world c))) = false ->
  dispatch (Mount user) c = finish (run (ghlToken user) [] c).
Proof.
  intros Hsel. unfold dispatch. rewrite <- spawn_finish.
  generalize (spawn (ghlToken user) c). intros c1.
  unfold spawn, SelectedChatEffect.fetchMessagesWithRetry. rewrite Hsel.
  reflexivity.
Qed.

(** X12.  The component mounts with no conversation selected and the
    document of the user's company exists.  Once the document is read and the
    chat list has arrived, the chat list is shown and the flag is down; two
    HTTP requests were issued, the one for the chat list with the gateway
    token of the document as bearer, then the token exchange with the
    credentials of the document, which is the one awaited. *)
Theorem chat_list_is_loaded_with_the_token_of_the_document :
  forall (user : option User) (data : Doc) (cs : list Chat) (c : Config),
    let u := ui (world c) in
    let n := length (pending c) in
    truthy_id (selectedChatId u) = false ->
    store (world c) !! resolvedCompanyId user (vars (world c)) = Some data ->
    let c' := dispatch_all
                [Mount user; Settle n Resolved;
                 Settle n (Response true (Some (ChatsData cs)))] c in
    chats (ui (world c')) = map copyChat cs /\
    isLoading (ui (world c')) = false /\
    (exists k, pending c' = pending c ++ [(exchangeRequest (configOf data), k)]) /\
    exists evs,
      trace (world c') = trace (world c) ++ evs /\
      List.filter is_http evs =
      [Req (loadRequest (data !! "whapiToken")); Req (exchangeRequest (configOf data))].
Proof.
  intros user data cs c u n Hsel Hdoc c'. subst c' u n.
  unfold dispatch_all. cbn [fold_left].
  rewrite (Mount_spawns _ _ Hsel).
  unfold ghlToken, fetchConfigFromDatabase, resolvedCompanyId in *.
  destruct (email_is user "admin@beverly.com");
    [| destruct (email_is user "admin@billert.com")].
  all: erewrite settle_resumes; [| reflexivity | reflexivity].
  all: erewrite settle_resumes; [| cbn; rewrite Hdoc; reflexivity | reflexivity].
  all: cbn; rewrite Hdoc; cbn.
  all: split; [reflexivity |]; split; [reflexivity |]; split; [eexists; reflexivity |].
  all: eexists; rewrite <- !app_assoc; split; [reflexivity |]; reflexivity.
Qed.

(** X13.  When the company of the user has no document, the loader logs it
    and returns: the chat list is not requested and no cell changes.  The
    refresh goes on to the token exchange all the same, with the credentials
    as they stood before the load. *)
Theorem missing_company_document_skips_the_chat_list :
  forall (user : option User) (c : Config),
    store (world c) !! resolvedCompanyId user (vars (world c)) = None ->
    exists k c' evs,
      run (ghlToken user) [Resolved] c =
      (Suspended (exchangeRequest (ghlConfig (vars (world c)))) k, c', []) /\
      trace (world c') = trace (world c) ++ evs /\
      In (Eff (ConsoleLog "No such document!")) evs /\
      attempts chatsUrl evs = 0 /\
      ui (world c') = ui (world c) /\
      ghlConfig (vars (world c')) = ghlConfig (vars (world c)) /\
      WHAPI_ACCESS_TOKEN (vars (world c')) = WHAPI_ACCESS_TOKEN (vars (world c)).
Proof.
  intros user c Hdoc. unfold ghlToken, fetchConfigFromDatabase, resolvedCompanyId in *.
  destruct (email_is user "admin@beverly.com");
    [| destruct (email_is user "admin@billert.com")];
    cbn; rewrite Hdoc; cbn;
    eexists _, _, _; (split; [reflexivity |]); cbn; rewrite <- ?app_assoc;
    (split; [reflexivity |]); (split; [simpl; tauto |]); repeat split.
Qed.

(** ** Where the tokens go *)

Section TokenWrite.
Variables (user : option User) (data : Doc) (rchats : Reply) (c : Config).
Hypothesis Hdoc : store (world c) !! resolvedCompanyId user (vars (world c)) = Some data.

Opaque fetchConfigFromDatabase.

Lemma ghlToken_exchanges_and_persists access refresh r rest :
  exists c' evs,
    run (ghlToken user)
        (Resolved :: rchats :: Response true (Some (TokenData access refresh))
           :: Resolved :: r :: rest) c =
    (Finished (Normal tt), c', rest) /\
    trace (world c') = trace (world c) ++ evs /\
    store (world c') =
    <["014" := list_to_map [("access_token", access); ("refresh_token", refresh)]
               ∪ default ∅ (store (world c) !! "014")]> (store (world c)) /\
    List.filter (is_request oauthUrl) evs = [Req (exchangeRequest (configOf data))].
Proof.
  after_config user data rchats
    (Response true (Some (TokenData access refresh)) :: Resolved :: r :: rest) c Hdoc.
  destruct r as [e | [] d | d |]; cbn;
    eexists _, _; (split; [reflexivity |]); cbn;
    rewrite ?Ht, ?Hs, <- ?app_assoc; (split; [reflexivity |]);
    (split; [reflexivity |]);
    rewrite List.filter_app;
    (rewrite (proj1 (length_zero_iff_nil (List.filter (is_request oauthUrl) evs1))) by exact Ha);
    reflexivity.
Qed.

Transparent fetchConfigFromDatabase.
End TokenWrite.

(** X14.  Whoever is signed in, when the document of the user's company
    exists and the exchange succeeds, the exchange was made once, with the
    credentials of that document, and the refresh completes normally.  The
    two new tokens are then fields of the document '014'; its other fields,
    and every other document, are what they were. *)
Theorem refreshed_tokens_are_merged_into_document_014 :
  forall (user : option User) (data : Doc) (rchats : Reply) (c : Config)
         (access refresh : string) (r : Reply) (rest : list Reply),
    store (world c) !! resolvedCompanyId user (vars (world c)) = Some data ->
    let x := run (ghlToken user)
                 (Resolved :: rchats :: Response true (Some (TokenData access refresh))
                    :: Resolved :: r :: rest) c in
    let s := store (world c) in
    let s' := store (world (snd (fst x))) in
    fst (fst x) = Finished (Normal tt) /\
    (exists evs,
        events_of x = trace (world c) ++ evs /\
        List.filter (is_request oauthUrl) evs = [Req (exchangeRequest (configOf data))]) /\
    field s' "014" "access_token" = Some access /\
    field s' "014" "refresh_token" = Some refresh /\
    (forall key, key <> "access_token" -> key <> "refresh_token" ->
                 field s' "014" key = field s "014" key) /\
    (forall company, company <> "014" -> s' !! company = s !! company).
Proof.
  intros user data rchats c access refresh r rest Hdoc x s s'. subst x s s'.
  destruct (ghlToken_exchanges_and_persists user data rchats c Hdoc access refresh r rest)
    as (c' & evs & -> & Ht & Hs & Hx).
  unfold events_of. cbn [fst snd]. rewrite Hs.
  split; [reflexivity |]. split; [exists evs; auto |].
  unfold field. rewrite lookup_insert_eq.
  split; [apply lookup_union_Some_l; reflexivity |].
  split; [apply lookup_union_Some_l; reflexivity |].
  split.
  - intros key Ha Hr. rewrite lookup_union_r.
    + destruct (store (world c) !! "014"); [reflexivity | apply lookup_empty].
    + cbn. rewrite !lookup_insert_ne by congruence. apply lookup_empty.
  - intros company Hne. apply lookup_insert_ne. congruence.
Qed.

(** ** The loading flag, globally *)

Lemma flag_wp_impl {A : Type} (t : Task A) :
  forall owed (Q Q' : Completion A -> bool -> Prop),
    (forall r o, Q r o -> Q' r o) -> flag_wp t owed Q -> flag_wp t owed Q'.
Proof.
  induction t as [A r | A e k IH | A k IH | A rq k IH | A child _ k IH];
    intros owed Q Q' HQ H; simpl in *; eauto.
  destruct H as [Hc Hk]. split; [exact Hc | eauto].
Qed.

Lemma flag_wp_owed {A : Type} (t : Task A) :
  forall (Q : Completion A -> bool -> Prop),
    (forall r, Q r true -> Q r false) -> flag_wp t true Q -> flag_wp t false Q.
Proof.
  induction t as [A r | A e k IH | A k IH | A rq k IH | A child _ k IH];
    intros Q HQ H; simpl in *; eauto.
  - destruct e; eauto.
  - destruct H as [Hc Hk]. split; [exact Hc | eauto].
Qed.

Lemma flag_wp_on_completion {A : Type} (t : Task A) :
  forall {B : Type} (f : Completion A -> Task B) owed Q,
    flag_wp t owed (fun r o => flag_wp (f r) o Q) ->
    flag_wp (on_completion t f) owed Q.
Proof.
  induction t as [A r | A e k IH | A k IH | A rq k IH | A child _ k IH];
    intros B f owed Q H; simpl in *; eauto.
  destruct H as [Hc Hk]. split; [exact Hc | eauto].
Qed.

Lemma neutral_seq {A B : Type} (t : Task A) (f : Completion A -> Task B) :
  neutral t -> (forall r, neutral (f r)) -> neutral (on_completion t f).
Proof.
  intros Ht Hf. apply flag_wp_on_completion.
  eapply flag_wp_impl; [| exact Ht]. intros r o ->. apply Hf.
Qed.

Lemma flag_wp_after_neutral {A B : Type} (t : Task A) (f : Completion A -> Task B) Q :
  neutral t -> (forall r, flag_wp (f r) false Q) -> flag_wp (on_completion t f) false Q.
Proof.
  intros Ht Hf. apply flag_wp_on_completion.
  eapply flag_wp_impl; [| exact Ht]. intros r o ->. apply Hf.
Qed.

Lemma neutral_call {A : Type} (t : Task A) : neutral t -> neutral (call t).
Proof. intros Ht. apply neutral_seq; [exact Ht |]. intros [a | | e]; reflexivity. Qed.

Lemma neutral_while fuel maxRetries body :
  (forall rc, neutral (body rc)) -> forall rc, neutral (while_retry fuel maxRetries body rc).
Proof.
  intros Hbody. induction fuel as [| fuel IH]; intros rc; simpl.
  - destruct (rc <? maxRetries)%nat; reflexivity.
  - destruct (rc <? maxRetries)%nat; [| reflexivity].
    apply neutral_seq; [apply Hbody |]. intros [a | | e]; [apply IH | reflexivity | reflexivity].
Qed.

Lemma isLoading_apply_effect e w :
  isLoading (ui (apply_effect e w)) =
  match e with SetLoading b => b | _ => isLoading (ui w) end.
Proof. destruct e; reflexivity. Qed.

Lemma settle_ui rq r w : ui (snd (settle rq r w)) = ui w.
Proof. destruct rq as [| | ? ? ? []|], r; reflexivity. Qed.

Lemma waits_to_lower_neutral e : waits_to_lower e -> waits_neutral e.
Proof. intros H r. apply flag_wp_owed; [discriminate | apply H]. Qed.

(** Running a task: who owes the lowering of the flag afterwards. *)
Lemma run_flag {A : Type} (t : Task A) :
  forall rs c owed (Q : Completion A -> bool -> Prop) (D : Prop),
    flag_wp t owed Q ->
    Forall waits_neutral (pending c) ->
    (isLoading (ui (world c)) = true ->
     D \/ owed = true \/ Exists waits_to_lower (pending c)) ->
    let c' := snd (fst (run t rs c)) in
    Forall waits_neutral (pending c') /\
    exists owed',
      (isLoading (ui (world c')) = true ->
       D \/ owed' = true \/ Exists waits_to_lower (pending c')) /\
      match fst (fst (run t rs c)) with
      | Finished r => Q r owed'
      | Suspended _ k => forall r, flag_wp (k r) owed' Q
      end.
Proof.
  induction t as [A r | A e k IH | A k IH | A rq k IH | A child IHc k IH];
    intros rs c owed Q D Ht Hp Hf; simpl in *.
  - split; [exact Hp |]. exists owed. auto.
  - apply (IH rs _ _ Q D Ht); [exact Hp |].
    simpl. destruct e; auto.
  - apply (IH (vars (world c)) rs c owed Q D (Ht _) Hp Hf).
  - destruct rs as [| r rs]; simpl.
    + split; [exact Hp |]. exists owed. auto.
    + destruct (settle rq r (record (Req rq) (world c))) as [r' w'] eqn:E.
      apply (IH r' rs _ owed Q D (Ht r')); [exact Hp |].
      simpl. change w' with (snd (r', w')). rewrite <- E, settle_ui. exact Hf.
  - destruct Ht as [Hch Hk].
    specialize (IHc [] c false settled_flag (D \/ owed = true) Hch Hp).
    destruct IHc as (Hp1 & owed1 & Hf1 & Ho1); [tauto |].
    destruct (run child [] c) as [[o c1] rs1]. simpl in *.
    apply (IH rs _ owed Q D Hk).
    + destruct o as [r | rq k1]; simpl; [exact Hp1 |].
      apply Forall_app. split; [exact Hp1 |]. constructor; [| constructor].
      destruct owed1; [apply waits_to_lower_neutral |]; exact Ho1.
    + intros Hl. destruct o as [r | rq k1]; simpl in *.
      * unfold settled_flag in Ho1. subst owed1.
        destruct (Hf1 Hl) as [[HD | Ho] | [Ho | He]]; auto; discriminate.
      * destruct (Hf1 Hl) as [[HD | Ho] | [Ho | He]]; auto.
        -- right. right. apply Exists_app. right. constructor. subst owed1. exact Ho1.
        -- right. right. apply Exists_app. left. exact He.
Qed.

Lemma park_flag o c owed :
  Forall waits_neutral (pending c) ->
  (isLoading (ui (world c)) = true -> False \/ owed = true \/ Exists waits_to_lower (pending c)) ->
  match o with
  | Finished r => @settled_flag unit r owed
  | Suspended _ k => forall r, flag_wp (k r) owed settled_flag
  end ->
  flag_inv (park o c).
Proof.
  intros Hp Hf Ho. destruct o as [r | rq k]; simpl in *.
  - unfold settled_flag in Ho. subst owed. split; [exact Hp |].
    intros Hl. destruct (Hf Hl) as [[] | [? | ?]]; [discriminate | assumption].
  - split.
    + apply Forall_app. split; [exact Hp |]. constructor; [| constructor].
      destruct owed; [apply waits_to_lower_neutral |]; exact Ho.
    + simpl. intros Hl. apply Exists_app.
      destruct (Hf Hl) as [[] | [-> | He]]; [right; constructor; exact Ho | left; exact He].
Qed.

Lemma spawn_flag t c : neutral t -> flag_inv c -> flag_inv (spawn t c).
Proof.
  intros Ht [Hp Hf]. unfold spawn.
  destruct (run_flag t [] c false settled_flag False Ht Hp) as (Hp1 & owed1 & Hf1 & Ho1);
    [auto |].
  destruct (run t [] c) as [[o c1] rs1]. simpl in *.
  apply (park_flag o c1 owed1); assumption.
Qed.

Lemma resume_flag t c owed :
  flag_wp t owed settled_flag ->
  Forall waits_neutral (pending c) ->
  (isLoading (ui (world c)) = true -> owed = true \/ Exists waits_to_lower (pending c)) ->
  flag_inv (spawn t c).
Proof.
  intros Ht Hp Hf. unfold spawn.
  destruct (run_flag t [] c owed settled_flag False Ht Hp) as (Hp1 & owed1 & Hf1 & Ho1);
    [auto |].
  destruct (run t [] c) as [[o c1] rs1]. simpl in *.
  apply (park_flag o c1 owed1); assumption.
Qed.

(** The functions of [Main], one by one. *)
Ltac flag_step :=
  match goal with
  | |- neutral (on_completion (while_retry _ _ _ _) _) => apply neutral_seq
  | |- neutral (bind (while_retry _ _ _ _) _) => apply neutral_seq
  | |- neutral (while_retry _ _ _ _) => apply neutral_while
  | |- neutral (call _) => apply neutral_call
  | |- neutral _ => unfold neutral
  | |- forall _, _ => intro
  | |- _ /\ _ => split
  | |- settled_flag _ _ => reflexivity
  | |- @eq bool _ _ => reflexivity
  | |- flag_wp (on_completion (call _) _) false _ => apply flag_wp_after_neutral
  | |- flag_wp (call _) false _ => unfold call; apply flag_wp_after_neutral
  | |- flag_wp (if ?b then _ else _) _ _ => destruct b
  | |- flag_wp (on_completion (if ?b then _ else _) _) _ _ => destruct b
  | |- flag_wp (match ?x with _ => _ end) _ _ => destruct x
  | |- context [on_completion (match ?x with _ => _ end) _] => destruct x
  | |- flag_wp _ _ _ => progress cbn -[while_retry call fetchChatsWithRetry
                                        fetchConfigFromDatabase searchConversation]
  | |- flag_wp (on_completion (on_completion _ _) _) _ _ => apply flag_wp_on_completion
  end.

Ltac flag_auto := repeat flag_step.

Lemma fetchMessagesAttempt_neutral d sel rc : neutral (fetchMessagesAttempt d sel rc).
Proof.
  unfold neutral, fetchMessagesAttempt, try_finally, try_catch, bind, perform, fetch, json,
    await, data_messages, get, sleep, ret, throw, return_.
  flag_auto.
Qed.

Lemma retryFetchMessages_neutral N d sel : neutral (retryFetchMessages N d sel).
Proof.
  unfold retryFetchMessages. destruct (negb (truthy_id sel)); [reflexivity |].
  apply neutral_seq; [apply neutral_while, fetchMessagesAttempt_neutral |].
  intros [a | | e]; reflexivity.
Qed.

Lemma fetchChatsAttempt_neutral d child rc : neutral child -> neutral (fetchChatsAttempt d child rc).
Proof.
  intros Hc.
  unfold neutral, fetchChatsAttempt, try_finally, try_catch, bind, perform, fetch, json,
    await, data_chats, get, sleep, ret, throw, return_.
  flag_auto; try exact Hc.
Qed.

Lemma retryFetchChats_neutral N d child : neutral child -> neutral (retryFetchChats N d child).
Proof.
  intros Hc. unfold retryFetchChats.
  apply neutral_seq; [apply neutral_while; intros rc; apply fetchChatsAttempt_neutral, Hc |].
  intros [a | | e]; reflexivity.
Qed.

Lemma fetchChatsWithRetry_neutral : neutral fetchChatsWithRetry.
Proof.
  unfold neutral, fetchChatsWithRetry, try_finally, try_catch, bind, perform, axios_request,
    await, data_chats, get, ret, throw, return_.
  flag_auto.
Qed.

Lemma searchConversation_neutral tok : neutral (searchConversation tok).
Proof.
  unfold neutral, searchConversation, try_catch, bind, perform, axios_request, await,
    ret, throw.
  flag_auto.
Qed.

Lemma fetchConfigFromDatabase_neutral user : neutral (fetchConfigFromDatabase user).
Proof.
  unfold neutral, fetchConfigFromDatabase, try_catch, bind, perform, await, get,
    ret, throw, return_.
  flag_auto; apply fetchChatsWithRetry_neutral.
Qed.

Lemma ghlToken_neutral user : neutral (ghlToken user).
Proof.
  unfold neutral, ghlToken, try_catch, bind, perform, axios_request, await, get,
    ret, throw.
  flag_auto; first [apply fetchConfigFromDatabase_neutral | apply searchConversation_neutral].
Qed.

Lemma effect_neutral sel : neutral (SelectedChatEffect.fetchMessagesWithRetry sel).
Proof.
  unfold neutral, SelectedChatEffect.fetchMessagesWithRetry, try_finally, try_catch, bind,
    perform, axios_request, await, data_messages, get, ret, throw, return_.
  flag_auto.
Qed.

Lemma handleIconClick_neutral iconId : neutral (handleIconClick iconId).
Proof. reflexivity. Qed.

Lemma handleWhatsappClick_neutral u iconId : neutral (handleWhatsappClick u iconId).
Proof.
  unfold handleWhatsappClick, WhatsappClick.fetchMessagesWithRetry. cbn -[retryFetchMessages].
  split; [apply retryFetchMessages_neutral | reflexivity].
Qed.

Lemma handleRefreshClick_neutral u : neutral (handleRefreshClick u).
Proof.
  unfold handleRefreshClick, Refresh.fetchChatsWithRetry, Refresh.fetchMessagesWithRetry.
  cbn -[retryFetchChats retryFetchMessages].
  split; [apply retryFetchChats_neutral, retryFetchMessages_neutral | reflexivity].
Qed.

Lemma handleSendMessage_neutral u : neutral (handleSendMessage u).
Proof.
  unfold neutral, handleSendMessage, try_catch, bind, perform, fetch, json, await, get,
    ret, throw, return_.
  flag_auto.
Qed.

Lemma handleContextMenu_neutral u b message : neutral (handleContextMenu u b message).
Proof.
  unfold neutral, handleContextMenu, showContextMenu, handleForwardToChat,
    handleForwardMessage, try_catch, bind, perform, axios_request, await, get, ret, throw.
  flag_auto.
Qed.

Lemma apply_effect_flag e c :
  match e with SetLoading true => False | _ => True end ->
  flag_inv c -> flag_inv (on_world (apply_effect e) c).
Proof.
  intros He [Hp Hf]. split; [exact Hp |]. simpl.
  destruct e as [| | | | [] | | | | | | |]; try exact Hf; [contradiction | discriminate].
Qed.

Lemma later_render_flag {A : Type} (t : Task A) :
  forall owed Q, flag_wp t owed Q -> flag_wp (later_render t) owed Q.
Proof.
  induction t as [A r | A e k IH | A k IH | A rq k IH | A child IHc k IH];
    intros owed Q H; simpl in *; eauto.
  destruct H as [Hc Hk]. split; [apply IHc, Hc | apply IH, Hk].
Qed.

Lemma in_render_neutral w {A : Type} (t : Task A) : neutral t -> neutral (in_render w t).
Proof.
  intros Ht. unfold in_render. destruct (rerendered w); [apply later_render_flag |]; exact Ht.
Qed.

Lemma dispatch_flag ev c : flag_inv c -> flag_inv (dispatch ev c).
Proof.
  intros Hc.
  destruct ev as [user | i | iconId | iconId | | s | | i b | i b | i r]; simpl.
  - apply spawn_flag; [apply effect_neutral |].
    apply spawn_flag; [apply ghlToken_neutral | exact Hc].
  - destruct (chats (ui (world c)) !! i) as [chat |]; [| exact Hc].
    destruct (bool_decide (chat_id chat = selectedChatId (ui (world c)))); [exact Hc |].
    apply spawn_flag; [apply in_render_neutral, effect_neutral |].
    apply apply_effect_flag; [exact I | exact Hc].
  - apply spawn_flag; [apply in_render_neutral, handleIconClick_neutral | exact Hc].
  - apply spawn_flag; [apply in_render_neutral, handleWhatsappClick_neutral | exact Hc].
  - apply spawn_flag; [apply in_render_neutral, handleRefreshClick_neutral | exact Hc].
  - apply apply_effect_flag; [exact I | exact Hc].
  - apply spawn_flag; [apply in_render_neutral, handleSendMessage_neutral | exact Hc].
  - destruct (messages (ui (world c)) !! i) as [message |]; [| exact Hc].
    apply spawn_flag; [apply in_render_neutral, handleContextMenu_neutral | exact Hc].
  - destruct (messages (ui (world c)) !! i) as [message |]; [| exact Hc].
    destruct (strict_eq (type message) (Some "text")); [| exact Hc].
    apply spawn_flag; [apply in_render_neutral, handleContextMenu_neutral |].
    apply spawn_flag; [apply in_render_neutral, handleContextMenu_neutral | exact Hc].
  - destruct (pending c !! i) as [[rq k] |] eqn:Hi; [| exact Hc].
    destruct (settle rq r (world c)) as [r' w'] eqn:E.
    destruct Hc as [Hp Hf].
    assert (Hui : ui w' = ui (world c)).
    { change w' with (snd (r', w')). rewrite <- E. apply settle_ui. }
    pose proof (take_drop_middle _ _ _ Hi) as Hsplit.
    rewrite <- Hsplit in Hp, Hf.
    apply Forall_app in Hp as [Hp1 Hp2]. apply Forall_cons in Hp2 as [Hk Hp2].
    rewrite delete_take_drop.
    destruct (isLoading (ui (world c))) eqn:Hl.
    + specialize (Hf eq_refl). apply Exists_app in Hf as [He | He].
      * apply (resume_flag (k r') _ false); [apply Hk | apply Forall_app; auto |].
        intros _. right. apply Exists_app. auto.
      * apply Exists_cons in He as [He | He].
        -- apply (resume_flag (k r') _ true); [apply He | apply Forall_app; auto | auto].
        -- apply (resume_flag (k r') _ false); [apply Hk | apply Forall_app; auto |].
           intros _. right. apply Exists_app. auto.
    + apply (resume_flag (k r') _ false); [apply Hk | apply Forall_app; auto |].
      simpl. rewrite Hui, Hl. discriminate.
Qed.

Lemma dispatch_all_flag evs c : flag_inv c -> flag_inv (dispatch_all evs c).
Proof.
  revert c. induction evs as [| ev evs IH]; intros c Hc; simpl; [exact Hc |].
  apply IH, dispatch_flag, Hc.
Qed.

(** X15.  Whatever the user does and however the requests are answered,
    from the first render on: while the loading flag is true, a request or a
    timer is awaited.  The indicator is never left on with nothing in
    flight. *)
Theorem loading_flag_means_something_is_awaited :
  forall (s : gmap string Doc) (evs : list UIEvent),
    let c := dispatch_all evs (initialConfig s) in
    isLoading (ui (world c)) = true -> pending c <> [].
Proof.
  intros s evs c Hl.
  assert (Hinv : flag_inv c).
  { apply dispatch_all_flag. split; [constructor | discriminate]. }
  destruct Hinv as [_ Hf]. specialize (Hf Hl).
  intros E. rewrite E in Hf. inversion Hf.
Qed.

(** ** The bindings of later renders *)

Lemma assigns_nothing_on_completion {A : Type} (t : Task A) :
  forall {B : Type} (f : Completion A -> Task B),
    assigns_nothing t -> (forall r, assigns_nothing (f r)) ->
    assigns_nothing (on_completion t f).
Proof.
  induction t as [A r | A e k IH | A k IH | A rq k IH | A child _ k IH];
    intros B f Ht Hf; simpl in *; eauto.
  - destruct e; auto.
  - destruct Ht. split; auto.
Qed.

Lemma assigns_nothing_while fuel maxRetries body :
  (forall rc, assigns_nothing (body rc)) ->
  forall rc, assigns_nothing (while_retry fuel maxRetries body rc).
Proof.
  intros Hbody. induction fuel as [| fuel IH]; intros rc; simpl.
  - destruct (rc <? maxRetries)%nat; exact I.
  - destruct (rc <? maxRetries)%nat; [| exact I].
    apply assigns_nothing_on_completion; [apply Hbody |].
    intros [a | | e]; simpl; auto.
Qed.

Ltac assigns_step :=
  match goal with
  | H : assigns_nothing ?t |- assigns_nothing ?t => exact H
  | H : forall x, assigns_nothing _ |- assigns_nothing _ => solve [apply H]
  | |- assigns_nothing (on_completion (while_retry _ _ _ _) _) =>
      apply assigns_nothing_on_completion
  | |- assigns_nothing (while_retry _ _ _ _) => apply assigns_nothing_while
  | |- forall _, _ => intro
  | |- _ /\ _ => split
  | |- True => exact I
  | |- assigns_nothing (if ?b then _ else _) => destruct b
  | |- assigns_nothing (match ?x with _ => _ end) => destruct x
  | |- context [on_completion (match ?x with _ => _ end) _] => destruct x
  | |- assigns_nothing _ => progress cbn -[while_retry retryFetchMessages retryFetchChats]
  end.

Lemma fetchMessagesAttempt_assigns_nothing d sel rc :
  assigns_nothing (fetchMessagesAttempt d sel rc).
Proof.
  unfold fetchMessagesAttempt, try_finally, try_catch, bind, perform, fetch, json, await,
    data_messages, get, sleep, ret, throw, return_.
  repeat assigns_step.
Qed.

Lemma retryFetchMessages_assigns_nothing N d sel : assigns_nothing (retryFetchMessages N d sel).
Proof.
  pose proof (fetchMessagesAttempt_assigns_nothing d sel).
  unfold retryFetchMessages, bind, perform, ret, return_.
  repeat assigns_step.
Qed.

Lemma fetchChatsAttempt_assigns_nothing d child rc :
  assigns_nothing child -> assigns_nothing (fetchChatsAttempt d child rc).
Proof.
  intros Hc.
  unfold fetchChatsAttempt, try_finally, try_catch, bind, perform, fetch, json, await,
    data_chats, get, sleep, ret, throw, return_.
  repeat assigns_step.
Qed.

Lemma retryFetchChats_assigns_nothing N d child :
  assigns_nothing child -> assigns_nothing (retryFetchChats N d child).
Proof.
  intros Hc. pose proof (fun rc => fetchChatsAttempt_assigns_nothing d child rc Hc).
  unfold retryFetchChats, bind, perform, ret.
  repeat assigns_step.
Qed.

(** The functions in use after the first render: the effect on
    [selectedChatId] and the handlers. *)
Lemma later_functions_assign_nothing u sel iconId b message :
  assigns_nothing (SelectedChatEffect.fetchMessagesWithRetry sel) /\
  assigns_nothing (handleIconClick iconId) /\
  assigns_nothing (handleWhatsappClick u iconId) /\
  assigns_nothing (handleRefreshClick u) /\
  assigns_nothing (handleSendMessage u) /\
  assigns_nothing (handleContextMenu u b message).
Proof.
  pose proof (retryFetchMessages_assigns_nothing WhatsappClick.maxRetries
                WhatsappClick.retryDelay (selectedChatId u)).
  pose proof (retryFetchChats_assigns_nothing Refresh.maxRetries Refresh.retryDelay _
                (retryFetchMessages_assigns_nothing Refresh.maxRetries Refresh.retryDelay
                   (selectedChatId u))).
  refine (conj _ (conj _ (conj _ (conj _ (conj _ _))))).
  - unfold SelectedChatEffect.fetchMessagesWithRetry, try_finally, try_catch, bind, perform,
      axios_request, await, data_messages, get, ret, throw, return_.
    repeat assigns_step.
  - unfold handleIconClick, bind, perform, ret. repeat assigns_step.
  - unfold handleWhatsappClick, WhatsappClick.fetchMessagesWithRetry, bind, perform, ret.
    repeat assigns_step.
  - unfold handleRefreshClick, Refresh.fetchChatsWithRetry, Refresh.fetchMessagesWithRetry,
      bind, perform, ret.
    repeat assigns_step.
  - unfold handleSendMessage, try_catch, bind, perform, fetch, json, await, get,
      ret, throw, return_.
    repeat assigns_step.
  - unfold handleContextMenu, showContextMenu, handleForwardToChat, handleForwardMessage,
      try_catch, bind, perform, axios_request, await, get, ret, throw.
    repeat assigns_step.
Qed.

(** A task that assigns nothing leaves the bindings of the first render
    alone, whether it reads them or its own. *)
Lemma run_assigns_nothing {A : Type} (t : Task A) :
  forall rs c, assigns_nothing t -> vars (world (snd (fst (run t rs c)))) = vars (world c).
Proof.
  induction t as [A r | A e k IH | A k IH | A rq k IH | A child IHc k IH];
    intros rs c Ht; simpl in *.
  - reflexivity.
  - destruct e; try contradiction; rewrite IH by exact Ht; reflexivity.
  - apply IH, Ht.
  - destruct rs as [| r rs]; [reflexivity |].
    destruct (settle rq r (record (Req rq) (world c))) as [r' w'] eqn:E.
    rewrite IH by apply Ht. simpl.
    change w' with (snd (r', w')). rewrite <- E.
    destruct rq as [| | ? ? ? []|], r; reflexivity.
  - destruct Ht as [Hc Hk]. specialize (IHc [] c Hc).
    destruct (run child [] c) as [[o c1] rs1]. simpl in *.
    rewrite IH by exact Hk. destruct o; simpl; exact IHc.
Qed.

Lemma changes_false e u : changes e u = false -> ui_after e u = u.
Proof.
  destruct u as [cs sel ms s l ic sm]. destruct e; simpl; try discriminate; try reflexivity;
    intros H.
  - apply negb_false_iff, bool_decide_eq_true_1 in H. subst. reflexivity.
  - apply negb_false_iff, bool_decide_eq_true_1 in H. subst. reflexivity.
  - apply negb_false_iff, bool_decide_eq_true_1 in H. subst. reflexivity.
  - apply negb_false_iff, bool_decide_eq_true_1 in H. subst. reflexivity.
  - destruct m, sm; try discriminate. reflexivity.
Qed.

Lemma apply_effect_first_render e c :
  first_render_inv c -> first_render_inv (on_world (apply_effect e) c).
Proof.
  intros Hc H. simpl in *. apply orb_false_iff in H as [Hr Hch].
  rewrite (changes_false _ _ Hch). apply Hc, Hr.
Qed.

Lemma settle_first_render rq r w :
  ui (snd (settle rq r w)) = ui w /\ rerendered (snd (settle rq r w)) = rerendered w.
Proof. destruct rq as [| | ? ? ? []|], r; split; reflexivity. Qed.

Lemma run_first_render {A : Type} (t : Task A) :
  forall rs c, first_render_inv c -> first_render_inv (snd (fst (run t rs c))).
Proof.
  induction t as [A r | A e k IH | A k IH | A rq k IH | A child IHc k IH];
    intros rs c Hc; simpl in *.
  - exact Hc.
  - apply IH, apply_effect_first_render, Hc.
  - apply IH, Hc.
  - destruct rs as [| r rs]; [exact Hc |].
    destruct (settle rq r (record (Req rq) (world c))) as [r' w'] eqn:E.
    apply IH. unfold first_render_inv. simpl.
    change w' with (snd (r', w')). rewrite <- E.
    destruct (settle_first_render rq r (record (Req rq) (world c))) as [-> ->]. exact Hc.
  - specialize (IHc [] c Hc).
    destruct (run child [] c) as [[o c1] rs1]. simpl in *.
    apply IH. destruct o; exact IHc.
Qed.

Lemma spawn_first_render t c : first_render_inv c -> first_render_inv (spawn t c).
Proof.
  intros Hc. unfold spawn. pose proof (run_first_render t [] c Hc) as H.
  destruct (run t [] c) as [[o c1] rs1]. destruct o; exact H.
Qed.

Lemma dispatch_first_render ev c : first_render_inv c -> first_render_inv (dispatch ev c).
Proof.
  intros Hc.
  destruct ev as [user | i | iconId | iconId | | s | | i b | i b | i r]; simpl.
  - apply spawn_first_render, spawn_first_render, Hc.
  - destruct (chats (ui (world c)) !! i) as [chat |]; [| exact Hc].
    destruct (bool_decide (chat_id chat = selectedChatId (ui (world c)))); [exact Hc |].
    apply spawn_first_render, apply_effect_first_render, Hc.
  - apply spawn_first_render, Hc.
  - apply spawn_first_render, Hc.
  - apply spawn_first_render, Hc.
  - apply apply_effect_first_render, Hc.
  - apply spawn_first_render, Hc.
  - destruct (messages (ui (world c)) !! i) as [message |]; [| exact Hc].
    apply spawn_first_render, Hc.
  - destruct (messages (ui (world c)) !! i) as [message |]; [| exact Hc].
    destruct (strict_eq (type message) (Some "text")); [| exact Hc].
    apply spawn_first_render, spawn_first_render, Hc.
  - destruct (pending c !! i) as [[rq k] |] eqn:Hi; [| exact Hc].
    destruct (settle rq r (world c)) as [r' w'] eqn:E.
    apply spawn_first_render. unfold first_render_inv. simpl.
    change w' with (snd (r', w')). rewrite <- E.
    destruct (settle_first_render rq r (world c)) as [-> ->]. exact Hc.
Qed.

Lemma dispatch_all_first_render evs c :
  first_render_inv c -> first_render_inv (dispatch_all evs c).
Proof.
  revert c. induction evs as [| ev evs IH]; intros c Hc; simpl; [exact Hc |].
  apply IH, dispatch_first_render, Hc.
Qed.

(** X16.  The gateway token never reaches the requests made after the first
    render: whatever the load has assigned to [WHAPI_ACCESS_TOKEN], the
    request for the messages of a clicked conversation and the request that
    sends a message carry the header [Authorization: Bearer ] with no token.
    Each render declares the binding anew with the empty string, and the
    effect and the handler are those of the render that follows a change of
    state. *)
Theorem requests_of_later_renders_carry_no_token :
  forall (s : gmap string Doc) (evs : list UIEvent),
    let c := dispatch_all evs (initialConfig s) in
    let u := ui (world c) in
    (forall i chat id,
        chats u !! i = Some chat ->
        chat_id chat = Some id ->
        id <> "" ->
        selectedChatId u <> Some id ->
        exists k,
          pending (dispatch (SelectChat i) c) =
          pending c ++ [(Http "GET" (messagesUrl (Some id))
                           [("Authorization", "Bearer "); ("accept", "application/json")]
                           NoBody, k)])
    /\
    (forall id,
        trim (newMessage u) <> [] ->
        selectedChatId u = Some id ->
        id <> "" ->
        exists k,
          pending (dispatch SendMessage c) =
          pending c ++ [(Http "POST" sendUrl
                           [("Content-Type", "application/json");
                            ("Authorization", "Bearer ")]
                           (JsonBody id (newMessage u)), k)]).
Proof.
  intros s evs c u. split.
  - intros i chat id Hi Hid Hne Hsel.
    destruct (SelectChat_starts c i chat id Hi Hid Hne Hsel) as (k & -> & _).
    exists k. reflexivity.
  - intros id Htxt Hsel Hid.
    destruct (SendMessage_starts c id Htxt Hsel Hid) as (k & Hk & _).
    exists k. rewrite Hk. cbn [pending]. unfold bindings.
    assert (Hr : rerendered (world c) = true).
    { destruct (rerendered (world c)) eqn:Hr; [reflexivity |].
      assert (Hinv : first_render_inv c)
        by (apply dispatch_all_first_render; intros _; reflexivity).
      specialize (Hinv Hr). fold u in Hinv. rewrite Hinv in Hsel. discriminate Hsel. }
    rewrite Hr. reflexivity.
Qed.

(** X17.  A click on the text of a text bubble calls [handleContextMenu]
    twice, for the text and for the bubble around it, and both calls read the
    selection of the same render: the message selected before is forwarded
    twice to the clicked message, and the clicked message becomes the
    selection. *)
Theorem click_on_a_text_forwards_twice :
  forall (c : Config) (i : nat) (message previous : Message),
    let u := ui (world c) in
    messages u !! i = Some message ->
    type message = Some "text" ->
    selectedMessage u = Some previous ->
    let c' := dispatch (TextClick i true) c in
    selectedMessage (ui (world c')) = Some message /\
    exists h k1 k2,
      let rq := Http "POST" forwardUrl h (ForwardBody (msg_id message) (msg_id previous)) in
      pending c' = pending c ++ [(rq, k1); (rq, k2)].
Proof.
  intros c i message previous u Hi Hty Hprev. subst u.
  unfold dispatch. rewrite Hi, Hty. cbn [strict_eq String.eqb Ascii.eqb Bool.eqb].
  unfold in_render, handleContextMenu, showContextMenu, handleForwardToChat, spawn.
  rewrite Hprev.
  destruct (rerendered (world c)); cbn; rewrite <- app_assoc;
    (split; [reflexivity |]); eexists _, _, _; reflexivity.
Qed.

(** ** Instances of the further properties *)

(** X2 on a thread of two messages, fetched at once and after one failure. *)
Lemma thread_of_two_is_shown_oldest_first :
  let ms := [remoteLater; remoteHello] in
  let good := Response true (Some (MessagesData ms)) in
  (let c' := snd (fst (run (SelectedChatEffect.fetchMessagesWithRetry (Some "A"))
                           [good] (initialConfig ∅))) in
   renderedMessages (ui (world c')) = map toMessage (rev ms) /\
   oldest_first (renderedMessages (ui (world c'))))
  /\
  (let c' := snd (fst (run (retryFetchMessages 2 1 (Some "A"))
                           (failures [offline] ++ [good]) (initialConfig ∅))) in
   renderedMessages (ui (world c')) = map toMessage (rev ms) /\
   oldest_first (renderedMessages (ui (world c')))).
Proof.
  destruct (fetched_thread_is_shown_oldest_first 2 1 (Some "A") [offline]
              [remoteLater; remoteHello] [] (initialConfig ∅)) as [H1 H2].
  - reflexivity.
  - repeat (constructor; try (simpl; lia)).
  - split; [exact H1 |]. apply H2.
    + repeat constructor.
    + simpl. lia.
Defined.

(** X3 on the text "hi" sent to conversation A. *)
Lemma sent_hi_is_rendered_first :
  let c := typing (js "hi") in
  let c' := snd (fst (run (handleSendMessage (ui (world c)))
                          [Response true (Some (SentData "m2"))] c)) in
  let m := newMsg (SentData "m2") (js "hi") in
  renderedMessages (ui (world c')) = m :: renderedMessages (ui (world c)) /\
  stamp m = 0%Z /\
  (oldest_first (renderedMessages (ui (world c))) ->
   Forall (fun x => (0 <= stamp x)%Z) (messages (ui (world c))) ->
   oldest_first (renderedMessages (ui (world c')))).
Proof.
  apply (sent_message_is_rendered_first (typing (js "hi")) "A" (SentData "m2") []).
  - vm_compute. discriminate.
  - reflexivity.
  - discriminate.
Defined.

(** X4 on the text "hi" sent to a conversation C that is not listed. *)
Lemma sending_to_unlisted_C_updates_no_preview :
  let c := typingUnlisted in
  let c' := snd (fst (run (handleSendMessage (ui (world c)))
                          [Response true (Some (SentData "m2"))] c)) in
  chats (ui (world c')) = chats (ui (world c)) /\
  messages (ui (world c')) =
    messages (ui (world c)) ++ [newMsg (SentData "m2") (newMessage (ui (world c)))] /\
  newMessage (ui (world c')) = [].
Proof.
  apply (send_to_unlisted_conversation_updates_no_preview
           typingUnlisted "C" (SentData "m2") []).
  - vm_compute. discriminate.
  - reflexivity.
  - discriminate.
  - repeat constructor; discriminate.
Defined.

(** X5: B is clicked, then A again; the messages of B arrive last. *)
Lemma late_reply_of_B_is_shown_under_A :
  let c' := dispatch_all
              [SelectChat 1; SelectChat 0;
               Settle 1 offline;
               Settle 0 (Response true (Some (MessagesData [remoteHello])))] showingA in
  selectedChatId (ui (world c')) = Some "A" /\
  messages (ui (world c')) = map toMessage [remoteHello] /\
  isLoading (ui (world c')) = false /\
  pending c' = pending showingA.
Proof.
  apply (late_reply_of_previous_conversation_is_shown
           showingA 1 0 chatB chatA "B" "A" offline [remoteHello]).
  - reflexivity.
  - reflexivity.
  - discriminate.
  - reflexivity.
  - reflexivity.
  - discriminate.
  - discriminate.
  - discriminate.
Defined.

(** X6: B is clicked while the network is down. *)
Lemma failed_fetch_of_B_keeps_the_thread_of_A :
  let c' := dispatch_all [SelectChat 1; Settle 0 offline] showingA in
  selectedChatId (ui (world c')) = Some "B" /\
  messages (ui (world c')) = messages (ui (world showingA)) /\
  chats (ui (world c')) = chats (ui (world showingA)) /\
  isLoading (ui (world c')) = false /\
  pending c' = pending showingA /\
  exists evs,
    trace (world c') = trace (world showingA) ++ evs /\
    attempts (messagesUrl (Some "B")) evs = 1.
Proof.
  apply (failed_fetch_keeps_previous_thread showingA 1 chatB "B" offline).
  - reflexivity.
  - reflexivity.
  - discriminate.
  - discriminate.
  - reflexivity.
Defined.

(** X7 on the text "hi" sent twice to conversation A. *)
Lemma of_two_sends_of_hi_one_is_shown :
  let c := typing (js "hi") in
  let c' := dispatch_all
              [SendMessage; SendMessage;
               Settle 0 (Response true (Some (SentData "m2")));
               Settle 0 (Response true (Some (SentData "m3")))] c in
  messages (ui (world c')) =
    messages (ui (world c)) ++ [newMsg (SentData "m3") (js "hi")] /\
  chats (ui (world c')) =
    withPreview (Some "A") (newMsg (SentData "m3") (js "hi")) (chats (ui (world c))) /\
  pending c' = pending c /\
  exists evs,
    trace (world c') = trace (world c) ++ evs /\
    attempts sendUrl evs = 2.
Proof.
  apply (of_two_sends_the_last_answered_is_shown
           (typing (js "hi")) "A" (SentData "m2") (SentData "m3")).
  - vm_compute. discriminate.
  - reflexivity.
  - discriminate.
Defined.

(** X8 on a second click on the message shown: the message selected by the
    first click is forwarded to a chat named after it. *)
Lemma second_click_forwards_hello :
  dispatch (ContextMenu 0 false) helloClicked = helloClicked /\
  let c' := dispatch (ContextMenu 0 true) helloClicked in
  selectedMessage (ui (world c')) = Some hello /\
  exists h k,
    pending c' =
    pending helloClicked ++
      [(Http "POST" forwardUrl h (ForwardBody (Some "m1") (Some "m1")), k)] /\
    forall r,
      let c'' := dispatch (Settle (length (pending helloClicked)) r) c' in
      ui (world c'') = ui (world c') /\ pending c'' = pending helloClicked.
Proof.
  apply (context_menu_forwards_the_previous_selection helloClicked 0 hello).
  reflexivity.
Defined.

(** X9 on a refresh while conversation A is open. *)
Lemma refresh_of_A_lowers_the_flag :
  let c' := dispatch_all
              [RefreshClick; Settle 0 (Response true (Some (ChatsData [chatB])))]
              showingA in
  chats (ui (world c')) = map copyChat [chatB] /\
  messages (ui (world c')) = messages (ui (world showingA)) /\
  isLoading (ui (world c')) = false /\
  exists h k,
    pending c' = pending showingA ++ [(Http "GET" (messagesUrl (Some "A")) h NoBody, k)].
Proof.
  apply (refresh_lowers_the_flag_while_messages_load showingA "A" [chatB]).
  - reflexivity.
  - discriminate.
Defined.

(** X10 on the Facebook icon while conversation A is open. *)
Lemma facebook_icon_empties_the_thread_of_A :
  let c1 := dispatch_all [IconClick "fb"; SelectChat 0] showingA in
  messages (ui (world c1)) = [] /\
  selectedChatId (ui (world c1)) = Some "A" /\
  selectedIcon (ui (world c1)) = Some "fb" /\
  pending c1 = pending showingA /\
  attempts (messagesUrl (Some "A")) (trace (world c1)) =
    attempts (messagesUrl (Some "A")) (trace (world showingA)) /\
  let c2 := dispatch (WhatsappClick "ws") c1 in
  isLoading (ui (world c2)) = true /\
  exists h k,
    pending c2 = pending showingA ++ [(Http "GET" (messagesUrl (Some "A")) h NoBody, k)].
Proof.
  apply (another_source_empties_the_thread_until_whatsapp_is_clicked
           showingA "fb" 0 chatA "A").
  - reflexivity.
  - reflexivity.
  - reflexivity.
  - discriminate.
Defined.

(** X12 on the load for the user of company '011'. *)
Lemma chat_list_of_billert_is_loaded_with_the_token_of_011 :
  let c' := dispatch_all
              [Mount (Some billert); Settle 0 Resolved;
               Settle 0 (Response true (Some (ChatsData [chatA])))]
              (initialConfig twoTenants) in
  chats (ui (world c')) = map copyChat [chatA] /\
  isLoading (ui (world c')) = false /\
  (exists k,
      pending c' =
      pending (initialConfig twoTenants) ++
        [(exchangeRequest (configOf (tenantDoc "011")), k)]) /\
  exists evs,
    trace (world c') = trace (world (initialConfig twoTenants)) ++ evs /\
    List.filter is_http evs =
    [Req (loadRequest (tenantDoc "011" !! "whapiToken"));
     Req (exchangeRequest (configOf (tenantDoc "011")))].
Proof.
  apply (chat_list_is_loaded_with_the_token_of_the_document
           (Some billert) (tenantDoc "011") [chatA] (initialConfig twoTenants)).
  - reflexivity.
  - vm_compute. reflexivity.
Defined.

(** X13 on an empty collection, nobody signed in. *)
Lemma empty_collection_skips_the_chat_list :
  let c := initialConfig ∅ in
  exists k c' evs,
    run (ghlToken None) [Resolved] c =
    (Suspended (exchangeRequest (ghlConfig (vars (world c)))) k, c', []) /\
    trace (world c') = trace (world c) ++ evs /\
    In (Eff (ConsoleLog "No such document!")) evs /\
    attempts chatsUrl evs = 0 /\
    ui (world c') = ui (world c) /\
    ghlConfig (vars (world c')) = ghlConfig (vars (world c)) /\
    WHAPI_ACCESS_TOKEN (vars (world c')) = WHAPI_ACCESS_TOKEN (vars (world c)).
Proof.
  apply (missing_company_document_skips_the_chat_list None (initialConfig ∅)).
  reflexivity.
Defined.

(** X14 on the refresh for the user of company '011'. *)
Lemma tokens_of_011_are_merged_into_014 :
  let c := initialConfig twoTenants in
  let x := run (ghlToken (Some billert))
               [Resolved; Response true (Some (ChatsData []));
                Response true (Some (TokenData "access-new" "refresh-new"));
                Resolved; Response true None] c in
  let s := store (world c) in
  let s' := store (world (snd (fst x))) in
  fst (fst x) = Finished (Normal tt) /\
  (exists evs,
      events_of x = trace (world c) ++ evs /\
      List.filter (is_request oauthUrl) evs =
      [Req (exchangeRequest (configOf (tenantDoc "011")))]) /\
  field s' "014" "access_token" = Some "access-new" /\
  field s' "014" "refresh_token" = Some "refresh-new" /\
  (forall key, key <> "access_token" -> key <> "refresh_token" ->
               field s' "014" key = field s "014" key) /\
  (forall company, company <> "014" -> s' !! company = s !! company).
Proof.
  apply (refreshed_tokens_are_merged_into_document_014
           (Some billert) (tenantDoc "011") (Response true (Some (ChatsData [])))
           (initialConfig twoTenants) "access-new" "refresh-new" (Response true None) []).
  vm_compute. reflexivity.
Defined.

(** X15 on the load: the document of company '014' has been read and the
    chat list is awaited. *)
Lemma chat_list_is_awaited_while_the_flag_is_up :
  pending (dispatch_all [Mount None; Settle 0 Resolved] (initialConfig twoTenants)) <> [].
Proof.
  apply (loading_flag_means_something_is_awaited twoTenants [Mount None; Settle 0 Resolved]).
  vm_compute. reflexivity.
Defined.

(** X16 on the load for the user of company '011': the chat list was
    requested with the token of the document, the messages of conversation A
    are requested with none. *)
Lemma click_after_the_load_of_billert_carries_no_token :
  let c := dispatch_all loadOfBillert (initialConfig twoTenants) in
  WHAPI_ACCESS_TOKEN (vars (world c)) = Some "whapi-011" /\
  exists k,
    pending (dispatch (SelectChat 0) c) =
    pending c ++ [(Http "GET" (messagesUrl (Some "A"))
                     [("Authorization", "Bearer "); ("accept", "application/json")]
                     NoBody, k)].
Proof.
  split; [vm_compute; reflexivity |].
  apply (proj1 (requests_of_later_renders_carry_no_token twoTenants loadOfBillert)
           0 chatA "A").
  - vm_compute. reflexivity.
  - reflexivity.
  - discriminate.
  - vm_compute. discriminate.
Defined.

(** X17 on the text of the message that is already the selection. *)
Lemma click_on_hello_forwards_it_twice :
  let c' := dispatch (TextClick 0 true) helloClicked in
  selectedMessage (ui (world c')) = Some hello /\
  exists h k1 k2,
    let rq := Http "POST" forwardUrl h (ForwardBody (msg_id hello) (msg_id hello)) in
    pending c' = pending helloClicked ++ [(rq, k1); (rq, k2)].
Proof.
  apply (click_on_a_text_forwards_twice helloClicked 0 hello hello).
  - reflexivity.
  - reflexivity.
  - reflexivity.
Defined.
